(** * kg_sensors: generic-graph projection and tabular export

    A shallow embedding of [kg_sensors/rdf_utils.py] (label resolvers),
    [kg_sensors/nx_convert.py] (entity and bipartite projections) and
    [kg_sensors/exporters.py] (node and edge rows), together with the small
    parts of rdflib and networkx those functions call.

    Python dictionaries are finite maps ([gmap]); Python sets are finite sets
    ([gset]) whose iteration order is whatever [elements] gives, which no
    proof below depends on.  A Python string is modelled by its UTF-8 form,
    a string of bytes: the methods that look for ASCII characters or for a
    given text ([split], [replace], [startswith], [in]) work on the bytes,
    and [upper] and [strip], which depend on the Unicode character database,
    work on the characters. *)

From Stdlib Require Import Ascii.
From stdpp Require Import gmap strings list fin_maps pretty.

(* set_solver and naive_solver clear hypotheses by name as they go. *)
#[local] Set Warnings "-clear-no-such-hyp".

(** ** Python string methods used by the sources *)
Module pystr.

(** [s.startswith(c)] for a one-character prefix. *)
Definition startswith (c : ascii) (s : string) : bool :=
  match s with
  | EmptyString => false
  | String a _ => bool_decide (a = c)
  end.

(** [s.split(c)] for a one-character separator: never empty, and
    ["a/b/"] gives ["a"; "b"; ""]. *)
Fixpoint split (c : ascii) (s : string) : list string :=
  match s with
  | EmptyString => [EmptyString]
  | String a s' =>
      if bool_decide (a = c) then EmptyString :: split c s'
      else match split c s' with
           | [] => [String a EmptyString]
           | h :: t => String a h :: t
           end
  end.

(** [l[-1]] on a list of strings that is known to be non-empty. *)
Definition last_item (l : list string) : string := List.last l EmptyString.

(** [s.replace(a, b)] for one-character [a] and [b]. *)
Fixpoint replace (a b : ascii) (s : string) : string :=
  match s with
  | EmptyString => EmptyString
  | String c s' => String (if bool_decide (c = a) then b else c) (replace a b s')
  end.

Definition upper_char (c : ascii) : ascii :=
  let n := Ascii.nat_of_ascii c in
  if bool_decide (97 ≤ n ≤ 122) then Ascii.ascii_of_nat (n - 32) else c.

(** The upper-casing of the ASCII letters, byte by byte. *)
Fixpoint upper_bytes (s : string) : string :=
  match s with
  | EmptyString => EmptyString
  | String c s' => String (upper_char c) (upper_bytes s')
  end.

(** A string holds the UTF-8 form of a Python [str]: a character is one
    byte below 128, or a lead byte followed by continuation bytes. *)
Definition is_cont (c : ascii) : bool :=
  bool_decide (128 ≤ Ascii.nat_of_ascii c < 192).

Definition starts_cont (s : string) : bool :=
  match s with
  | EmptyString => false
  | String c _ => is_cont c
  end.

(** The characters of a string, each with its continuation bytes. *)
Fixpoint chars (s : string) : list string :=
  match s with
  | EmptyString => []
  | String c s' =>
      match chars s' with
      | h :: t =>
          if starts_cont h then String c h :: t
          else String c EmptyString :: h :: t
      | [] => [String c EmptyString]
      end
  end.

(** The characters outside ASCII that [str.upper] changes, each with what
    it puts in its place: [chr(i).upper()] of CPython 3.11 (Unicode 14.0)
    for every code point [i] from 128 on where it differs from [chr(i)].
    One character can give two or three. *)
Definition UPPER : list (string * string) := [
  ("µ", "Μ"); ("ß", "SS"); ("à", "À"); ("á", "Á"); ("â", "Â"); ("ã", "Ã");
  ("ä", "Ä"); ("å", "Å"); ("æ", "Æ"); ("ç", "Ç"); ("è", "È"); ("é", "É");
  ("ê", "Ê"); ("ë", "Ë"); ("ì", "Ì"); ("í", "Í"); ("î", "Î"); ("ï", "Ï");
  ("ð", "Ð"); ("ñ", "Ñ"); ("ò", "Ò"); ("ó", "Ó"); ("ô", "Ô"); ("õ", "Õ");
  ("ö", "Ö"); ("ø", "Ø"); ("ù", "Ù"); ("ú", "Ú"); ("û", "Û"); ("ü", "Ü");
  ("ý", "Ý"); ("þ", "Þ"); ("ÿ", "Ÿ"); ("ā", "Ā"); ("ă", "Ă"); ("ą", "Ą");
  ("ć", "Ć"); ("ĉ", "Ĉ"); ("ċ", "Ċ"); ("č", "Č"); ("ď", "Ď"); ("đ", "Đ");
  ("ē", "Ē"); ("ĕ", "Ĕ"); ("ė", "Ė"); ("ę", "Ę"); ("ě", "Ě"); ("ĝ", "Ĝ");
  ("ğ", "Ğ"); ("ġ", "Ġ"); ("ģ", "Ģ"); ("ĥ", "Ĥ"); ("ħ", "Ħ"); ("ĩ", "Ĩ");
  ("ī", "Ī"); ("ĭ", "Ĭ"); ("į", "Į"); ("ı", "I"); ("ĳ", "Ĳ"); ("ĵ", "Ĵ");
  ("ķ", "Ķ"); ("ĺ", "Ĺ"); ("ļ", "Ļ"); ("ľ", "Ľ"); ("ŀ", "Ŀ"); ("ł", "Ł");
  ("ń", "Ń"); ("ņ", "Ņ"); ("ň", "Ň"); ("ŉ", "ʼN"); ("ŋ", "Ŋ"); ("ō", "Ō");
  ("ŏ", "Ŏ"); ("ő", "Ő"); ("œ", "Œ"); ("ŕ", "Ŕ"); ("ŗ", "Ŗ"); ("ř", "Ř");
  ("ś", "Ś"); ("ŝ", "Ŝ"); ("ş", "Ş"); ("š", "Š"); ("ţ", "Ţ"); ("ť", "Ť");
  ("ŧ", "Ŧ"); ("ũ", "Ũ"); ("ū", "Ū"); ("ŭ", "Ŭ"); ("ů", "Ů"); ("ű", "Ű");
  ("ų", "Ų"); ("ŵ", "Ŵ"); ("ŷ", "Ŷ"); ("ź", "Ź"); ("ż", "Ż"); ("ž", "Ž");
  ("ſ", "S"); ("ƀ", "Ƀ"); ("ƃ", "Ƃ"); ("ƅ", "Ƅ"); ("ƈ", "Ƈ"); ("ƌ", "Ƌ");
  ("ƒ", "Ƒ"); ("ƕ", "Ƕ"); ("ƙ", "Ƙ"); ("ƚ", "Ƚ"); ("ƞ", "Ƞ"); ("ơ", "Ơ");
  ("ƣ", "Ƣ"); ("ƥ", "Ƥ"); ("ƨ", "Ƨ"); ("ƭ", "Ƭ"); ("ư", "Ư"); ("ƴ", "Ƴ");
  ("ƶ", "Ƶ"); ("ƹ", "Ƹ"); ("ƽ", "Ƽ"); ("ƿ", "Ƿ"); ("ǅ", "Ǆ"); ("ǆ", "Ǆ");
  ("ǈ", "Ǉ"); ("ǉ", "Ǉ"); ("ǋ", "Ǌ"); ("ǌ", "Ǌ"); ("ǎ", "Ǎ"); ("ǐ", "Ǐ");
  ("ǒ", "Ǒ"); ("ǔ", "Ǔ"); ("ǖ", "Ǖ"); ("ǘ", "Ǘ"); ("ǚ", "Ǚ"); ("ǜ", "Ǜ");
  ("ǝ", "Ǝ"); ("ǟ", "Ǟ"); ("ǡ", "Ǡ"); ("ǣ", "Ǣ"); ("ǥ", "Ǥ"); ("ǧ", "Ǧ");
  ("ǩ", "Ǩ"); ("ǫ", "Ǫ"); ("ǭ", "Ǭ"); ("ǯ", "Ǯ"); ("ǰ", "J̌"); ("ǲ", "Ǳ");
  ("ǳ", "Ǳ"); ("ǵ", "Ǵ"); ("ǹ", "Ǹ"); ("ǻ", "Ǻ"); ("ǽ", "Ǽ"); ("ǿ", "Ǿ");
  ("ȁ", "Ȁ"); ("ȃ", "Ȃ"); ("ȅ", "Ȅ"); ("ȇ", "Ȇ"); ("ȉ", "Ȉ"); ("ȋ", "Ȋ");
  ("ȍ", "Ȍ"); ("ȏ", "Ȏ"); ("ȑ", "Ȑ"); ("ȓ", "Ȓ"); ("ȕ", "Ȕ"); ("ȗ", "Ȗ");
  ("ș", "Ș"); ("ț", "Ț"); ("ȝ", "Ȝ"); ("ȟ", "Ȟ"); ("ȣ", "Ȣ"); ("ȥ", "Ȥ");
  ("ȧ", "Ȧ"); ("ȩ", "Ȩ"); ("ȫ", "Ȫ"); ("ȭ", "Ȭ"); ("ȯ", "Ȯ"); ("ȱ", "Ȱ");
  ("ȳ", "Ȳ"); ("ȼ", "Ȼ"); ("ȿ", "Ȿ"); ("ɀ", "Ɀ"); ("ɂ", "Ɂ"); ("ɇ", "Ɇ");
  ("ɉ", "Ɉ"); ("ɋ", "Ɋ"); ("ɍ", "Ɍ"); ("ɏ", "Ɏ"); ("ɐ", "Ɐ"); ("ɑ", "Ɑ");
  ("ɒ", "Ɒ"); ("ɓ", "Ɓ"); ("ɔ", "Ɔ"); ("ɖ", "Ɖ"); ("ɗ", "Ɗ"); ("ə", "Ə");
  ("ɛ", "Ɛ"); ("ɜ", "Ɜ"); ("ɠ", "Ɠ"); ("ɡ", "Ɡ"); ("ɣ", "Ɣ"); ("ɥ", "Ɥ");
  ("ɦ", "Ɦ"); ("ɨ", "Ɨ"); ("ɩ", "Ɩ"); ("ɪ", "Ɪ"); ("ɫ", "Ɫ"); ("ɬ", "Ɬ");
  ("ɯ", "Ɯ"); ("ɱ", "Ɱ"); ("ɲ", "Ɲ"); ("ɵ", "Ɵ"); ("ɽ", "Ɽ"); ("ʀ", "Ʀ");
  ("ʂ", "Ʂ"); ("ʃ", "Ʃ"); ("ʇ", "Ʇ"); ("ʈ", "Ʈ"); ("ʉ", "Ʉ"); ("ʊ", "Ʊ");
  ("ʋ", "Ʋ"); ("ʌ", "Ʌ"); ("ʒ", "Ʒ"); ("ʝ", "Ʝ"); ("ʞ", "Ʞ"); ("ͅ", "Ι");
  ("ͱ", "Ͱ"); ("ͳ", "Ͳ"); ("ͷ", "Ͷ"); ("ͻ", "Ͻ"); ("ͼ", "Ͼ"); ("ͽ", "Ͽ");
  ("ΐ", "Ϊ́"); ("ά", "Ά"); ("έ", "Έ"); ("ή", "Ή"); ("ί", "Ί"); ("ΰ", "Ϋ́");
  ("α", "Α"); ("β", "Β"); ("γ", "Γ"); ("δ", "Δ"); ("ε", "Ε"); ("ζ", "Ζ");
  ("η", "Η"); ("θ", "Θ"); ("ι", "Ι"); ("κ", "Κ"); ("λ", "Λ"); ("μ", "Μ");
  ("ν", "Ν"); ("ξ", "Ξ"); ("ο", "Ο"); ("π", "Π"); ("ρ", "Ρ"); ("ς", "Σ");
  ("σ", "Σ"); ("τ", "Τ"); ("υ", "Υ"); ("φ", "Φ"); ("χ", "Χ"); ("ψ", "Ψ");
  ("ω", "Ω"); ("ϊ", "Ϊ"); ("ϋ", "Ϋ"); ("ό", "Ό"); ("ύ", "Ύ"); ("ώ", "Ώ");
  ("ϐ", "Β"); ("ϑ", "Θ"); ("ϕ", "Φ"); ("ϖ", "Π"); ("ϗ", "Ϗ"); ("ϙ", "Ϙ");
  ("ϛ", "Ϛ"); ("ϝ", "Ϝ"); ("ϟ", "Ϟ"); ("ϡ", "Ϡ"); ("ϣ", "Ϣ"); ("ϥ", "Ϥ");
  ("ϧ", "Ϧ"); ("ϩ", "Ϩ"); ("ϫ", "Ϫ"); ("ϭ", "Ϭ"); ("ϯ", "Ϯ"); ("ϰ", "Κ");
  ("ϱ", "Ρ"); ("ϲ", "Ϲ"); ("ϳ", "Ϳ"); ("ϵ", "Ε"); ("ϸ", "Ϸ"); ("ϻ", "Ϻ");
  ("а", "А"); ("б", "Б"); ("в", "В"); ("г", "Г"); ("д", "Д"); ("е", "Е");
  ("ж", "Ж"); ("з", "З"); ("и", "И"); ("й", "Й"); ("к", "К"); ("л", "Л");
  ("м", "М"); ("н", "Н"); ("о", "О"); ("п", "П"); ("р", "Р"); ("с", "С");
  ("т", "Т"); ("у", "У"); ("ф", "Ф"); ("х", "Х"); ("ц", "Ц"); ("ч", "Ч");
  ("ш", "Ш"); ("щ", "Щ"); ("ъ", "Ъ"); ("ы", "Ы"); ("ь", "Ь"); ("э", "Э");
  ("ю", "Ю"); ("я", "Я"); ("ѐ", "Ѐ"); ("ё", "Ё"); ("ђ", "Ђ"); ("ѓ", "Ѓ");
  ("є", "Є"); ("ѕ", "Ѕ"); ("і", "І"); ("ї", "Ї"); ("ј", "Ј"); ("љ", "Љ");
  ("њ", "Њ"); ("ћ", "Ћ"); ("ќ", "Ќ"); ("ѝ", "Ѝ"); ("ў", "Ў"); ("џ", "Џ");
  ("ѡ", "Ѡ"); ("ѣ", "Ѣ"); ("ѥ", "Ѥ"); ("ѧ", "Ѧ"); ("ѩ", "Ѩ"); ("ѫ", "Ѫ");
  ("ѭ", "Ѭ"); ("ѯ", "Ѯ"); ("ѱ", "Ѱ"); ("ѳ", "Ѳ"); ("ѵ", "Ѵ"); ("ѷ", "Ѷ");
  ("ѹ", "Ѹ"); ("ѻ", "Ѻ"); ("ѽ", "Ѽ"); ("ѿ", "Ѿ"); ("ҁ", "Ҁ"); ("ҋ", "Ҋ");
  ("ҍ", "Ҍ"); ("ҏ", "Ҏ"); ("ґ", "Ґ"); ("ғ", "Ғ"); ("ҕ", "Ҕ"); ("җ", "Җ");
  ("ҙ", "Ҙ"); ("қ", "Қ"); ("ҝ", "Ҝ"); ("ҟ", "Ҟ"); ("ҡ", "Ҡ"); ("ң", "Ң");
  ("ҥ", "Ҥ"); ("ҧ", "Ҧ"); ("ҩ", "Ҩ"); ("ҫ", "Ҫ"); ("ҭ", "Ҭ"); ("ү", "Ү");
  ("ұ", "Ұ"); ("ҳ", "Ҳ"); ("ҵ", "Ҵ"); ("ҷ", "Ҷ"); ("ҹ", "Ҹ"); ("һ", "Һ");
  ("ҽ", "Ҽ"); ("ҿ", "Ҿ"); ("ӂ", "Ӂ"); ("ӄ", "Ӄ"); ("ӆ", "Ӆ"); ("ӈ", "Ӈ");
  ("ӊ", "Ӊ"); ("ӌ", "Ӌ"); ("ӎ", "Ӎ"); ("ӏ", "Ӏ"); ("ӑ", "Ӑ"); ("ӓ", "Ӓ");
  ("ӕ", "Ӕ"); ("ӗ", "Ӗ"); ("ә", "Ә"); ("ӛ", "Ӛ"); ("ӝ", "Ӝ"); ("ӟ", "Ӟ");
  ("ӡ", "Ӡ"); ("ӣ", "Ӣ"); ("ӥ", "Ӥ"); ("ӧ", "Ӧ"); ("ө", "Ө"); ("ӫ", "Ӫ");
  ("ӭ", "Ӭ"); ("ӯ", "Ӯ"); ("ӱ", "Ӱ"); ("ӳ", "Ӳ"); ("ӵ", "Ӵ"); ("ӷ", "Ӷ");
  ("ӹ", "Ӹ"); ("ӻ", "Ӻ"); ("ӽ", "Ӽ"); ("ӿ", "Ӿ"); ("ԁ", "Ԁ"); ("ԃ", "Ԃ");
  ("ԅ", "Ԅ"); ("ԇ", "Ԇ"); ("ԉ", "Ԉ"); ("ԋ", "Ԋ"); ("ԍ", "Ԍ"); ("ԏ", "Ԏ");
  ("ԑ", "Ԑ"); ("ԓ", "Ԓ"); ("ԕ", "Ԕ"); ("ԗ", "Ԗ"); ("ԙ", "Ԙ"); ("ԛ", "Ԛ");
  ("ԝ", "Ԝ"); ("ԟ", "Ԟ"); ("ԡ", "Ԡ"); ("ԣ", "Ԣ"); ("ԥ", "Ԥ"); ("ԧ", "Ԧ");
  ("ԩ", "Ԩ"); ("ԫ", "Ԫ"); ("ԭ", "Ԭ"); ("ԯ", "Ԯ"); ("ա", "Ա"); ("բ", "Բ");
  ("գ", "Գ"); ("դ", "Դ"); ("ե", "Ե"); ("զ", "Զ"); ("է", "Է"); ("ը", "Ը");
  ("թ", "Թ"); ("ժ", "Ժ"); ("ի", "Ի"); ("լ", "Լ"); ("խ", "Խ"); ("ծ", "Ծ");
  ("կ", "Կ"); ("հ", "Հ"); ("ձ", "Ձ"); ("ղ", "Ղ"); ("ճ", "Ճ"); ("մ", "Մ");
  ("յ", "Յ"); ("ն", "Ն"); ("շ", "Շ"); ("ո", "Ո"); ("չ", "Չ"); ("պ", "Պ");
  ("ջ", "Ջ"); ("ռ", "Ռ"); ("ս", "Ս"); ("վ", "Վ"); ("տ", "Տ"); ("ր", "Ր");
  ("ց", "Ց"); ("ւ", "Ւ"); ("փ", "Փ"); ("ք", "Ք"); ("օ", "Օ"); ("ֆ", "Ֆ");
  ("և", "ԵՒ"); ("ა", "Ა"); ("ბ", "Ბ"); ("გ", "Გ"); ("დ", "Დ"); ("ე", "Ე");
  ("ვ", "Ვ"); ("ზ", "Ზ"); ("თ", "Თ"); ("ი", "Ი"); ("კ", "Კ"); ("ლ", "Ლ");
  ("მ", "Მ"); ("ნ", "Ნ"); ("ო", "Ო"); ("პ", "Პ"); ("ჟ", "Ჟ"); ("რ", "Რ");
  ("ს", "Ს"); ("ტ", "Ტ"); ("უ", "Უ"); ("ფ", "Ფ"); ("ქ", "Ქ"); ("ღ", "Ღ");
  ("ყ", "Ყ"); ("შ", "Შ"); ("ჩ", "Ჩ"); ("ც", "Ც"); ("ძ", "Ძ"); ("წ", "Წ");
  ("ჭ", "Ჭ"); ("ხ", "Ხ"); ("ჯ", "Ჯ"); ("ჰ", "Ჰ"); ("ჱ", "Ჱ"); ("ჲ", "Ჲ");
  ("ჳ", "Ჳ"); ("ჴ", "Ჴ"); ("ჵ", "Ჵ"); ("ჶ", "Ჶ"); ("ჷ", "Ჷ"); ("ჸ", "Ჸ");
  ("ჹ", "Ჹ"); ("ჺ", "Ჺ"); ("ჽ", "Ჽ"); ("ჾ", "Ჾ"); ("ჿ", "Ჿ"); ("ᏸ", "Ᏸ");
  ("ᏹ", "Ᏹ"); ("ᏺ", "Ᏺ"); ("ᏻ", "Ᏻ"); ("ᏼ", "Ᏼ"); ("ᏽ", "Ᏽ"); ("ᲀ", "В");
  ("ᲁ", "Д"); ("ᲂ", "О"); ("ᲃ", "С"); ("ᲄ", "Т"); ("ᲅ", "Т"); ("ᲆ", "Ъ");
  ("ᲇ", "Ѣ"); ("ᲈ", "Ꙋ"); ("ᵹ", "Ᵹ"); ("ᵽ", "Ᵽ"); ("ᶎ", "Ᶎ"); ("ḁ", "Ḁ");
  ("ḃ", "Ḃ"); ("ḅ", "Ḅ"); ("ḇ", "Ḇ"); ("ḉ", "Ḉ"); ("ḋ", "Ḋ"); ("ḍ", "Ḍ");
  ("ḏ", "Ḏ"); ("ḑ", "Ḑ"); ("ḓ", "Ḓ"); ("ḕ", "Ḕ"); ("ḗ", "Ḗ"); ("ḙ", "Ḙ");
  ("ḛ", "Ḛ"); ("ḝ", "Ḝ"); ("ḟ", "Ḟ"); ("ḡ", "Ḡ"); ("ḣ", "Ḣ"); ("ḥ", "Ḥ");
  ("ḧ", "Ḧ"); ("ḩ", "Ḩ"); ("ḫ", "Ḫ"); ("ḭ", "Ḭ"); ("ḯ", "Ḯ"); ("ḱ", "Ḱ");
  ("ḳ", "Ḳ"); ("ḵ", "Ḵ"); ("ḷ", "Ḷ"); ("ḹ", "Ḹ"); ("ḻ", "Ḻ"); ("ḽ", "Ḽ");
  ("ḿ", "Ḿ"); ("ṁ", "Ṁ"); ("ṃ", "Ṃ"); ("ṅ", "Ṅ"); ("ṇ", "Ṇ"); ("ṉ", "Ṉ");
  ("ṋ", "Ṋ"); ("ṍ", "Ṍ"); ("ṏ", "Ṏ"); ("ṑ", "Ṑ"); ("ṓ", "Ṓ"); ("ṕ", "Ṕ");
  ("ṗ", "Ṗ"); ("ṙ", "Ṙ"); ("ṛ", "Ṛ"); ("ṝ", "Ṝ"); ("ṟ", "Ṟ"); ("ṡ", "Ṡ");
  ("ṣ", "Ṣ"); ("ṥ", "Ṥ"); ("ṧ", "Ṧ"); ("ṩ", "Ṩ"); ("ṫ", "Ṫ"); ("ṭ", "Ṭ");
  ("ṯ", "Ṯ"); ("ṱ", "Ṱ"); ("ṳ", "Ṳ"); ("ṵ", "Ṵ"); ("ṷ", "Ṷ"); ("ṹ", "Ṹ");
  ("ṻ", "Ṻ"); ("ṽ", "Ṽ"); ("ṿ", "Ṿ"); ("ẁ", "Ẁ"); ("ẃ", "Ẃ"); ("ẅ", "Ẅ");
  ("ẇ", "Ẇ"); ("ẉ", "Ẉ"); ("ẋ", "Ẋ"); ("ẍ", "Ẍ"); ("ẏ", "Ẏ"); ("ẑ", "Ẑ");
  ("ẓ", "Ẓ"); ("ẕ", "Ẕ"); ("ẖ", "H̱"); ("ẗ", "T̈"); ("ẘ", "W̊"); ("ẙ", "Y̊");
  ("ẚ", "Aʾ"); ("ẛ", "Ṡ"); ("ạ", "Ạ"); ("ả", "Ả"); ("ấ", "Ấ"); ("ầ", "Ầ");
  ("ẩ", "Ẩ"); ("ẫ", "Ẫ"); ("ậ", "Ậ"); ("ắ", "Ắ"); ("ằ", "Ằ"); ("ẳ", "Ẳ");
  ("ẵ", "Ẵ"); ("ặ", "Ặ"); ("ẹ", "Ẹ"); ("ẻ", "Ẻ"); ("ẽ", "Ẽ"); ("ế", "Ế");
  ("ề", "Ề"); ("ể", "Ể"); ("ễ", "Ễ"); ("ệ", "Ệ"); ("ỉ", "Ỉ"); ("ị", "Ị");
  ("ọ", "Ọ"); ("ỏ", "Ỏ"); ("ố", "Ố"); ("ồ", "Ồ"); ("ổ", "Ổ"); ("ỗ", "Ỗ");
  ("ộ", "Ộ"); ("ớ", "Ớ"); ("ờ", "Ờ"); ("ở", "Ở"); ("ỡ", "Ỡ"); ("ợ", "Ợ");
  ("ụ", "Ụ"); ("ủ", "Ủ"); ("ứ", "Ứ"); ("ừ", "Ừ"); ("ử", "Ử"); ("ữ", "Ữ");
  ("ự", "Ự"); ("ỳ", "Ỳ"); ("ỵ", "Ỵ"); ("ỷ", "Ỷ"); ("ỹ", "Ỹ"); ("ỻ", "Ỻ");
  ("ỽ", "Ỽ"); ("ỿ", "Ỿ"); ("ἀ", "Ἀ"); ("ἁ", "Ἁ"); ("ἂ", "Ἂ"); ("ἃ", "Ἃ");
  ("ἄ", "Ἄ"); ("ἅ", "Ἅ"); ("ἆ", "Ἆ"); ("ἇ", "Ἇ"); ("ἐ", "Ἐ"); ("ἑ", "Ἑ");
  ("ἒ", "Ἒ"); ("ἓ", "Ἓ"); ("ἔ", "Ἔ"); ("ἕ", "Ἕ"); ("ἠ", "Ἠ"); ("ἡ", "Ἡ");
  ("ἢ", "Ἢ"); ("ἣ", "Ἣ"); ("ἤ", "Ἤ"); ("ἥ", "Ἥ"); ("ἦ", "Ἦ"); ("ἧ", "Ἧ");
  ("ἰ", "Ἰ"); ("ἱ", "Ἱ"); ("ἲ", "Ἲ"); ("ἳ", "Ἳ"); ("ἴ", "Ἴ"); ("ἵ", "Ἵ");
  ("ἶ", "Ἶ"); ("ἷ", "Ἷ"); ("ὀ", "Ὀ"); ("ὁ", "Ὁ"); ("ὂ", "Ὂ"); ("ὃ", "Ὃ");
  ("ὄ", "Ὄ"); ("ὅ", "Ὅ"); ("ὐ", "Υ̓"); ("ὑ", "Ὑ"); ("ὒ", "Υ̓̀"); ("ὓ", "Ὓ");
  ("ὔ", "Υ̓́"); ("ὕ", "Ὕ"); ("ὖ", "Υ̓͂"); ("ὗ", "Ὗ"); ("ὠ", "Ὠ"); ("ὡ", "Ὡ");
  ("ὢ", "Ὢ"); ("ὣ", "Ὣ"); ("ὤ", "Ὤ"); ("ὥ", "Ὥ"); ("ὦ", "Ὦ"); ("ὧ", "Ὧ");
  ("ὰ", "Ὰ"); ("ά", "Ά"); ("ὲ", "Ὲ"); ("έ", "Έ"); ("ὴ", "Ὴ"); ("ή", "Ή");
  ("ὶ", "Ὶ"); ("ί", "Ί"); ("ὸ", "Ὸ"); ("ό", "Ό"); ("ὺ", "Ὺ"); ("ύ", "Ύ");
  ("ὼ", "Ὼ"); ("ώ", "Ώ"); ("ᾀ", "ἈΙ"); ("ᾁ", "ἉΙ"); ("ᾂ", "ἊΙ"); ("ᾃ", "ἋΙ");
  ("ᾄ", "ἌΙ"); ("ᾅ", "ἍΙ"); ("ᾆ", "ἎΙ"); ("ᾇ", "ἏΙ"); ("ᾈ", "ἈΙ"); ("ᾉ", "ἉΙ");
  ("ᾊ", "ἊΙ"); ("ᾋ", "ἋΙ"); ("ᾌ", "ἌΙ"); ("ᾍ", "ἍΙ"); ("ᾎ", "ἎΙ"); ("ᾏ", "ἏΙ");
  ("ᾐ", "ἨΙ"); ("ᾑ", "ἩΙ"); ("ᾒ", "ἪΙ"); ("ᾓ", "ἫΙ"); ("ᾔ", "ἬΙ"); ("ᾕ", "ἭΙ");
  ("ᾖ", "ἮΙ"); ("ᾗ", "ἯΙ"); ("ᾘ", "ἨΙ"); ("ᾙ", "ἩΙ"); ("ᾚ", "ἪΙ"); ("ᾛ", "ἫΙ");
  ("ᾜ", "ἬΙ"); ("ᾝ", "ἭΙ"); ("ᾞ", "ἮΙ"); ("ᾟ", "ἯΙ"); ("ᾠ", "ὨΙ"); ("ᾡ", "ὩΙ");
  ("ᾢ", "ὪΙ"); ("ᾣ", "ὫΙ"); ("ᾤ", "ὬΙ"); ("ᾥ", "ὭΙ"); ("ᾦ", "ὮΙ"); ("ᾧ", "ὯΙ");
  ("ᾨ", "ὨΙ"); ("ᾩ", "ὩΙ"); ("ᾪ", "ὪΙ"); ("ᾫ", "ὫΙ"); ("ᾬ", "ὬΙ"); ("ᾭ", "ὭΙ");
  ("ᾮ", "ὮΙ"); ("ᾯ", "ὯΙ"); ("ᾰ", "Ᾰ"); ("ᾱ", "Ᾱ"); ("ᾲ", "ᾺΙ"); ("ᾳ", "ΑΙ");
  ("ᾴ", "ΆΙ"); ("ᾶ", "Α͂"); ("ᾷ", "Α͂Ι"); ("ᾼ", "ΑΙ"); ("ι", "Ι"); ("ῂ", "ῊΙ");
  ("ῃ", "ΗΙ"); ("ῄ", "ΉΙ"); ("ῆ", "Η͂"); ("ῇ", "Η͂Ι"); ("ῌ", "ΗΙ"); ("ῐ", "Ῐ");
  ("ῑ", "Ῑ"); ("ῒ", "Ϊ̀"); ("ΐ", "Ϊ́"); ("ῖ", "Ι͂"); ("ῗ", "Ϊ͂"); ("ῠ", "Ῠ");
  ("ῡ", "Ῡ"); ("ῢ", "Ϋ̀"); ("ΰ", "Ϋ́"); ("ῤ", "Ρ̓"); ("ῥ", "Ῥ"); ("ῦ", "Υ͂");
  ("ῧ", "Ϋ͂"); ("ῲ", "ῺΙ"); ("ῳ", "ΩΙ"); ("ῴ", "ΏΙ"); ("ῶ", "Ω͂"); ("ῷ", "Ω͂Ι");
  ("ῼ", "ΩΙ"); ("ⅎ", "Ⅎ"); ("ⅰ", "Ⅰ"); ("ⅱ", "Ⅱ"); ("ⅲ", "Ⅲ"); ("ⅳ", "Ⅳ");
  ("ⅴ", "Ⅴ"); ("ⅵ", "Ⅵ"); ("ⅶ", "Ⅶ"); ("ⅷ", "Ⅷ"); ("ⅸ", "Ⅸ"); ("ⅹ", "Ⅹ");
  ("ⅺ", "Ⅺ"); ("ⅻ", "Ⅻ"); ("ⅼ", "Ⅼ"); ("ⅽ", "Ⅽ"); ("ⅾ", "Ⅾ"); ("ⅿ", "Ⅿ");
  ("ↄ", "Ↄ"); ("ⓐ", "Ⓐ"); ("ⓑ", "Ⓑ"); ("ⓒ", "Ⓒ"); ("ⓓ", "Ⓓ"); ("ⓔ", "Ⓔ");
  ("ⓕ", "Ⓕ"); ("ⓖ", "Ⓖ"); ("ⓗ", "Ⓗ"); ("ⓘ", "Ⓘ"); ("ⓙ", "Ⓙ"); ("ⓚ", "Ⓚ");
  ("ⓛ", "Ⓛ"); ("ⓜ", "Ⓜ"); ("ⓝ", "Ⓝ"); ("ⓞ", "Ⓞ"); ("ⓟ", "Ⓟ"); ("ⓠ", "Ⓠ");
  ("ⓡ", "Ⓡ"); ("ⓢ", "Ⓢ"); ("ⓣ", "Ⓣ"); ("ⓤ", "Ⓤ"); ("ⓥ", "Ⓥ"); ("ⓦ", "Ⓦ");
  ("ⓧ", "Ⓧ"); ("ⓨ", "Ⓨ"); ("ⓩ", "Ⓩ"); ("ⰰ", "Ⰰ"); ("ⰱ", "Ⰱ"); ("ⰲ", "Ⰲ");
  ("ⰳ", "Ⰳ"); ("ⰴ", "Ⰴ"); ("ⰵ", "Ⰵ"); ("ⰶ", "Ⰶ"); ("ⰷ", "Ⰷ"); ("ⰸ", "Ⰸ");
  ("ⰹ", "Ⰹ"); ("ⰺ", "Ⰺ"); ("ⰻ", "Ⰻ"); ("ⰼ", "Ⰼ"); ("ⰽ", "Ⰽ"); ("ⰾ", "Ⰾ");
  ("ⰿ", "Ⰿ"); ("ⱀ", "Ⱀ"); ("ⱁ", "Ⱁ"); ("ⱂ", "Ⱂ"); ("ⱃ", "Ⱃ"); ("ⱄ", "Ⱄ");
  ("ⱅ", "Ⱅ"); ("ⱆ", "Ⱆ"); ("ⱇ", "Ⱇ"); ("ⱈ", "Ⱈ"); ("ⱉ", "Ⱉ"); ("ⱊ", "Ⱊ");
  ("ⱋ", "Ⱋ"); ("ⱌ", "Ⱌ"); ("ⱍ", "Ⱍ"); ("ⱎ", "Ⱎ"); ("ⱏ", "Ⱏ"); ("ⱐ", "Ⱐ");
  ("ⱑ", "Ⱑ"); ("ⱒ", "Ⱒ"); ("ⱓ", "Ⱓ"); ("ⱔ", "Ⱔ"); ("ⱕ", "Ⱕ"); ("ⱖ", "Ⱖ");
  ("ⱗ", "Ⱗ"); ("ⱘ", "Ⱘ"); ("ⱙ", "Ⱙ"); ("ⱚ", "Ⱚ"); ("ⱛ", "Ⱛ"); ("ⱜ", "Ⱜ");
  ("ⱝ", "Ⱝ"); ("ⱞ", "Ⱞ"); ("ⱟ", "Ⱟ"); ("ⱡ", "Ⱡ"); ("ⱥ", "Ⱥ"); ("ⱦ", "Ⱦ");
  ("ⱨ", "Ⱨ"); ("ⱪ", "Ⱪ"); ("ⱬ", "Ⱬ"); ("ⱳ", "Ⱳ"); ("ⱶ", "Ⱶ"); ("ⲁ", "Ⲁ");
  ("ⲃ", "Ⲃ"); ("ⲅ", "Ⲅ"); ("ⲇ", "Ⲇ"); ("ⲉ", "Ⲉ"); ("ⲋ", "Ⲋ"); ("ⲍ", "Ⲍ");
  ("ⲏ", "Ⲏ"); ("ⲑ", "Ⲑ"); ("ⲓ", "Ⲓ"); ("ⲕ", "Ⲕ"); ("ⲗ", "Ⲗ"); ("ⲙ", "Ⲙ");
  ("ⲛ", "Ⲛ"); ("ⲝ", "Ⲝ"); ("ⲟ", "Ⲟ"); ("ⲡ", "Ⲡ"); ("ⲣ", "Ⲣ"); ("ⲥ", "Ⲥ");
  ("ⲧ", "Ⲧ"); ("ⲩ", "Ⲩ"); ("ⲫ", "Ⲫ"); ("ⲭ", "Ⲭ"); ("ⲯ", "Ⲯ"); ("ⲱ", "Ⲱ");
  ("ⲳ", "Ⲳ"); ("ⲵ", "Ⲵ"); ("ⲷ", "Ⲷ"); ("ⲹ", "Ⲹ"); ("ⲻ", "Ⲻ"); ("ⲽ", "Ⲽ");
  ("ⲿ", "Ⲿ"); ("ⳁ", "Ⳁ"); ("ⳃ", "Ⳃ"); ("ⳅ", "Ⳅ"); ("ⳇ", "Ⳇ"); ("ⳉ", "Ⳉ");
  ("ⳋ", "Ⳋ"); ("ⳍ", "Ⳍ"); ("ⳏ", "Ⳏ"); ("ⳑ", "Ⳑ"); ("ⳓ", "Ⳓ"); ("ⳕ", "Ⳕ");
  ("ⳗ", "Ⳗ"); ("ⳙ", "Ⳙ"); ("ⳛ", "Ⳛ"); ("ⳝ", "Ⳝ"); ("ⳟ", "Ⳟ"); ("ⳡ", "Ⳡ");
  ("ⳣ", "Ⳣ"); ("ⳬ", "Ⳬ"); ("ⳮ", "Ⳮ"); ("ⳳ", "Ⳳ"); ("ⴀ", "Ⴀ"); ("ⴁ", "Ⴁ");
  ("ⴂ", "Ⴂ"); ("ⴃ", "Ⴃ"); ("ⴄ", "Ⴄ"); ("ⴅ", "Ⴅ"); ("ⴆ", "Ⴆ"); ("ⴇ", "Ⴇ");
  ("ⴈ", "Ⴈ"); ("ⴉ", "Ⴉ"); ("ⴊ", "Ⴊ"); ("ⴋ", "Ⴋ"); ("ⴌ", "Ⴌ"); ("ⴍ", "Ⴍ");
  ("ⴎ", "Ⴎ"); ("ⴏ", "Ⴏ"); ("ⴐ", "Ⴐ"); ("ⴑ", "Ⴑ"); ("ⴒ", "Ⴒ"); ("ⴓ", "Ⴓ");
  ("ⴔ", "Ⴔ"); ("ⴕ", "Ⴕ"); ("ⴖ", "Ⴖ"); ("ⴗ", "Ⴗ"); ("ⴘ", "Ⴘ"); ("ⴙ", "Ⴙ");
  ("ⴚ", "Ⴚ"); ("ⴛ", "Ⴛ"); ("ⴜ", "Ⴜ"); ("ⴝ", "Ⴝ"); ("ⴞ", "Ⴞ"); ("ⴟ", "Ⴟ");
  ("ⴠ", "Ⴠ"); ("ⴡ", "Ⴡ"); ("ⴢ", "Ⴢ"); ("ⴣ", "Ⴣ"); ("ⴤ", "Ⴤ"); ("ⴥ", "Ⴥ");
  ("ⴧ", "Ⴧ"); ("ⴭ", "Ⴭ"); ("ꙁ", "Ꙁ"); ("ꙃ", "Ꙃ"); ("ꙅ", "Ꙅ"); ("ꙇ", "Ꙇ");
  ("ꙉ", "Ꙉ"); ("ꙋ", "Ꙋ"); ("ꙍ", "Ꙍ"); ("ꙏ", "Ꙏ"); ("ꙑ", "Ꙑ"); ("ꙓ", "Ꙓ");
  ("ꙕ", "Ꙕ"); ("ꙗ", "Ꙗ"); ("ꙙ", "Ꙙ"); ("ꙛ", "Ꙛ"); ("ꙝ", "Ꙝ"); ("ꙟ", "Ꙟ");
  ("ꙡ", "Ꙡ"); ("ꙣ", "Ꙣ"); ("ꙥ", "Ꙥ"); ("ꙧ", "Ꙧ"); ("ꙩ", "Ꙩ"); ("ꙫ", "Ꙫ");
  ("ꙭ", "Ꙭ"); ("ꚁ", "Ꚁ"); ("ꚃ", "Ꚃ"); ("ꚅ", "Ꚅ"); ("ꚇ", "Ꚇ"); ("ꚉ", "Ꚉ");
  ("ꚋ", "Ꚋ"); ("ꚍ", "Ꚍ"); ("ꚏ", "Ꚏ"); ("ꚑ", "Ꚑ"); ("ꚓ", "Ꚓ"); ("ꚕ", "Ꚕ");
  ("ꚗ", "Ꚗ"); ("ꚙ", "Ꚙ"); ("ꚛ", "Ꚛ"); ("ꜣ", "Ꜣ"); ("ꜥ", "Ꜥ"); ("ꜧ", "Ꜧ");
  ("ꜩ", "Ꜩ"); ("ꜫ", "Ꜫ"); ("ꜭ", "Ꜭ"); ("ꜯ", "Ꜯ"); ("ꜳ", "Ꜳ"); ("ꜵ", "Ꜵ");
  ("ꜷ", "Ꜷ"); ("ꜹ", "Ꜹ"); ("ꜻ", "Ꜻ"); ("ꜽ", "Ꜽ"); ("ꜿ", "Ꜿ"); ("ꝁ", "Ꝁ");
  ("ꝃ", "Ꝃ"); ("ꝅ", "Ꝅ"); ("ꝇ", "Ꝇ"); ("ꝉ", "Ꝉ"); ("ꝋ", "Ꝋ"); ("ꝍ", "Ꝍ");
  ("ꝏ", "Ꝏ"); ("ꝑ", "Ꝑ"); ("ꝓ", "Ꝓ"); ("ꝕ", "Ꝕ"); ("ꝗ", "Ꝗ"); ("ꝙ", "Ꝙ");
  ("ꝛ", "Ꝛ"); ("ꝝ", "Ꝝ"); ("ꝟ", "Ꝟ"); ("ꝡ", "Ꝡ"); ("ꝣ", "Ꝣ"); ("ꝥ", "Ꝥ");
  ("ꝧ", "Ꝧ"); ("ꝩ", "Ꝩ"); ("ꝫ", "Ꝫ"); ("ꝭ", "Ꝭ"); ("ꝯ", "Ꝯ"); ("ꝺ", "Ꝺ");
  ("ꝼ", "Ꝼ"); ("ꝿ", "Ꝿ"); ("ꞁ", "Ꞁ"); ("ꞃ", "Ꞃ"); ("ꞅ", "Ꞅ"); ("ꞇ", "Ꞇ");
  ("ꞌ", "Ꞌ"); ("ꞑ", "Ꞑ"); ("ꞓ", "Ꞓ"); ("ꞔ", "Ꞔ"); ("ꞗ", "Ꞗ"); ("ꞙ", "Ꞙ");
  ("ꞛ", "Ꞛ"); ("ꞝ", "Ꞝ"); ("ꞟ", "Ꞟ"); ("ꞡ", "Ꞡ"); ("ꞣ", "Ꞣ"); ("ꞥ", "Ꞥ");
  ("ꞧ", "Ꞧ"); ("ꞩ", "Ꞩ"); ("ꞵ", "Ꞵ"); ("ꞷ", "Ꞷ"); ("ꞹ", "Ꞹ"); ("ꞻ", "Ꞻ");
  ("ꞽ", "Ꞽ"); ("ꞿ", "Ꞿ"); ("ꟁ", "Ꟁ"); ("ꟃ", "Ꟃ"); ("ꟈ", "Ꟈ"); ("ꟊ", "Ꟊ");
  ("ꟑ", "Ꟑ"); ("ꟗ", "Ꟗ"); ("ꟙ", "Ꟙ"); ("ꟶ", "Ꟶ"); ("ꭓ", "Ꭓ"); ("ꭰ", "Ꭰ");
  ("ꭱ", "Ꭱ"); ("ꭲ", "Ꭲ"); ("ꭳ", "Ꭳ"); ("ꭴ", "Ꭴ"); ("ꭵ", "Ꭵ"); ("ꭶ", "Ꭶ");
  ("ꭷ", "Ꭷ"); ("ꭸ", "Ꭸ"); ("ꭹ", "Ꭹ"); ("ꭺ", "Ꭺ"); ("ꭻ", "Ꭻ"); ("ꭼ", "Ꭼ");
  ("ꭽ", "Ꭽ"); ("ꭾ", "Ꭾ"); ("ꭿ", "Ꭿ"); ("ꮀ", "Ꮀ"); ("ꮁ", "Ꮁ"); ("ꮂ", "Ꮂ");
  ("ꮃ", "Ꮃ"); ("ꮄ", "Ꮄ"); ("ꮅ", "Ꮅ"); ("ꮆ", "Ꮆ"); ("ꮇ", "Ꮇ"); ("ꮈ", "Ꮈ");
  ("ꮉ", "Ꮉ"); ("ꮊ", "Ꮊ"); ("ꮋ", "Ꮋ"); ("ꮌ", "Ꮌ"); ("ꮍ", "Ꮍ"); ("ꮎ", "Ꮎ");
  ("ꮏ", "Ꮏ"); ("ꮐ", "Ꮐ"); ("ꮑ", "Ꮑ"); ("ꮒ", "Ꮒ"); ("ꮓ", "Ꮓ"); ("ꮔ", "Ꮔ");
  ("ꮕ", "Ꮕ"); ("ꮖ", "Ꮖ"); ("ꮗ", "Ꮗ"); ("ꮘ", "Ꮘ"); ("ꮙ", "Ꮙ"); ("ꮚ", "Ꮚ");
  ("ꮛ", "Ꮛ"); ("ꮜ", "Ꮜ"); ("ꮝ", "Ꮝ"); ("ꮞ", "Ꮞ"); ("ꮟ", "Ꮟ"); ("ꮠ", "Ꮠ");
  ("ꮡ", "Ꮡ"); ("ꮢ", "Ꮢ"); ("ꮣ", "Ꮣ"); ("ꮤ", "Ꮤ"); ("ꮥ", "Ꮥ"); ("ꮦ", "Ꮦ");
  ("ꮧ", "Ꮧ"); ("ꮨ", "Ꮨ"); ("ꮩ", "Ꮩ"); ("ꮪ", "Ꮪ"); ("ꮫ", "Ꮫ"); ("ꮬ", "Ꮬ");
  ("ꮭ", "Ꮭ"); ("ꮮ", "Ꮮ"); ("ꮯ", "Ꮯ"); ("ꮰ", "Ꮰ"); ("ꮱ", "Ꮱ"); ("ꮲ", "Ꮲ");
  ("ꮳ", "Ꮳ"); ("ꮴ", "Ꮴ"); ("ꮵ", "Ꮵ"); ("ꮶ", "Ꮶ"); ("ꮷ", "Ꮷ"); ("ꮸ", "Ꮸ");
  ("ꮹ", "Ꮹ"); ("ꮺ", "Ꮺ"); ("ꮻ", "Ꮻ"); ("ꮼ", "Ꮼ"); ("ꮽ", "Ꮽ"); ("ꮾ", "Ꮾ");
  ("ꮿ", "Ꮿ"); ("ﬀ", "FF"); ("ﬁ", "FI"); ("ﬂ", "FL"); ("ﬃ", "FFI"); ("ﬄ", "FFL");
  ("ﬅ", "ST"); ("ﬆ", "ST"); ("ﬓ", "ՄՆ"); ("ﬔ", "ՄԵ"); ("ﬕ", "ՄԻ"); ("ﬖ", "ՎՆ");
  ("ﬗ", "ՄԽ"); ("ａ", "Ａ"); ("ｂ", "Ｂ"); ("ｃ", "Ｃ"); ("ｄ", "Ｄ"); ("ｅ", "Ｅ");
  ("ｆ", "Ｆ"); ("ｇ", "Ｇ"); ("ｈ", "Ｈ"); ("ｉ", "Ｉ"); ("ｊ", "Ｊ"); ("ｋ", "Ｋ");
  ("ｌ", "Ｌ"); ("ｍ", "Ｍ"); ("ｎ", "Ｎ"); ("ｏ", "Ｏ"); ("ｐ", "Ｐ"); ("ｑ", "Ｑ");
  ("ｒ", "Ｒ"); ("ｓ", "Ｓ"); ("ｔ", "Ｔ"); ("ｕ", "Ｕ"); ("ｖ", "Ｖ"); ("ｗ", "Ｗ");
  ("ｘ", "Ｘ"); ("ｙ", "Ｙ"); ("ｚ", "Ｚ"); ("𐐨", "𐐀"); ("𐐩", "𐐁"); ("𐐪", "𐐂");
  ("𐐫", "𐐃"); ("𐐬", "𐐄"); ("𐐭", "𐐅"); ("𐐮", "𐐆"); ("𐐯", "𐐇"); ("𐐰", "𐐈");
  ("𐐱", "𐐉"); ("𐐲", "𐐊"); ("𐐳", "𐐋"); ("𐐴", "𐐌"); ("𐐵", "𐐍"); ("𐐶", "𐐎");
  ("𐐷", "𐐏"); ("𐐸", "𐐐"); ("𐐹", "𐐑"); ("𐐺", "𐐒"); ("𐐻", "𐐓"); ("𐐼", "𐐔");
  ("𐐽", "𐐕"); ("𐐾", "𐐖"); ("𐐿", "𐐗"); ("𐑀", "𐐘"); ("𐑁", "𐐙"); ("𐑂", "𐐚");
  ("𐑃", "𐐛"); ("𐑄", "𐐜"); ("𐑅", "𐐝"); ("𐑆", "𐐞"); ("𐑇", "𐐟"); ("𐑈", "𐐠");
  ("𐑉", "𐐡"); ("𐑊", "𐐢"); ("𐑋", "𐐣"); ("𐑌", "𐐤"); ("𐑍", "𐐥"); ("𐑎", "𐐦");
  ("𐑏", "𐐧"); ("𐓘", "𐒰"); ("𐓙", "𐒱"); ("𐓚", "𐒲"); ("𐓛", "𐒳"); ("𐓜", "𐒴");
  ("𐓝", "𐒵"); ("𐓞", "𐒶"); ("𐓟", "𐒷"); ("𐓠", "𐒸"); ("𐓡", "𐒹"); ("𐓢", "𐒺");
  ("𐓣", "𐒻"); ("𐓤", "𐒼"); ("𐓥", "𐒽"); ("𐓦", "𐒾"); ("𐓧", "𐒿"); ("𐓨", "𐓀");
  ("𐓩", "𐓁"); ("𐓪", "𐓂"); ("𐓫", "𐓃"); ("𐓬", "𐓄"); ("𐓭", "𐓅"); ("𐓮", "𐓆");
  ("𐓯", "𐓇"); ("𐓰", "𐓈"); ("𐓱", "𐓉"); ("𐓲", "𐓊"); ("𐓳", "𐓋"); ("𐓴", "𐓌");
  ("𐓵", "𐓍"); ("𐓶", "𐓎"); ("𐓷", "𐓏"); ("𐓸", "𐓐"); ("𐓹", "𐓑"); ("𐓺", "𐓒");
  ("𐓻", "𐓓"); ("𐖗", "𐕰"); ("𐖘", "𐕱"); ("𐖙", "𐕲"); ("𐖚", "𐕳"); ("𐖛", "𐕴");
  ("𐖜", "𐕵"); ("𐖝", "𐕶"); ("𐖞", "𐕷"); ("𐖟", "𐕸"); ("𐖠", "𐕹"); ("𐖡", "𐕺");
  ("𐖣", "𐕼"); ("𐖤", "𐕽"); ("𐖥", "𐕾"); ("𐖦", "𐕿"); ("𐖧", "𐖀"); ("𐖨", "𐖁");
  ("𐖩", "𐖂"); ("𐖪", "𐖃"); ("𐖫", "𐖄"); ("𐖬", "𐖅"); ("𐖭", "𐖆"); ("𐖮", "𐖇");
  ("𐖯", "𐖈"); ("𐖰", "𐖉"); ("𐖱", "𐖊"); ("𐖳", "𐖌"); ("𐖴", "𐖍"); ("𐖵", "𐖎");
  ("𐖶", "𐖏"); ("𐖷", "𐖐"); ("𐖸", "𐖑"); ("𐖹", "𐖒"); ("𐖻", "𐖔"); ("𐖼", "𐖕");
  ("𐳀", "𐲀"); ("𐳁", "𐲁"); ("𐳂", "𐲂"); ("𐳃", "𐲃"); ("𐳄", "𐲄"); ("𐳅", "𐲅");
  ("𐳆", "𐲆"); ("𐳇", "𐲇"); ("𐳈", "𐲈"); ("𐳉", "𐲉"); ("𐳊", "𐲊"); ("𐳋", "𐲋");
  ("𐳌", "𐲌"); ("𐳍", "𐲍"); ("𐳎", "𐲎"); ("𐳏", "𐲏"); ("𐳐", "𐲐"); ("𐳑", "𐲑");
  ("𐳒", "𐲒"); ("𐳓", "𐲓"); ("𐳔", "𐲔"); ("𐳕", "𐲕"); ("𐳖", "𐲖"); ("𐳗", "𐲗");
  ("𐳘", "𐲘"); ("𐳙", "𐲙"); ("𐳚", "𐲚"); ("𐳛", "𐲛"); ("𐳜", "𐲜"); ("𐳝", "𐲝");
  ("𐳞", "𐲞"); ("𐳟", "𐲟"); ("𐳠", "𐲠"); ("𐳡", "𐲡"); ("𐳢", "𐲢"); ("𐳣", "𐲣");
  ("𐳤", "𐲤"); ("𐳥", "𐲥"); ("𐳦", "𐲦"); ("𐳧", "𐲧"); ("𐳨", "𐲨"); ("𐳩", "𐲩");
  ("𐳪", "𐲪"); ("𐳫", "𐲫"); ("𐳬", "𐲬"); ("𐳭", "𐲭"); ("𐳮", "𐲮"); ("𐳯", "𐲯");
  ("𐳰", "𐲰"); ("𐳱", "𐲱"); ("𐳲", "𐲲"); ("𑣀", "𑢠"); ("𑣁", "𑢡"); ("𑣂", "𑢢");
  ("𑣃", "𑢣"); ("𑣄", "𑢤"); ("𑣅", "𑢥"); ("𑣆", "𑢦"); ("𑣇", "𑢧"); ("𑣈", "𑢨");
  ("𑣉", "𑢩"); ("𑣊", "𑢪"); ("𑣋", "𑢫"); ("𑣌", "𑢬"); ("𑣍", "𑢭"); ("𑣎", "𑢮");
  ("𑣏", "𑢯"); ("𑣐", "𑢰"); ("𑣑", "𑢱"); ("𑣒", "𑢲"); ("𑣓", "𑢳"); ("𑣔", "𑢴");
  ("𑣕", "𑢵"); ("𑣖", "𑢶"); ("𑣗", "𑢷"); ("𑣘", "𑢸"); ("𑣙", "𑢹"); ("𑣚", "𑢺");
  ("𑣛", "𑢻"); ("𑣜", "𑢼"); ("𑣝", "𑢽"); ("𑣞", "𑢾"); ("𑣟", "𑢿"); ("𖹠", "𖹀");
  ("𖹡", "𖹁"); ("𖹢", "𖹂"); ("𖹣", "𖹃"); ("𖹤", "𖹄"); ("𖹥", "𖹅"); ("𖹦", "𖹆");
  ("𖹧", "𖹇"); ("𖹨", "𖹈"); ("𖹩", "𖹉"); ("𖹪", "𖹊"); ("𖹫", "𖹋"); ("𖹬", "𖹌");
  ("𖹭", "𖹍"); ("𖹮", "𖹎"); ("𖹯", "𖹏"); ("𖹰", "𖹐"); ("𖹱", "𖹑"); ("𖹲", "𖹒");
  ("𖹳", "𖹓"); ("𖹴", "𖹔"); ("𖹵", "𖹕"); ("𖹶", "𖹖"); ("𖹷", "𖹗"); ("𖹸", "𖹘");
  ("𖹹", "𖹙"); ("𖹺", "𖹚"); ("𖹻", "𖹛"); ("𖹼", "𖹜"); ("𖹽", "𖹝"); ("𖹾", "𖹞");
  ("𖹿", "𖹟"); ("𞤢", "𞤀"); ("𞤣", "𞤁"); ("𞤤", "𞤂"); ("𞤥", "𞤃"); ("𞤦", "𞤄");
  ("𞤧", "𞤅"); ("𞤨", "𞤆"); ("𞤩", "𞤇"); ("𞤪", "𞤈"); ("𞤫", "𞤉"); ("𞤬", "𞤊");
  ("𞤭", "𞤋"); ("𞤮", "𞤌"); ("𞤯", "𞤍"); ("𞤰", "𞤎"); ("𞤱", "𞤏"); ("𞤲", "𞤐");
  ("𞤳", "𞤑"); ("𞤴", "𞤒"); ("𞤵", "𞤓"); ("𞤶", "𞤔"); ("𞤷", "𞤕"); ("𞤸", "𞤖");
  ("𞤹", "𞤗"); ("𞤺", "𞤘"); ("𞤻", "𞤙"); ("𞤼", "𞤚"); ("𞤽", "𞤛"); ("𞤾", "𞤜");
  ("𞤿", "𞤝"); ("𞥀", "𞤞"); ("𞥁", "𞤟"); ("𞥂", "𞤠"); ("𞥃", "𞤡")
].

Fixpoint assoc (w : string) (l : list (string * string)) : option string :=
  match l with
  | [] => None
  | (k, v) :: l' => if bool_decide (k = w) then Some v else assoc w l'
  end.

(** [str.upper] on one character.  In text that is not UTF-8 a letter can
    be followed by continuation bytes: it is put in upper case all the
    same. *)
Definition upper_chunk (w : string) : string :=
  default (upper_bytes w) (assoc w UPPER).

Fixpoint glue (l : list string) : string :=
  match l with
  | [] => EmptyString
  | x :: l' => x +:+ glue l'
  end.

(** [s.upper()]: character by character, with no regard to context. *)
Definition upper (s : string) : string := glue (upper_chunk <$> chars s).

(** Occurrence of a character, used to state what a path segment is. *)
Fixpoint contains (c : ascii) (s : string) : bool :=
  match s with
  | EmptyString => false
  | String a s' => bool_decide (a = c) || contains c s'
  end.

(** Occurrence of a lower-case ASCII letter. *)
Fixpoint has_lower (s : string) : bool :=
  match s with
  | EmptyString => false
  | String a s' =>
      bool_decide (97 ≤ Ascii.nat_of_ascii a ≤ 122) || has_lower s'
  end.

(** The characters [quote] and newline, which a string literal cannot hold. *)
Definition dquote : string := String (Ascii.ascii_of_nat 34) EmptyString.
Definition nl : string := String (Ascii.ascii_of_nat 10) EmptyString.

Definition lower_char (c : ascii) : ascii :=
  let n := Ascii.nat_of_ascii c in
  if bool_decide (65 ≤ n ≤ 90) then Ascii.ascii_of_nat (n + 32) else c.

(** [s.lower()] on the ASCII letters; other characters are kept. *)
Fixpoint lower (s : string) : string :=
  match s with
  | EmptyString => EmptyString
  | String c s' => String (lower_char c) (lower s')
  end.

(** [sub in s] *)
Fixpoint is_in (sub s : string) : bool :=
  String.prefix sub s ||
  match s with
  | EmptyString => false
  | String _ s' => is_in sub s'
  end.

(** The white space of [str.strip()]: the characters [c] with
    [c.isspace()], in UTF-8.  The ten of ASCII (tab to carriage return, the
    four separators 28 to 31, the space), then U+0085, U+00A0, U+1680,
    U+2000 to U+200A, U+2028, U+2029, U+202F, U+205F and U+3000
    (CPython 3.11, Unicode 14.0). *)
Definition of_bytes (l : list nat) : string :=
  foldr (λ n s, String (Ascii.ascii_of_nat n) s) EmptyString l.

Definition SPACES : list string :=
  of_bytes <$>
    [ [9]; [10]; [11]; [12]; [13]; [28]; [29]; [30]; [31]; [32];
      [194; 133]; [194; 160]; [225; 154; 128];
      [226; 128; 128]; [226; 128; 129]; [226; 128; 130]; [226; 128; 131];
      [226; 128; 132]; [226; 128; 133]; [226; 128; 134]; [226; 128; 135];
      [226; 128; 136]; [226; 128; 137]; [226; 128; 138];
      [226; 128; 168]; [226; 128; 169]; [226; 128; 175]; [226; 129; 159];
      [227; 128; 128] ].

(** [c.isspace()] for a character [c]. *)
Definition is_space (w : string) : bool := bool_decide (w ∈ SPACES).

(** The characters left when the white space at the front is dropped, and
    when the white space at the back is. *)
Fixpoint lstrip (l : list string) : list string :=
  match l with
  | [] => []
  | w :: l' => if is_space w then lstrip l' else l
  end.

Fixpoint rstrip (l : list string) : list string :=
  match l with
  | [] => []
  | w :: l' =>
      match rstrip l' with
      | [] => if is_space w then [] else [w]
      | r => w :: r
      end
  end.

(** [s.strip()] *)
Definition strip (s : string) : string := glue (rstrip (lstrip (chars s))).

(** [s.split(sep)] for a separator of one or more characters: the pieces
    between the occurrences of [sep] found from left to right.  [skip]
    counts the characters of a found separator still to pass. *)
Fixpoint split_from (sep : string) (skip : nat) (s : string) : list string :=
  match s with
  | EmptyString => [EmptyString]
  | String c s' =>
      match skip with
      | S k => split_from sep k s'
      | O =>
          if String.prefix sep s
          then EmptyString :: split_from sep (String.length sep - 1) s'
          else match split_from sep 0 s' with
               | [] => [String c EmptyString]
               | h :: t => String c h :: t
               end
      end
  end.

Definition split_str (sep s : string) : list string := split_from sep 0 s.

(** [sep.join(l)] *)
Fixpoint join (sep : string) (l : list string) : string :=
  match l with
  | [] => EmptyString
  | x :: l' =>
      match l' with
      | [] => x
      | _ => x +:+ sep +:+ join sep l'
      end
  end.

End pystr.

(** ** The part of rdflib the sources rely on *)
Module rdflib.

(** [rdflib.term]: the three kinds of node.  [str(t)] is the identifier of
    a [URIRef] or [BNode] and the lexical form of a [Literal]. *)
Inductive term : Type :=
| URIRef (u : string)
| BNode (b : string)
| Literal (lex : string) (datatype : option string) (lang : option string).

Definition str (t : term) : string :=
  match t with
  | URIRef u => u
  | BNode b => b
  | Literal lex _ _ => lex
  end.

(** [isinstance(t, URIRef)] *)
Definition is_URIRef (t : term) : bool :=
  match t with URIRef _ => true | _ => false end.

#[global] Instance term_eq_dec : EqDecision term.
Proof. solve_decision. Defined.

Definition term_enc (t : term) : string + string + string * option string * option string :=
  match t with
  | URIRef u => inl (inl u)
  | BNode b => inl (inr b)
  | Literal l d g => inr (l, d, g)
  end.

Definition term_dec (x : string + string + string * option string * option string) : term :=
  match x with
  | inl (inl u) => URIRef u
  | inl (inr b) => BNode b
  | inr (l, d, g) => Literal l d g
  end.

#[global] Instance term_countable : Countable term.
Proof. refine (inj_countable' term_enc term_dec _). by intros []. Defined.

Definition triple : Type := term * term * term.

(** What the sources use of a graph's namespace manager and of the terms'
    own methods.  These are rdflib's, not this repository's, so they are an
    interface here:
    - [n3 t m] is [t.n3(m)]; [None] stands for a raised exception;
    - [qname m p] is [m.qname(p)]: it may raise ([None]), and it may bind a
      freshly generated prefix, hence the new manager it returns;
    - [literal_bool] is [Literal.__bool__], computed by rdflib from the
      literal's converted value. *)
Class Lib : Type := {
  NamespaceManager : Type;
  n3 : term → NamespaceManager → option string;
  qname : NamespaceManager → term → option (string * NamespaceManager);
  literal_bool : string → option string → option string → bool;
}.

(** [bool(t)], as in [if label:].  [URIRef] and [BNode] are [str]
    subclasses, true when non-empty. *)
Definition truthy `{Lib} (t : term) : bool :=
  match t with
  | URIRef u => negb (bool_decide (u = EmptyString))
  | BNode b => negb (bool_decide (b = EmptyString))
  | Literal l d g => literal_bool l d g
  end.

(** A graph: the triples in the order they were added (a triple added twice
    is enumerated once, where it was first added, see [iter]) and the
    namespace manager. *)
Record Graph `{Lib} : Type := mkGraph {
  triples : list triple;
  namespace_manager : NamespaceManager;
}.

Section graph.
Context `{Lib}.

(** [for s, p, o in g]: each triple once, first occurrences kept. *)
Definition iter (g : Graph) : list triple :=
  reverse (remove_dups (reverse (triples g))).

(** [g.objects(subject=s, predicate=p)] *)
Definition objects (g : Graph) (s p : term) : list term :=
  omap (λ t : triple,
          if bool_decide (t.1.1 = s ∧ t.1.2 = p) then Some t.2 else None)
       (iter g).

(** [g.subjects(predicate=p, object=o)] *)
Definition subjects (g : Graph) (p o : term) : list term :=
  omap (λ t : triple,
          if bool_decide (t.1.2 = p ∧ t.2 = o) then Some t.1.1 else None)
       (iter g).

(** [g.value(subject=s, predicate=p)]: the first object, or [None]. *)
Definition value (g : Graph) (s p : term) : option term :=
  head (objects g s p).

(** [(s, None, None) in g] *)
Definition has_subject (g : Graph) (s : term) : bool :=
  bool_decide (Exists (λ t : triple, t.1.1 = s) (iter g)).
End graph.

(** [rdflib.namespace.RDF], [RDFS] *)
Definition RDF_type : term :=
  URIRef "http://www.w3.org/1999/02/22-rdf-syntax-ns#type".
Definition RDFS_label : term :=
  URIRef "http://www.w3.org/2000/01/rdf-schema#label".

(** A SELECT result, [g.query(q)]: its variables ([results.vars]) and, for
    each solution, the terms bound to them; a variable that is unbound in a
    solution has no entry ([row[var]] is [None]). *)
Record Result : Type := mkResult {
  vars : list string;
  solutions : list (gmap string term);
}.

(** The query engine and the printing of Python values, rdflib's and
    Python's own:
    - [query g q] is [g.query(q)] for a SELECT query;
    - [python_str lit] is what an f-string prints for [lit.toPython()]. *)
Class Engine `{Lib} : Type := {
  query : Graph → string → Result;
  python_str : term → string;
}.

End rdflib.

(** ** The part of networkx the sources rely on: [nx.Graph] *)
Module nx.

(** Attribute values: the sources store strings and the side tag [0]/[1]. *)
Inductive attr : Type :=
| AStr (s : string)
| AInt (n : Z).

#[global] Instance attr_eq_dec : EqDecision attr.
Proof. solve_decision. Defined.

(** An undirected simple graph, as networkx keeps it: [_node] maps a node to
    its attribute dictionary, [_adj] maps a node to its neighbours and the
    attribute dictionary of each edge. *)
Record Graph : Type := mkGraph {
  _node : gmap string (gmap string attr);
  _adj : gmap string (gmap string (gmap string attr));
}.

(** [nx.Graph()] *)
Definition empty : Graph := {| _node := ∅; _adj := ∅ |}.

(** [G.add_node(n, **a)]: a new node gets [a]; an existing one has its
    attributes updated with [a]. *)
Definition add_node (n : string) (a : gmap string attr) (G : Graph) : Graph :=
  match _node G !! n with
  | None => {| _node := <[n := a]> (_node G); _adj := <[n := ∅]> (_adj G) |}
  | Some old => {| _node := <[n := a ∪ old]> (_node G); _adj := _adj G |}
  end.

(** The first half of [add_edge]: an endpoint that is not a node yet is added
    with no attributes. *)
Definition ensure_node (n : string) (G : Graph) : Graph :=
  match _node G !! n with
  | None => {| _node := <[n := ∅]> (_node G); _adj := <[n := ∅]> (_adj G) |}
  | Some _ => G
  end.

(** The neighbours of [n] ([self._adj[n]], which exists for every node). *)
Definition nbrs (G : Graph) (n : string) : gmap string (gmap string attr) :=
  default ∅ (_adj G !! n).

(** [G.add_edge(u, v, **a)]: the edge's dictionary is the existing one (or a
    new one) updated with [a], stored under both [u][v] and [v][u]. *)
Definition add_edge (u v : string) (a : gmap string attr) (G : Graph) : Graph :=
  let G' := ensure_node v (ensure_node u G) in
  let datadict := a ∪ default ∅ (nbrs G' u !! v) in
  let adj1 := <[u := <[v := datadict]> (nbrs G' u)]> (_adj G') in
  let adj2 := <[v := <[u := datadict]> (default ∅ (adj1 !! v))]> adj1 in
  {| _node := _node G'; _adj := adj2 |}.

(** [n in G] *)
Definition has_node (G : Graph) (n : string) : bool :=
  bool_decide (is_Some (_node G !! n)).

(** [G.has_edge(u, v)] *)
Definition has_edge (G : Graph) (u v : string) : bool :=
  bool_decide (is_Some (nbrs G u !! v)).

(** [G.get_edge_data(u, v)] *)
Definition get_edge_data (G : Graph) (u v : string) : option (gmap string attr) :=
  nbrs G u !! v.

(** [G.nodes[n].get(k)] *)
Definition node_attr (G : Graph) (n k : string) : option attr :=
  _node G !! n ≫= (.!! k).

(** [list(G.nodes)] *)
Definition nodes (G : Graph) : list string := (map_to_list (_node G)).*1.

(** [G.number_of_nodes()] *)
Definition number_of_nodes (G : Graph) : nat := size (_node G).

(** [G.degree(n)]: a self-loop counts twice. *)
Definition degree_of (n : string) (ns : gmap string (gmap string attr)) : nat :=
  size ns + (if bool_decide (is_Some (ns !! n)) then 1 else 0).

(** [G.number_of_edges()]: half the sum of the degrees. *)
Definition number_of_edges (G : Graph) : nat :=
  map_fold (λ n ns acc, degree_of n ns + acc) 0 (_adj G) `div` 2.

End nx.

Import rdflib.

(** ** kg_sensors/rdf_utils.py *)
Module rdf_utils.

(** [EX = Namespace("http://example.com/ontology/")]; [EX name] is the
    attribute access [EX.name]. *)
Definition EX (name : string) : term :=
  URIRef ("http://example.com/ontology/" +:+ name).

Section defs.
Context `{Lib}.

(** Steps 2 and 3 of [get_node_label]: the qualified name when [n3] gives one
    that does not start with ["<"], else the last part of the identifier.  An
    exception raised by [n3] is caught and falls through. *)
Definition qname_or_last_part (g : Graph) (node : term) : string :=
  match n3 node (namespace_manager g) with
  | Some qn =>
      if negb (pystr.startswith "<" qn) then qn
      else pystr.last_item (pystr.split "/" (str node))
  | None => pystr.last_item (pystr.split "/" (str node))
  end.

Definition get_node_label (g : Graph) (node : term) : string :=
  if negb (is_URIRef node) then str node
  else
    match value g node RDFS_label with
    | Some label => if truthy label then str label else qname_or_last_part g node
    | None => qname_or_last_part g node
    end.

Definition get_type_label (g : Graph) (node : term) : string :=
  match value g node RDF_type with
  | Some node_type =>
      if truthy node_type && is_URIRef node_type then get_node_label g node_type
      else "Resource"
  | None => "Resource"
  end.

End defs.

(** A value of a result dictionary: a string, the Python value of a literal
    ([lit.toPython()]), or [None]. *)
Inductive pyval : Type :=
| PyStr (s : string)
| PyValue (lit : term)
| PyNone.

Section query.
Context `{Engine}.

(** The [if]/[elif] chain of [run_sparql_query] on one value [row[var]]. *)
Definition convert (g : Graph) (val : option term) : pyval :=
  match val with
  | Some (URIRef u) =>
      match n3 (URIRef u) (namespace_manager g) with
      | Some qn => PyStr qn
      | None => PyStr u
      end
  | Some (Literal l d lg) => PyValue (Literal l d lg)
  | Some (BNode b) => PyStr b
  | None => PyNone
  end.

Definition run_sparql_query (g : Graph) (query_string : string)
  : list (gmap string pyval) :=
  let results := query g query_string in
  (λ row : gmap string term,
     foldl (λ row_dict var, <[var := convert g (row !! var)]> row_dict)
           ∅ (vars results))
  <$> solutions results.

End query.
End rdf_utils.

(** ** kg_sensors/nx_convert.py *)
Module nx_convert.
Import rdf_utils.

Section defs.
Context `{Lib}.

(** The body after the label test: [node.n3(...)], and [str(node)] in the
    [except] branch. *)
Definition n3_or_str (g : Graph) (node : term) : string :=
  match n3 node (namespace_manager g) with
  | Some qn => qn
  | None => str node
  end.

Definition get_label (g : Graph) (node : term) : string :=
  match value g node RDFS_label with
  | Some label => if truthy label then str label else n3_or_str g node
  | None => n3_or_str g node
  end.

Definition get_type_label (g : Graph) (node : term) : string :=
  match value g node RDF_type with
  | Some node_type =>
      if truthy node_type then get_label g node_type else "Resource"
  | None => "Resource"
  end.

(** First pass of [to_networkx_entity_graph]: the set [nodes]. *)
Definition collect_step (nodes : gset term) (t : triple) : gset term :=
  let '(s, _, o) := t in
  let nodes := if is_URIRef s then {[s]} ∪ nodes else nodes in
  if is_URIRef o then {[o]} ∪ nodes else nodes.

Definition collect_nodes (g : Graph) : gset term :=
  foldl collect_step ∅ (iter g).

(** [for node in nodes: nx_graph.add_node(...)] *)
Definition entity_attrs (g : Graph) (node : term) : gmap string nx.attr :=
  {[ "label" := nx.AStr (get_label g node);
     "type" := nx.AStr (get_type_label g node);
     "uri" := nx.AStr (str node);
     "kind" := nx.AStr "Entity" ]}.

Definition add_entity_nodes (g : Graph) (nodes : list term) (G : nx.Graph) : nx.Graph :=
  foldl (λ G node, nx.add_node (str node) (entity_attrs g node) G) G nodes.

(** Second pass: one [add_edge] per triple between two [URIRef]s.  [qname]
    is not guarded by a [try], so its exception ends the call; it also
    updates the namespace manager. *)
Fixpoint add_entity_edges (ts : list triple) (m : NamespaceManager) (G : nx.Graph)
  : option (nx.Graph * NamespaceManager) :=
  match ts with
  | [] => Some (G, m)
  | (s, p, o) :: ts' =>
      if is_URIRef s && is_URIRef o then
        match qname m p with
        | Some (lbl, m') =>
            add_entity_edges ts' m'
              (nx.add_edge (str s) (str o)
                 {[ "label" := nx.AStr lbl; "uri" := nx.AStr (str p) ]} G)
        | None => None
        end
      else add_entity_edges ts' m G
  end.

(** The returned graph, with the namespace manager of [g] after the call;
    [None] when an exception leaves the function. *)
Definition to_networkx_entity_graph (g : Graph) : option (nx.Graph * NamespaceManager) :=
  let nodes := collect_nodes g in
  let nx_graph := add_entity_nodes g (elements nodes) nx.empty in
  add_entity_edges (iter g) (namespace_manager g) nx_graph.

(** [to_networkx_bipartite_graph]: the two node loops. *)
Definition vehicle_attrs (g : Graph) (v : term) : gmap string nx.attr :=
  {[ "label" := nx.AStr (get_label g v);
     "type" := nx.AStr "VehicleModel";
     "bipartite" := nx.AInt 0 ]}.

Definition sensor_attrs (g : Graph) (s : term) : gmap string nx.attr :=
  {[ "label" := nx.AStr (get_label g s);
     "type" := nx.AStr "SensorModel";
     "bipartite" := nx.AInt 1 ]}.

Definition vehicles_of (g : Graph) : gset term :=
  list_to_set (subjects g RDF_type (EX "VehicleModel")).

Definition sensors_of (g : Graph) : gset term :=
  list_to_set (subjects g RDF_type (EX "SensorModel")).

(** The inner loop: [for s in compatible_sensors: if str(s) in nx_graph: ...] *)
Definition add_compatible (v : term) (G : nx.Graph) (s : term) : nx.Graph :=
  if nx.has_node G (str s)
  then nx.add_edge (str v) (str s) {[ "label" := nx.AStr "compatibleWith" ]} G
  else G.

Definition add_vehicle_edges (g : Graph) (G : nx.Graph) (v : term) : nx.Graph :=
  foldl (add_compatible v) G (objects g v (EX "compatibleWithModel")).

Definition to_networkx_bipartite_graph (g : Graph) : nx.Graph :=
  let vehicles := vehicles_of g in
  let G1 := foldl (λ G v, nx.add_node (str v) (vehicle_attrs g v) G)
                  nx.empty (elements vehicles) in
  let sensors := sensors_of g in
  let G2 := foldl (λ G s, nx.add_node (str s) (sensor_attrs g s) G)
                  G1 (elements sensors) in
  foldl (add_vehicle_edges g) G2 (elements vehicles).

End defs.
End nx_convert.

(** ** kg_sensors/exporters.py *)
Module exporters.
Import rdf_utils.

Section defs.
Context `{Lib}.

(** [all_uris]: the same loop as the projector's first pass. *)
Definition all_uris (g : Graph) : gset term :=
  foldl (λ all_uris '(s, _, o),
           let all_uris := if is_URIRef s then {[s]} ∪ all_uris else all_uris in
           if is_URIRef o then {[o]} ∪ all_uris else all_uris)
        ∅ (iter g).

(** The type of a node row, with the override for resources that are never
    a subject. *)
Definition node_type_of (g : Graph) (uri : term) : string :=
  let node_type := get_type_label g uri in
  if bool_decide (node_type = "Resource") && negb (has_subject g uri)
  then "Concept" else node_type.

Definition node_record (g : Graph) (uri : term) : gmap string string :=
  {[ "uri" := str uri;
     "label" := get_node_label g uri;
     "type" := node_type_of g uri ]}.

(** [for uri in all_uris: if uri not in processed_nodes: ...], on the pair
    [(nodes_data, processed_nodes)]. *)
Definition node_step (g : Graph) (st : list (gmap string string) * gset term)
    (uri : term) : list (gmap string string) * gset term :=
  let '(nodes_data, processed_nodes) := st in
  if bool_decide (uri ∉ processed_nodes)
  then (nodes_data ++ [node_record g uri], {[uri]} ∪ processed_nodes)
  else (nodes_data, processed_nodes).

Definition edge_record (lbl : string) (s p o : term) : gmap string string :=
  {[ "start_uri" := str s;
     "end_uri" := str o;
     "type" := pystr.upper (pystr.replace ":" "_" lbl);
     "uri" := str p ]}.

(** [for s, p, o in g: if isinstance(s, URIRef) and isinstance(o, URIRef): ...] *)
Fixpoint edge_rows (ts : list triple) (m : NamespaceManager)
    (edges_data : list (gmap string string))
  : option (list (gmap string string) * NamespaceManager) :=
  match ts with
  | [] => Some (edges_data, m)
  | (s, p, o) :: ts' =>
      if is_URIRef s && is_URIRef o then
        match qname m p with
        | Some (lbl, m') => edge_rows ts' m' (edges_data ++ [edge_record lbl s p o])
        | None => None
        end
      else edge_rows ts' m edges_data
  end.

(** The rows of [nodes.csv] and [edges.csv] (writing the two files is left
    out), with the namespace manager of [g] after the call; [None] when an
    exception leaves the function. *)
Definition export_to_csv (g : Graph)
  : option (list (gmap string string) * list (gmap string string) * NamespaceManager) :=
  let nodes_data := (foldl (node_step g) ([], ∅) (elements (all_uris g))).1 in
  match edge_rows (iter g) (namespace_manager g) [] with
  | Some (edges_data, m) => Some (nodes_data, edges_data, m)
  | None => None
  end.

End defs.
End exporters.

(** ** kg_sensors/rag_demo.py *)
Module rag_demo.
Import rdf_utils.

(** The keys of [INTENT_TO_SPARQL]. *)
Inductive intent : Type :=
| find_temp_sensors
| what_is_can_bus
| sensors_on_wheels.

Definition INTENT_TO_SPARQL (i : intent) : string :=
  match i with
  | find_temp_sensors => "
        PREFIX ex: <http://example.com/ontology/>
        PREFIX rdfs: <http://www.w3.org/2000/01/rdf-schema#>
        SELECT ?sensor_model ?label WHERE {
          ?temp_type ex:measures ex:Temperature .
          ?sensor_model ex:hasSensorType ?temp_type ;
                        rdfs:label ?label .
        }
    "
  | what_is_can_bus => "
        PREFIX prot: <http://example.com/protocol/>
        PREFIX rdfs: <http://www.w3.org/2000/01/rdf-schema#>
        SELECT ?label ?comment WHERE {
          prot:CAN rdfs:label ?label ;
                   rdfs:comment ?comment .
        }
    "
  | sensors_on_wheels => "
        PREFIX ex: <http://example.com/ontology/>
        PREFIX rdfs: <http://www.w3.org/2000/01/rdf-schema#>
        SELECT ?instance_label ?model_label ?vehicle_label WHERE {
          ?location rdfs:label " +:+ pystr.dquote +:+ "Wheel" +:+ pystr.dquote +:+ " .
          ?instance ex:locatedAt ?location ;
                    rdfs:label ?instance_label ;
                    ex:installedInModel ?vehicle ;
                    ex:isInstanceOf ?model .
          ?vehicle rdfs:label ?vehicle_label .
          ?model rdfs:label ?model_label .
        }
    "
  end.

(** The intent detection at the head of [answer_question_with_kg]. *)
Definition detect (question : string) : option intent :=
  let q := pystr.lower question in
  if pystr.is_in "temperature" q || pystr.is_in "temp" q then Some find_temp_sensors
  else if pystr.is_in "can bus" q then Some what_is_can_bus
  else if pystr.is_in "wheel" q || pystr.is_in "wheels" q then Some sensors_on_wheels
  else None.

Definition sorry : string :=
  "I'm sorry, I can only answer questions about temperature sensors, CAN bus, or sensors on wheels.".

Definition nothing_found : string :=
  "I found no information related to your question in the knowledge graph.".

Section answer.
Context `{Engine}.

(** What an f-string prints for a value. *)
Definition fmt (v : pyval) : string :=
  match v with
  | PyStr s => s
  | PyValue lit => python_str lit
  | PyNone => "None"
  end.

(** [res.get(key, dflt)] *)
Definition get (res : gmap string pyval) (key : string) (dflt : pyval) : pyval :=
  default dflt (res !! key).

(** The text added for the results, per intent. *)
Definition body (i : intent) (results : list (gmap string pyval)) (answer : string)
  : string :=
  match i with
  | find_temp_sensors =>
      foldl (λ answer res,
               answer +:+ "- " +:+ fmt (get res "label" (PyStr "N/A"))
                      +:+ " (" +:+ fmt (get res "sensor_model" (PyStr EmptyString)) +:+ ")"
                      +:+ pystr.nl)
            (answer +:+ "The following sensor models measure temperature:" +:+ pystr.nl)
            results
  | what_is_can_bus =>
      match results with
      | res :: _ =>
          answer +:+ "**" +:+ fmt (get res "label" (PyStr "CAN Bus")) +:+ "**: "
                 +:+ fmt (get res "comment" (PyStr "No description available."))
      | [] => answer
      end
  | sensors_on_wheels =>
      foldl (λ answer res,
               answer +:+ "- The '" +:+ fmt (get res "instance_label" PyNone)
                      +:+ "' (model: " +:+ fmt (get res "model_label" PyNone)
                      +:+ ") is installed on the "
                      +:+ fmt (get res "vehicle_label" PyNone) +:+ "." +:+ pystr.nl)
            (answer +:+ "I found these sensors located at the wheels:" +:+ pystr.nl)
            results
  end.

(** The function from [query = INTENT_TO_SPARQL[intent]] on, for a detected
    intent. *)
Definition respond (i : intent) (question : string) (g : Graph) : string :=
  let results := run_sparql_query g (INTENT_TO_SPARQL i) in
  match results with
  | [] => nothing_found
  | _ =>
      let answer :=
        "Based on the knowledge graph, here's what I found about '"
          +:+ question +:+ "':" +:+ pystr.nl +:+ pystr.nl in
      body i results answer +:+ pystr.nl +:+ pystr.nl
        +:+ "Source: KG query results."
  end.

Definition answer_question_with_kg (question : string) (g : Graph) : string :=
  match detect question with
  | None => sorry
  | Some i => respond i question g
  end.

End answer.
End rag_demo.

(** ** kg_sensors/viz_plotly.py: the node markers of [plot_networkx_graph] *)
Module viz_plotly.

Definition COLOR_PALETTE : gmap string string :=
  list_to_map
    [ ("SensorModel", "#1f77b4");
      ("SensorInstance", "#aec7e8");
      ("VehicleModel", "#ff7f0e");
      ("ECU", "#ffbb78");
      ("SensorType", "#2ca02c");
      ("Subsystem", "#98df8a");
      ("Protocol", "#d62728");
      ("Location", "#ff9896");
      ("DTC", "#9467bd");
      ("Manufacturer", "#8c564b");
      ("Default", "#7f7f7f") ].

(** [nx_graph.nodes[node].get('type', 'Default')] *)
Definition node_type (G : nx.Graph) (node : string) : nx.attr :=
  default (nx.AStr "Default") (nx.node_attr G node "type").

(** [COLOR_PALETTE.get(node_type, COLOR_PALETTE["Default"])] *)
Definition node_color (G : nx.Graph) (node : string) : string :=
  match node_type G node with
  | nx.AStr ty => default (COLOR_PALETTE !!! "Default") (COLOR_PALETTE !! ty)
  | nx.AInt _ => COLOR_PALETTE !!! "Default"
  end.

End viz_plotly.

(** ** kg_sensors/neo4j_loader.py: the statements of [import_with_csv] *)
Module neo4j_loader.

(** [[q.strip() for q in cypher_query.split(';') if q.strip()]] *)
Definition queries (cypher_query : string) : list string :=
  omap (λ q, if bool_decide (pystr.strip q = EmptyString) then None
             else Some (pystr.strip q))
       (pystr.split ";" cypher_query).

End neo4j_loader.

(** ** kg_sensors/cli.py: the queries that [sparql] runs *)
Module cli.

(** The loop over [f.read().split("---")]: the panel number and the query
    of each call of [run_sparql_query]. *)
Definition sparql_runs (content : string) : list (nat * string) :=
  omap (λ '(i, query_string),
          let query_string := pystr.strip query_string in
          if bool_decide (query_string = EmptyString)
             || pystr.startswith "#" query_string
          then None
          else Some (i + 1, query_string))
       (imap pair (pystr.split_str "---" content)).

End cli.

(** ** tests/test_queries.py *)
Module test_queries.

Definition queries (content : string) : list string :=
  omap (λ q, if negb (bool_decide (pystr.strip q = EmptyString))
                && negb (pystr.startswith "#" (pystr.strip q))
             then Some (pystr.strip q) else None)
       (pystr.split_str "---" content).

(** [get_query_from_file] on the content of the file; [None] stands for
    [pytest.fail]. *)
Definition get_query_from_file (content : string) (query_index : nat)
  : option string :=
  if bool_decide (length (queries content) ≤ query_index) then None
  else queries content !! query_index.

End test_queries.

(** ** kg_sensors/data_generator.py: the label of a sensor type *)
Module data_generator.

(** [" ".join(name.split("(?=[A-Z])"))] *)
Definition sensor_type_label (name : string) : string :=
  pystr.join " " (pystr.split_str "(?=[A-Z])" name).

End data_generator.

(** ** A small namespace manager

    An executable instance of the rdflib interface, used to run the functions
    on concrete graphs: a list of [(prefix, namespace)] bindings.  [n3] gives
    [prefix:local] when a bound namespace is a prefix of the identifier and
    ["<identifier>"] when none is; [qname] raises when the identifier has no
    local part after its last ['/'] or ['#'], and binds a generated prefix
    when the namespace is unknown. *)
Module bindings.

Fixpoint strip (pre s : string) : option string :=
  match pre, s with
  | EmptyString, _ => Some s
  | String a pre', String b s' => if bool_decide (a = b) then strip pre' s' else None
  | String _ _, EmptyString => None
  end.

Fixpoint lookup_ns (m : list (string * string)) (u : string) : option (string * string) :=
  match m with
  | [] => None
  | (pfx, ns) :: m' =>
      match strip ns u with
      | Some (String c l) => Some (pfx, String c l)
      | _ => lookup_ns m' u
      end
  end.

Fixpoint split_uri (u : string) : option (string * string) :=
  match u with
  | EmptyString => None
  | String c u' =>
      match split_uri u' with
      | Some (ns, ln) => Some (String c ns, ln)
      | None =>
          if bool_decide (c = "/"%char ∨ c = "#"%char) then
            match u' with
            | EmptyString => None
            | _ => Some (String c EmptyString, u')
            end
          else None
      end
  end.

Definition dquote : string := String (Ascii.ascii_of_nat 34) EmptyString.

Definition n3 (t : term) (m : list (string * string)) : option string :=
  match t with
  | URIRef u =>
      match lookup_ns m u with
      | Some (pfx, ln) => Some (pfx +:+ ":" +:+ ln)
      | None => Some ("<" +:+ u +:+ ">")
      end
  | BNode b => Some ("_:" +:+ b)
  | Literal l _ _ => Some (dquote +:+ l +:+ dquote)
  end.

Definition qname (m : list (string * string)) (t : term)
  : option (string * list (string * string)) :=
  match lookup_ns m (str t) with
  | Some (pfx, ln) => Some (pfx +:+ ":" +:+ ln, m)
  | None =>
      match split_uri (str t) with
      | Some (ns, ln) =>
          let pfx := "ns" +:+ pretty (S (length m)) in
          Some (pfx +:+ ":" +:+ ln, m ++ [(pfx, ns)])
      | None => None
      end
  end.

(** Literals are true when their lexical form is non-empty. *)
Definition literal_bool (l : string) (_ _ : option string) : bool :=
  negb (bool_decide (l = EmptyString)).

#[global] Instance lib : Lib := {|
  NamespaceManager := list (string * string);
  rdflib.n3 := n3;
  rdflib.qname := qname;
  rdflib.literal_bool := literal_bool;
|}.

(** The bindings of [rdf_utils.init_graph] that the examples use. *)
Definition NS_MAP : list (string * string) :=
  [("ex", "http://example.com/ontology/");
   ("sen", "http://example.com/sensor/");
   ("veh", "http://example.com/vehicle/");
   ("rdfs", "http://www.w3.org/2000/01/rdf-schema#");
   ("rdf", "http://www.w3.org/1999/02/22-rdf-syntax-ns#")].

End bindings.

(** ** Example graphs *)
Module examples.
Import rdf_utils bindings.

Definition VEH (name : string) : term := URIRef ("http://example.com/vehicle/" +:+ name).
Definition SEN (name : string) : term := URIRef ("http://example.com/sensor/" +:+ name).

(** Scenario A of the specification. *)
Definition scenario_a : Graph :=
  {| triples :=
       [ (VEH "v1", RDF_type, EX "VehicleModel");
         (VEH "v1", RDFS_label, Literal "Car A" None None);
         (SEN "s1", RDF_type, EX "SensorModel");
         (SEN "s1", RDFS_label, Literal "Sensor A" None None);
         (VEH "v1", EX "compatibleWithModel", SEN "s1") ];
     namespace_manager := NS_MAP |}.

(** Two vehicle models, one declared compatible with the other. *)
Definition two_vehicles : Graph :=
  {| triples :=
       [ (VEH "v1", RDF_type, EX "VehicleModel");
         (VEH "v2", RDF_type, EX "VehicleModel");
         (VEH "v1", EX "compatibleWithModel", VEH "v2") ];
     namespace_manager := NS_MAP |}.

(** Scenario B: a sensor located at a place that is only ever an object. *)
Definition located : Graph :=
  {| triples := [ (SEN "i1", EX "locatedAt", EX "EngineBay") ];
     namespace_manager := NS_MAP |}.

(** A resource in a namespace that has no prefix, with no label. *)
Definition garage : string := "http://other.org/places/garage".

Definition unlabelled : Graph :=
  {| triples := [ (SEN "i1", EX "locatedAt", URIRef garage) ];
     namespace_manager := NS_MAP |}.

(** A blank node observing a sensor that is part of a vehicle. *)
Definition with_blank : Graph :=
  {| triples :=
       [ (BNode "b0", EX "observes", SEN "s1");
         (SEN "s1", EX "partOf", VEH "v1") ];
     namespace_manager := NS_MAP |}.

(** Two predicates between the same pair, the second in a namespace with
    no prefix yet. *)
Definition near : term := URIRef "http://other.org/rel#near".

Definition parallel : Graph :=
  {| triples :=
       [ (VEH "v1", EX "compatibleWithModel", SEN "s1");
         (VEH "v1", near, SEN "s1") ];
     namespace_manager := NS_MAP |}.

(** Two predicates in two namespaces that have no prefix yet; the name of
    the second is not ASCII. *)
Definition size : term := URIRef "http://third.org/props/größe".

Definition measured : Graph :=
  {| triples :=
       [ (SEN "i1", near, SEN "i2");
         (SEN "i1", size, EX "Large") ];
     namespace_manager := NS_MAP |}.

(** One vehicle model, one sensor model, declared compatible. *)
Definition one_pair : Graph :=
  {| triples :=
       [ (VEH "v1", RDF_type, EX "VehicleModel");
         (SEN "s1", RDF_type, EX "SensorModel");
         (VEH "v1", EX "compatibleWithModel", SEN "s1") ];
     namespace_manager := NS_MAP |}.

(** A vehicle model declared compatible with a sensor that is not declared. *)
Definition dangling : Graph :=
  {| triples :=
       [ (VEH "v1", RDF_type, EX "VehicleModel");
         (VEH "v1", EX "compatibleWithModel", SEN "s9") ];
     namespace_manager := NS_MAP |}.

(** A resource whose identifier ends in a slash, in a namespace with no
    prefix. *)
Definition places : string := "http://other.org/places".

Definition slashed : Graph :=
  {| triples := [ (SEN "i1", EX "locatedAt", URIRef (places +:+ "/")) ];
     namespace_manager := NS_MAP |}.

(** An engine that answers every query with one solution, in which the
    second variable is unbound; literals print as their lexical form. *)
#[global] Instance canned : Engine := {|
  query := λ _ _,
    {| vars := ["label"; "comment"];
       solutions := [ {[ "label" := Literal "CAN Bus" None None ]} ] |};
  python_str := str;
|}.

(** A script of two statements and some empty ones; the second statement
    comes after a no-break space (U+00A0). *)
Definition script : string :=
  "MATCH (n) RETURN n; ;" +:+ pystr.of_bytes [194; 160] +:+ " CREATE (a) ;".

End examples.


(** ** Notions used in the statements *)

(** Every edge of [G] joins two nodes of [G]. *)
Definition edges_closed (G : nx.Graph) : Prop :=
  ∀ u v, is_Some (nx.nbrs G u !! v) →
         is_Some (nx._node G !! u) ∧ is_Some (nx._node G !! v).

(** Every node has an adjacency entry, and it is empty: the state of a graph
    to which only [add_node] has been applied. *)
Definition edgeless (G : nx.Graph) : Prop :=
  ∀ x, nx._adj G !! x = (λ _, ∅) <$> nx._node G !! x.

(** [r] is the part of [u] after its last ['/']: all of [u] when it has
    none. *)
Definition last_part_of (u r : string) : Prop :=
  pystr.contains "/" r = false ∧
  (u = r ∨ ∃ pre, u = pre +:+ String "/" r).

(** [t] is the subject or the object of a triple of [ts]. *)
Definition occurs_in (ts : list triple) (t : term) : Prop :=
  ∃ s p o, (s, p, o) ∈ ts ∧ (t = s ∨ t = o).

(** The triples that give an edge: subject and object are both [URIRef]s. *)
Definition links (t : triple) : bool := is_URIRef t.1.1 && is_URIRef t.2.

(** The namespace manager that an edge loop has after the triples [ts],
    when it starts with [m]: both edge loops call [qname] on the predicate
    of every triple that links two [URIRef]s, in enumeration order, and each
    call hands on the manager it leaves.  [None] when a call raises. *)
Fixpoint bindings_after `{Lib} (ts : list triple) (m : NamespaceManager)
  : option NamespaceManager :=
  match ts with
  | [] => Some m
  | t :: ts' =>
      if links t then
        match qname m t.1.2 with
        | Some (_, m') => bindings_after ts' m'
        | None => None
        end
      else bindings_after ts' m
  end.

(** [r] is the edge row of the triple [tr]: its relation tag is made from a
    qualified name that [qname] gave for the predicate of [tr]. *)
Definition edge_row_of `{Lib} (tr : triple) (r : gmap string string) : Prop :=
  ∃ m lbl m', qname m tr.1.2 = Some (lbl, m') ∧
              r = exporters.edge_record lbl tr.1.1 tr.1.2 tr.2.

(** The adjacency of a graph whose only nodes are [a] and [b], joined by an
    edge with dictionary [d] when [e = Some d] and not joined when
    [e = None].  With [a = b] this is a single node, with a self-loop or
    alone. *)
Definition pair_adj (a b : string) (e : option (gmap string nx.attr))
  : gmap string (gmap string (gmap string nx.attr)) :=
  <[a := from_option (λ d, {[b := d]}) ∅ e]>
    (<[b := from_option (λ d, {[a := d]}) ∅ e]> ∅).

(** The adjacency is the same read in both directions. *)
Definition undirected (G : nx.Graph) : Prop :=
  ∀ x y, nx.nbrs G x !! y = nx.nbrs G y !! x.

(** Every edge dictionary has no key besides ["label"] and ["uri"]. *)
Definition edge_keys_ok (G : nx.Graph) : Prop :=
  ∀ x y d k, nx.nbrs G x !! y = Some d → is_Some (d !! k) → k = "label" ∨ k = "uri".

(** [t] joins the same two nodes as the pair [(x, y)], in either direction. *)
Definition joins (t : triple) (x y : string) : Prop :=
  (str t.1.1 = x ∧ str t.2 = y) ∨ (str t.1.1 = y ∧ str t.2 = x).

(** A character: a first byte and continuation bytes. *)
Fixpoint all_cont (s : string) : bool :=
  match s with
  | EmptyString => true
  | String c s' => pystr.is_cont c && all_cont s'
  end.

Definition is_char (w : string) : bool :=
  match w with
  | EmptyString => false
  | String _ t => all_cont t
  end.

(** A list of characters as [pystr.chars] gives them: none but the first
    starts with a continuation byte. *)
Definition chars_ok (l : list string) : Prop :=
  Forall (λ w, is_char w = true) l ∧
  Forall (λ w, pystr.starts_cont w = false) (tail l).

(** [G] is what one of the two projections returns for [g]. *)
Definition projected `{Lib} (g : Graph) (G : nx.Graph) : Prop :=
  (∃ m, nx_convert.to_networkx_entity_graph g = Some (G, m)) ∨
  G = nx_convert.to_networkx_bipartite_graph g.

(** ** Facts about the networkx operations *)
Section nx_facts.
Implicit Types (G : nx.Graph) (n u v x y : string) (a d : gmap string nx.attr).

Lemma has_node_true G x : nx.has_node G x = true ↔ is_Some (nx._node G !! x).
Proof. unfold nx.has_node. by rewrite bool_decide_eq_true. Qed.

Lemma has_edge_true G x y : nx.has_edge G x y = true ↔ is_Some (nx.nbrs G x !! y).
Proof. unfold nx.has_edge. by rewrite bool_decide_eq_true. Qed.

Lemma edges_closed_empty : edges_closed nx.empty.
Proof.
  intros u v [d Hd]. unfold nx.nbrs in Hd. simpl in Hd.
  rewrite lookup_empty in Hd. simpl in Hd. by rewrite lookup_empty in Hd.
Qed.

Lemma edgeless_empty : edgeless nx.empty.
Proof. intros x. simpl. by rewrite !lookup_empty. Qed.

Lemma node_add_node G n a x :
  is_Some (nx._node (nx.add_node n a G) !! x) ↔ x = n ∨ is_Some (nx._node G !! x).
Proof.
  unfold nx.add_node. destruct (nx._node G !! n) eqn:E; simpl;
    rewrite lookup_insert_is_Some; split.
  - intros [->|[? ?]]; auto.
  - intros [->|Hx]; [by left|]. destruct (decide (n = x)); auto.
  - intros [->|[? ?]]; auto.
  - intros [->|Hx]; [by left|]. destruct (decide (n = x)); auto.
Qed.

Lemma nbrs_add_node G n a u v d :
  nx.nbrs (nx.add_node n a G) u !! v = Some d → nx.nbrs G u !! v = Some d.
Proof.
  unfold nx.add_node, nx.nbrs. destruct (nx._node G !! n); simpl; [done|].
  destruct (decide (n = u)) as [->|Hne].
  - rewrite lookup_insert_eq. simpl. by rewrite lookup_empty.
  - by rewrite lookup_insert_ne.
Qed.

Lemma edges_closed_add_node G n a :
  edges_closed G → edges_closed (nx.add_node n a G).
Proof.
  intros HG u v [d Hd]. apply nbrs_add_node in Hd.
  destruct (HG u v) as [Hu Hv]; [by eexists|].
  rewrite !node_add_node. auto.
Qed.

Lemma edgeless_add_node G n a : edgeless G → edgeless (nx.add_node n a G).
Proof.
  intros HG x. unfold nx.add_node. destruct (nx._node G !! n) eqn:E; simpl.
  - destruct (decide (n = x)) as [->|Hne].
    + rewrite lookup_insert_eq, HG, E. done.
    + rewrite lookup_insert_ne by done. apply HG.
  - destruct (decide (n = x)) as [->|Hne].
    + by rewrite !lookup_insert_eq.
    + rewrite !lookup_insert_ne by done. apply HG.
Qed.

Lemma node_ensure_node G n x :
  is_Some (nx._node (nx.ensure_node n G) !! x) ↔ x = n ∨ is_Some (nx._node G !! x).
Proof.
  unfold nx.ensure_node. destruct (nx._node G !! n) eqn:E; simpl.
  - split; [auto|]. intros [->|?]; [by rewrite E|done].
  - rewrite lookup_insert_is_Some. split.
    + intros [->|[? ?]]; auto.
    + intros [->|Hx]; [by left|]. destruct (decide (n = x)); auto.
Qed.

Lemma nbrs_ensure_node G n u v :
  edges_closed G → nx.nbrs (nx.ensure_node n G) u !! v = nx.nbrs G u !! v.
Proof.
  intros HG. unfold nx.ensure_node. destruct (nx._node G !! n) eqn:E; [done|].
  unfold nx.nbrs at 1. simpl. destruct (decide (n = u)) as [->|Hne].
  - rewrite lookup_insert_eq. simpl. rewrite lookup_empty.
    destruct (nx.nbrs G u !! v) eqn:Hd; [|done].
    destruct (HG u v) as [[? Hu] _]; [by eexists|]. congruence.
  - by rewrite lookup_insert_ne.
Qed.

Lemma edges_closed_ensure_node G n :
  edges_closed G → edges_closed (nx.ensure_node n G).
Proof.
  intros HG u v. rewrite nbrs_ensure_node by done. intros Hd.
  destruct (HG u v Hd). rewrite !node_ensure_node. auto.
Qed.

Lemma node_add_edge G u v a x :
  is_Some (nx._node (nx.add_edge u v a G) !! x) ↔
  x = u ∨ x = v ∨ is_Some (nx._node G !! x).
Proof.
  unfold nx.add_edge. simpl. rewrite !node_ensure_node. tauto.
Qed.

(** The neighbours after [add_edge]: the two directions of the new edge carry
    the updated dictionary, everything else is as before. *)
Lemma nbrs_add_edge G u v a x y :
  edges_closed G →
  nx.nbrs (nx.add_edge u v a G) x !! y =
  if decide ((x = u ∧ y = v) ∨ (x = v ∧ y = u))
  then Some (a ∪ default ∅ (nx.nbrs G u !! v))
  else nx.nbrs G x !! y.
Proof.
  intros HG.
  assert (HG' : edges_closed (nx.ensure_node v (nx.ensure_node u G)))
    by auto using edges_closed_ensure_node.
  assert (Hn : ∀ x y, nx.nbrs (nx.ensure_node v (nx.ensure_node u G)) x !! y
                      = nx.nbrs G x !! y).
  { intros. rewrite !nbrs_ensure_node; auto using edges_closed_ensure_node. }
  unfold nx.add_edge. set (G' := nx.ensure_node v (nx.ensure_node u G)) in *.
  unfold nx.nbrs at 1. simpl.
  destruct (decide (v = x)) as [->|Hvx].
  - rewrite lookup_insert_eq. simpl.
    destruct (decide (u = y)) as [->|Huy].
    + rewrite lookup_insert_eq, Hn. by rewrite decide_True by auto.
    + rewrite lookup_insert_ne by done.
      destruct (decide (u = x)) as [->|Hux].
      * rewrite lookup_insert_eq. simpl.
        destruct (decide (x = y)) as [->|Hxy].
        -- rewrite lookup_insert_eq, Hn. by rewrite decide_True by auto.
        -- rewrite lookup_insert_ne, Hn by done.
           rewrite decide_False; [done|]. intros [[_ ?]|[_ ?]]; congruence.
      * rewrite lookup_insert_ne by done.
        fold (nx.nbrs G' x). rewrite Hn.
        rewrite decide_False; [done|]. intros [[? _]|[_ ?]]; congruence.
  - rewrite lookup_insert_ne by done.
    destruct (decide (u = x)) as [->|Hux].
    + rewrite lookup_insert_eq. simpl.
      destruct (decide (v = y)) as [->|Hvy].
      * rewrite lookup_insert_eq, Hn. by rewrite decide_True by auto.
      * rewrite lookup_insert_ne, Hn by done.
        rewrite decide_False; [done|]. intros [[_ ?]|[? _]]; congruence.
    + rewrite lookup_insert_ne by done.
      fold (nx.nbrs G' x). rewrite Hn.
      rewrite decide_False; [done|]. intros [[? _]|[? _]]; congruence.
Qed.

Lemma edge_add_edge G u v a x y :
  edges_closed G →
  is_Some (nx.nbrs (nx.add_edge u v a G) x !! y) ↔
  (x = u ∧ y = v) ∨ (x = v ∧ y = u) ∨ is_Some (nx.nbrs G x !! y).
Proof.
  intros HG. rewrite nbrs_add_edge by done. case_decide as Hc.
  - split; [tauto|]. by eexists.
  - tauto.
Qed.

Lemma edges_closed_add_edge G u v a :
  edges_closed G → edges_closed (nx.add_edge u v a G).
Proof.
  intros HG x y. rewrite edge_add_edge by done. rewrite !node_add_edge.
  intros [[-> ->]|[[-> ->]|Hd]]; auto.
  destruct (HG x y Hd). auto.
Qed.

End nx_facts.

(** ** Facts about lists and strings *)

Lemma filter_eq_length_NoDup (l : list string) (x : string) :
  NoDup l → x ∈ l → length (filter (λ n, n = x) l) = 1.
Proof.
  induction 1 as [|y l Hy Hl IH]; intros Hx.
  - by apply elem_of_nil in Hx.
  - apply elem_of_cons in Hx as [<-|Hx].
    + rewrite filter_cons_True by done.
      destruct (filter (λ n, n = x) l) as [|z l'] eqn:E; [done|].
      assert (z ∈ filter (λ n, n = x) l) as Hz by (rewrite E; left).
      apply list_elem_of_filter in Hz as [-> Hz]. done.
    + rewrite filter_cons_False; [by apply IH|]. intros ->. done.
Qed.

(** The [i]-th element that passes a filter, with what comes before it. *)
Lemma filter_lookup_split {A} (P : A → Prop) `{!∀ x, Decision (P x)}
    (l : list A) (i : nat) (x : A) :
  filter P l !! i = Some x →
  ∃ l1 l2, l = l1 ++ x :: l2 ∧ P x ∧ length (filter P l1) = i.
Proof.
  revert i. induction l as [|a l IH]; intros i; [done|].
  destruct (decide (P a)) as [Ha|Ha].
  - rewrite filter_cons_True by done. destruct i as [|i]; simpl.
    + intros [= ->]. by exists [], l.
    + intros (l1 & l2 & -> & Hx & Hlen)%IH. exists (a :: l1), l2.
      split_and!; [done..|]. rewrite filter_cons_True by done. simpl. by rewrite Hlen.
  - rewrite filter_cons_False by done.
    intros (l1 & l2 & -> & Hx & Hlen)%IH. exists (a :: l1), l2.
    split_and!; [done..|]. by rewrite filter_cons_False.
Qed.

Lemma split_nonempty (c : ascii) (s : string) : pystr.split c s ≠ [].
Proof.
  destruct s as [|a s]; simpl; [done|].
  case_bool_decide; [done|]. by destruct (pystr.split c s).
Qed.

Lemma split_no_sep (c : ascii) (s : string) :
  pystr.contains c s = false → pystr.split c s = [s].
Proof.
  induction s as [|a s IH]; simpl; [done|].
  intros [Ha Hs]%orb_false_iff. rewrite Ha, IH by done. done.
Qed.

Lemma split_singleton (c : ascii) (s h : string) :
  pystr.split c s = [h] → pystr.contains c s = false.
Proof.
  revert h. induction s as [|a s IH]; simpl; intros h; [done|].
  pose proof (split_nonempty c s) as Hne.
  destruct (bool_decide (a = c)); simpl.
  - intros E. by injection E.
  - destruct (pystr.split c s) as [|h' t']; [done|].
    intros E. injection E as _ ->. by eapply IH.
Qed.

Lemma split_last (c : ascii) (s : string) :
  pystr.contains c s = true →
  pystr.contains c (pystr.last_item (pystr.split c s)) = false ∧
  ∃ pre, s = pre +:+ String c (pystr.last_item (pystr.split c s)).
Proof.
  unfold pystr.last_item.
  induction s as [|a s IH]; simpl; [done|].
  pose proof (split_nonempty c s) as Hne.
  destruct (pystr.contains c s) eqn:Hs.
  - destruct IH as [IHc [pre IHp]]; [done|]. intros _.
    destruct (pystr.split c s) as [|h t] eqn:E; [done|].
    destruct t as [|h' t'].
    { apply split_singleton in E. congruence. }
    assert (Hl : ∀ x, List.last (x :: h :: h' :: t') EmptyString
                      = List.last (h :: h' :: t') EmptyString) by done.
    destruct (bool_decide (a = c)).
    + rewrite Hl. split; [done|]. exists (String a pre). exact (f_equal (String a) IHp).
    + change (List.last (String a h :: h' :: t') EmptyString)
        with (List.last (h :: h' :: t') EmptyString).
      split; [done|]. exists (String a pre). exact (f_equal (String a) IHp).
  - rewrite orb_false_r. intros Ha. rewrite Ha.
    apply bool_decide_eq_true in Ha as ->.
    rewrite (split_no_sep c s Hs). simpl. split; [done|]. by exists EmptyString.
Qed.

(** [s.split("/")[-1]] is the part of [s] after its last ['/']. *)
Lemma last_item_split (s : string) :
  last_part_of s (pystr.last_item (pystr.split "/" s)).
Proof.
  unfold last_part_of. destruct (pystr.contains "/" s) eqn:Hs.
  - destruct (split_last _ _ Hs) as [Hc Hp]. split; [done|]. by right.
  - rewrite (split_no_sep _ _ Hs). simpl. split; [done|]. by left.
Qed.

(** ** Facts about the graph primitives and the passes *)
Section pass_facts.
Context `{Lib}.
Implicit Types (g : Graph) (G : nx.Graph) (t s p o : term) (ts : list triple).

Lemma elem_of_iter g (tr : triple) : tr ∈ iter g ↔ tr ∈ triples g.
Proof. unfold iter. by rewrite elem_of_reverse, elem_of_remove_dups, elem_of_reverse. Qed.

Lemma objects_elem g s p o : o ∈ objects g s p ↔ (s, p, o) ∈ triples g.
Proof.
  unfold objects. rewrite list_elem_of_omap. setoid_rewrite elem_of_iter. split.
  - intros [[[s' p'] o'] [Hin Hm]]. simpl in Hm. case_bool_decide as Hd; [|done].
    destruct Hd as [-> ->]. by injection Hm as ->.
  - intros Hin. exists (s, p, o). split; [done|]. simpl.
    by rewrite bool_decide_eq_true_2.
Qed.

Lemma subjects_elem g p o s : s ∈ subjects g p o ↔ (s, p, o) ∈ triples g.
Proof.
  unfold subjects. rewrite list_elem_of_omap. setoid_rewrite elem_of_iter. split.
  - intros [[[s' p'] o'] [Hin Hm]]. simpl in Hm. case_bool_decide as Hd; [|done].
    destruct Hd as [-> ->]. by injection Hm as ->.
  - intros Hin. exists (s, p, o). split; [done|]. simpl.
    by rewrite bool_decide_eq_true_2.
Qed.

Lemma value_None g s p : (∀ o, (s, p, o) ∉ triples g) → value g s p = None.
Proof.
  intros Hno. unfold value. destruct (objects g s p) as [|o l] eqn:E; [done|].
  exfalso. apply (Hno o), objects_elem. rewrite E. by left.
Qed.

Lemma has_subject_true g s :
  has_subject g s = true ↔ ∃ p o, (s, p, o) ∈ triples g.
Proof.
  unfold has_subject. rewrite bool_decide_eq_true, Exists_exists. split.
  - intros [[[s' p] o] [Hin <-]]. exists p, o. by apply elem_of_iter.
  - intros (p & o & Hin). exists (s, p, o). split; [by apply elem_of_iter|done].
Qed.

Lemma collect_step_one (acc : gset term) s p o t :
  t ∈ nx_convert.collect_step acc (s, p, o) ↔
  t ∈ acc ∨ (is_URIRef s = true ∧ t = s) ∨ (is_URIRef o = true ∧ t = o).
Proof.
  simpl. destruct (is_URIRef s), (is_URIRef o);
    rewrite ?elem_of_union, ?elem_of_singleton; intuition congruence.
Qed.

(** The first pass collects exactly the [URIRef]s in subject or object
    position. *)
Lemma collect_step_elem ts (acc : gset term) t :
  t ∈ foldl nx_convert.collect_step acc ts ↔
  t ∈ acc ∨ (is_URIRef t = true ∧ occurs_in ts t).
Proof.
  revert acc. induction ts as [|[[s p] o] ts IH]; intros acc.
  - simpl. split; [auto|]. intros [?|[_ (s & p & o & Hin & _)]]; [done|].
    by apply elem_of_nil in Hin.
  - change (foldl nx_convert.collect_step acc ((s, p, o) :: ts))
      with (foldl nx_convert.collect_step (nx_convert.collect_step acc (s, p, o)) ts).
    rewrite IH, collect_step_one. unfold occurs_in.
    setoid_rewrite elem_of_cons. split.
    + intros [[Hacc|[[Hs ->]|[Ho ->]]]|[Hu (s' & p' & o' & Hin & Ht)]].
      * by left.
      * right. split; [done|]. exists s, p, o. auto.
      * right. split; [done|]. exists s, p, o. auto.
      * right. split; [done|]. exists s', p', o'. auto.
    + intros [Hacc|[Hu (s' & p' & o' & [Heq|Hin] & Ht)]].
      * by do 2 left.
      * left. right. injection Heq as -> -> ->. destruct Ht as [->| ->]; auto.
      * right. split; [done|]. exists s', p', o'. auto.
Qed.

Lemma collect_nodes_elem g t :
  t ∈ nx_convert.collect_nodes g ↔ is_URIRef t = true ∧ occurs_in (triples g) t.
Proof.
  unfold nx_convert.collect_nodes. rewrite collect_step_elem.
  unfold occurs_in. setoid_rewrite elem_of_iter.
  split; [intros [?|?]; [set_solver|done]|auto].
Qed.

Lemma all_uris_collect g : exporters.all_uris g = nx_convert.collect_nodes g.
Proof.
  unfold exporters.all_uris, nx_convert.collect_nodes.
  f_equal.
Qed.

End pass_facts.


(** ** Facts about the node and edge loops *)
Section loop_facts.
Context `{Lib}.
Implicit Types (g : Graph) (G : nx.Graph) (t s p o : term) (ts : list triple).

(** A loop of [add_node] calls, whatever the attributes. *)
Lemma node_add_nodes (f : term → gmap string nx.attr) (l : list term) G x :
  is_Some (nx._node (foldl (λ G t, nx.add_node (str t) (f t) G) G l) !! x) ↔
  is_Some (nx._node G !! x) ∨ ∃ t, t ∈ l ∧ x = str t.
Proof.
  revert G. induction l as [|t l IH]; intros G; simpl.
  - split; [auto|]. intros [?|(t & Ht & _)]; [done|]. by apply elem_of_nil in Ht.
  - rewrite IH, node_add_node. setoid_rewrite elem_of_cons. split.
    + intros [[->|?]|(t' & Ht & ->)]; [right|by left|right]; eauto.
    + intros [?|(t' & [->|Ht] & ->)]; [auto|auto|right; eauto].
Qed.

Lemma nbrs_add_nodes (f : term → gmap string nx.attr) (l : list term) G u v d :
  nx.nbrs (foldl (λ G t, nx.add_node (str t) (f t) G) G l) u !! v = Some d →
  nx.nbrs G u !! v = Some d.
Proof.
  revert G. induction l as [|t l IH]; intros G; simpl; [done|].
  intros Hd. apply IH in Hd. by apply nbrs_add_node in Hd.
Qed.

Lemma edges_closed_add_nodes (f : term → gmap string nx.attr) (l : list term) G :
  edges_closed G →
  edges_closed (foldl (λ G t, nx.add_node (str t) (f t) G) G l).
Proof.
  revert G. induction l as [|t l IH]; intros G HG; simpl; [done|].
  by apply IH, edges_closed_add_node.
Qed.

Lemma edgeless_add_nodes (f : term → gmap string nx.attr) (l : list term) G :
  edgeless G → edgeless (foldl (λ G t, nx.add_node (str t) (f t) G) G l).
Proof.
  revert G. induction l as [|t l IH]; intros G HG; simpl; [done|].
  by apply IH, edgeless_add_node.
Qed.

(** The second pass of the entity projection. *)
Lemma add_entity_edges_spec ts m G G' m' :
  edges_closed G →
  nx_convert.add_entity_edges ts m G = Some (G', m') →
  edges_closed G' ∧
  (∀ x, is_Some (nx._node G' !! x) ↔
        is_Some (nx._node G !! x) ∨
        ∃ s p o, (s, p, o) ∈ ts ∧ links (s, p, o) = true ∧ (x = str s ∨ x = str o)) ∧
  (∀ x y, is_Some (nx.nbrs G' x !! y) ↔
          is_Some (nx.nbrs G x !! y) ∨
          ∃ s p o, (s, p, o) ∈ ts ∧ links (s, p, o) = true ∧
                   ((x = str s ∧ y = str o) ∨ (x = str o ∧ y = str s))).
Proof.
  revert m G. induction ts as [|[[s p] o] ts IH]; intros m G HG; simpl.
  - intros [= <- <-]. split; [done|]. split.
    + intros x. split; [auto|]. intros [?|(?&?&?&Hin&_)]; [done|].
      by apply elem_of_nil in Hin.
    + intros x y. split; [auto|]. intros [?|(?&?&?&Hin&_)]; [done|].
      by apply elem_of_nil in Hin.
  - destruct (is_URIRef s && is_URIRef o) eqn:Hl.
    + destruct (qname m p) as [[lbl m1]|]; [|done]. intros Hrun.
      apply IH in Hrun as (Hc & Hn & He); [|by apply edges_closed_add_edge].
      split; [done|]. split.
      * intros x. rewrite Hn, node_add_edge. setoid_rewrite elem_of_cons.
        split.
        -- intros [[->|[->|?]]|(s' & p' & o' & Hin & Hl' & Hx)].
           ++ right. exists s, p, o. auto.
           ++ right. exists s, p, o. auto.
           ++ by left.
           ++ right. exists s', p', o'. auto.
        -- intros [?|(s' & p' & o' & [[= -> -> ->]|Hin] & Hl' & Hx)].
           ++ auto.
           ++ left. tauto.
           ++ right. exists s', p', o'. auto.
      * intros x y. rewrite He, edge_add_edge by done.
        setoid_rewrite elem_of_cons. split.
        -- intros [[?|[?|?]]|(s' & p' & o' & Hin & Hl' & Hx)].
           ++ right. exists s, p, o. auto.
           ++ right. exists s, p, o. auto.
           ++ by left.
           ++ right. exists s', p', o'. auto.
        -- intros [?|(s' & p' & o' & [[= -> -> ->]|Hin] & Hl' & Hx)].
           ++ auto.
           ++ left. tauto.
           ++ right. exists s', p', o'. auto.
    + intros Hrun. apply IH in Hrun as (Hc & Hn & He); [|done].
      split; [done|]. split.
      * intros x. rewrite Hn. setoid_rewrite elem_of_cons. split.
        -- intros [?|(s' & p' & o' & Hin & Hl' & Hx)]; [by left|].
           right. exists s', p', o'. auto.
        -- intros [?|(s' & p' & o' & [[= -> -> ->]|Hin] & Hl' & Hx)]; [by left| |].
           ++ unfold links in Hl'. simpl in Hl'. congruence.
           ++ right. exists s', p', o'. auto.
      * intros x y. rewrite He. setoid_rewrite elem_of_cons. split.
        -- intros [?|(s' & p' & o' & Hin & Hl' & Hx)]; [by left|].
           right. exists s', p', o'. auto.
        -- intros [?|(s' & p' & o' & [[= -> -> ->]|Hin] & Hl' & Hx)]; [by left| |].
           ++ unfold links in Hl'. simpl in Hl'. congruence.
           ++ right. exists s', p', o'. auto.
Qed.

(** The second pass returns whenever [qname] does on the predicates it is
    given. *)
Lemma add_entity_edges_returns ts m G :
  (∀ m0 s p o, (s, p, o) ∈ ts → links (s, p, o) = true → is_Some (qname m0 p)) →
  is_Some (nx_convert.add_entity_edges ts m G).
Proof.
  revert m G. induction ts as [|[[s p] o] ts IH]; intros m G Hq; simpl; [done|].
  assert (Hq' : ∀ m0 s p o, (s, p, o) ∈ ts → links (s, p, o) = true →
                            is_Some (qname m0 p)).
  { intros m0 s' p' o' Hin. apply Hq. by right. }
  destruct (is_URIRef s && is_URIRef o) eqn:Hl; [|by apply IH].
  destruct (Hq m s p o) as [[lbl m1] ->]; [by left|done|]. by apply IH.
Qed.

End loop_facts.

(** ** Facts about the exporter's loops *)
Section export_facts.
Context `{Lib}.
Implicit Types (g : Graph) (t s p o : term) (ts : list triple).

Lemma node_step_fold g (l : list term) (acc : list (gmap string string))
    (P : gset term) :
  NoDup l → (∀ t, t ∈ l → t ∉ P) →
  foldl (exporters.node_step g) (acc, P) l
  = (acc ++ (exporters.node_record g <$> l), list_to_set l ∪ P).
Proof.
  intros Hnd. revert acc P. induction Hnd as [|t l Ht Hnd IH]; intros acc P HP; simpl.
  - by rewrite app_nil_r, union_empty_l_L.
  - rewrite bool_decide_eq_true_2 by (apply HP; left).
    rewrite IH.
    + rewrite <- app_assoc. simpl. f_equal. set_solver.
    + intros t' Ht'. rewrite elem_of_union, elem_of_singleton.
      intros [->|?]; [done|]. apply (HP t'); [by right|done].
Qed.

(** One node row per collected identifier. *)
Lemma nodes_data_eq g :
  (foldl (exporters.node_step g) ([], ∅) (elements (exporters.all_uris g))).1
  = exporters.node_record g <$> elements (exporters.all_uris g).
Proof.
  rewrite node_step_fold; [done|apply NoDup_elements|set_solver].
Qed.

Lemma edge_rows_spec ts m acc rows m' :
  exporters.edge_rows ts m acc = Some (rows, m') →
  ∃ new, rows = acc ++ new ∧
         Forall2 edge_row_of (filter (λ tr, links tr = true) ts) new.
Proof.
  revert m acc. induction ts as [|[[s p] o] ts IH]; intros m acc; simpl.
  - intros [= <- <-]. exists []. by rewrite app_nil_r.
  - destruct (is_URIRef s && is_URIRef o) eqn:Hl.
    + destruct (qname m p) as [[lbl m1]|] eqn:Hq; [|done]. intros Hrun.
      apply IH in Hrun as (new & -> & Hall).
      exists (exporters.edge_record lbl s p o :: new). split.
      * by rewrite <- app_assoc.
      * rewrite filter_cons_True by done. constructor; [|done].
        exists m, lbl, m1. done.
    + intros Hrun. apply IH in Hrun as (new & -> & Hall).
      exists new. split; [done|].
      rewrite filter_cons_False; [done|]. unfold links. simpl. by rewrite Hl.
Qed.

Lemma edge_rows_returns ts m acc :
  (∀ m0 s p o, (s, p, o) ∈ ts → links (s, p, o) = true → is_Some (qname m0 p)) →
  is_Some (exporters.edge_rows ts m acc).
Proof.
  revert m acc. induction ts as [|[[s p] o] ts IH]; intros m acc Hq; simpl; [done|].
  assert (Hq' : ∀ m0 s p o, (s, p, o) ∈ ts → links (s, p, o) = true →
                            is_Some (qname m0 p)).
  { intros m0 s' p' o' Hin. apply Hq. by right. }
  destruct (is_URIRef s && is_URIRef o) eqn:Hl; [|by apply IH].
  destruct (Hq m s p o) as [[lbl m1] ->]; [by left|done|]. by apply IH.
Qed.

(** The edge loop hands the manager on as [bindings_after] says. *)
Lemma edge_rows_bindings ts m acc rows m' :
  exporters.edge_rows ts m acc = Some (rows, m') → bindings_after ts m = Some m'.
Proof.
  revert m acc. induction ts as [|[[s p] o] ts IH]; intros m acc; simpl.
  - by intros [= _ <-].
  - unfold links. simpl. destruct (is_URIRef s && is_URIRef o); [|apply IH].
    destruct (qname m p) as [[lbl m1]|]; [apply IH|done].
Qed.

(** The row of the triple that follows [ts1], with the manager that the
    loop has when it reaches that triple. *)
Lemma edge_rows_at ts1 s p o ts2 m acc rows m' :
  exporters.edge_rows (ts1 ++ (s, p, o) :: ts2) m acc = Some (rows, m') →
  links (s, p, o) = true →
  ∃ m0 lbl m1,
    bindings_after ts1 m = Some m0 ∧ qname m0 p = Some (lbl, m1) ∧
    rows !! (length acc + length (filter (λ tr, links tr = true) ts1))
    = Some (exporters.edge_record lbl s p o).
Proof.
  intros Hrun Hl. revert m acc Hrun.
  induction ts1 as [|[[s1 p1] o1] ts1 IH]; intros m acc; simpl.
  - unfold links in Hl. simpl in Hl. rewrite Hl.
    destruct (qname m p) as [[lbl m1]|] eqn:Hq; [|done]. intros Hrun.
    apply edge_rows_spec in Hrun as (new & -> & _).
    exists m, lbl, m1. split_and!; [done..|].
    rewrite Nat.add_0_r, <- app_assoc, lookup_app_r by done.
    by rewrite Nat.sub_diag.
  - unfold links at 1 3. simpl. destruct (is_URIRef s1 && is_URIRef o1) eqn:Hl1.
    + destruct (qname m p1) as [[lbl1 m1]|] eqn:Hq1; [|done]. intros Hrun.
      apply IH in Hrun as (m0 & lbl & m2 & Hb & Hq & Hrow).
      exists m0, lbl, m2. split_and!; [done..|].
      rewrite filter_cons_True by (unfold links; simpl; by rewrite Hl1).
      rewrite length_app, <- Nat.add_assoc in Hrow. exact Hrow.
    + intros Hrun. apply IH in Hrun as (m0 & lbl & m2 & Hb & Hq & Hrow).
      exists m0, lbl, m2. split_and!; [done..|].
      rewrite filter_cons_False; [done|]. unfold links. simpl. by rewrite Hl1.
Qed.

Lemma edge_record_lookups lbl s p o :
  exporters.edge_record lbl s p o !! "start_uri" = Some (str s) ∧
  exporters.edge_record lbl s p o !! "end_uri" = Some (str o) ∧
  exporters.edge_record lbl s p o !! "type"
    = Some (pystr.upper (pystr.replace ":" "_" lbl)) ∧
  exporters.edge_record lbl s p o !! "uri" = Some (str p).
Proof. unfold exporters.edge_record. by simplify_map_eq. Qed.

Lemma node_record_lookups g t :
  exporters.node_record g t !! "uri" = Some (str t) ∧
  exporters.node_record g t !! "label" = Some (rdf_utils.get_node_label g t) ∧
  exporters.node_record g t !! "type" = Some (exporters.node_type_of g t).
Proof. unfold exporters.node_record. by simplify_map_eq. Qed.

End export_facts.

(** ** The projections and the export: what the claims say *)
Section claims.
Context `{Lib}.
Implicit Types (g : Graph) (G : nx.Graph) (t s p o : term).

Lemma edges_closed_add_compatible v G s :
  edges_closed G → edges_closed (nx_convert.add_compatible v G s).
Proof.
  intros HG. unfold nx_convert.add_compatible.
  destruct (nx.has_node G (str s)); [by apply edges_closed_add_edge|done].
Qed.

Lemma edges_closed_bipartite g :
  edges_closed (nx_convert.to_networkx_bipartite_graph g).
Proof.
  unfold nx_convert.to_networkx_bipartite_graph.
  set (G2 := foldl _ (foldl _ nx.empty _) _).
  assert (HG2 : edges_closed G2)
    by (do 2 apply edges_closed_add_nodes; apply edges_closed_empty).
  clearbody G2. revert G2 HG2.
  induction (elements (nx_convert.vehicles_of g)) as [|v l IH]; intros G HG; [done|].
  simpl. apply IH. unfold nx_convert.add_vehicle_edges.
  revert G HG.
  induction (objects g v (rdf_utils.EX "compatibleWithModel")) as [|s l' IH'];
    intros G HG; [done|].
  simpl. by apply IH', edges_closed_add_compatible.
Qed.

(** The inner loop of the bipartite projection, for a vehicle [v] that is a
    node: no node is added, and each object whose string is a node gets an
    edge. *)
Lemma add_vehicle_edges_spec (v : term) (l : list term) G :
  edges_closed G → is_Some (nx._node G !! str v) →
  let G' := foldl (nx_convert.add_compatible v) G l in
  edges_closed G' ∧
  (∀ x, is_Some (nx._node G' !! x) ↔ is_Some (nx._node G !! x)) ∧
  (∀ x y, is_Some (nx.nbrs G' x !! y) ↔
          is_Some (nx.nbrs G x !! y) ∨
          ∃ s, s ∈ l ∧ is_Some (nx._node G !! str s) ∧
               ((x = str v ∧ y = str s) ∨ (x = str s ∧ y = str v))).
Proof.
  revert G. induction l as [|s l IH]; intros G HG Hv; simpl.
  - split; [done|]. split; [done|]. intros x y. split; [auto|].
    intros [?|(s & Hs & _)]; [done|]. by apply elem_of_nil in Hs.
  - set (G1 := nx_convert.add_compatible v G s).
    assert (Hn1 : ∀ x, is_Some (nx._node G1 !! x) ↔ is_Some (nx._node G !! x)).
    { intros x. unfold G1, nx_convert.add_compatible.
      destruct (nx.has_node G (str s)) eqn:Hs; [|done].
      apply has_node_true in Hs. rewrite node_add_edge.
      split; [intros [->|[->|?]]; done|auto]. }
    assert (He1 : ∀ x y, is_Some (nx.nbrs G1 x !! y) ↔
                         is_Some (nx.nbrs G x !! y) ∨
                         (is_Some (nx._node G !! str s) ∧
                          ((x = str v ∧ y = str s) ∨ (x = str s ∧ y = str v)))).
    { intros x y. unfold G1, nx_convert.add_compatible.
      destruct (nx.has_node G (str s)) eqn:Hs.
      - apply has_node_true in Hs. rewrite edge_add_edge by done. tauto.
      - split; [auto|]. intros [?|[Hs' _]]; [done|].
        apply has_node_true in Hs'. congruence. }
    destruct (IH G1) as (Hc & Hn & He).
    { by apply edges_closed_add_compatible. }
    { by apply Hn1. }
    split; [done|]. split.
    + intros x. by rewrite Hn, Hn1.
    + intros x y. rewrite He, He1. setoid_rewrite elem_of_cons.
      setoid_rewrite Hn1. split.
      * intros [[?|[? ?]]|(s' & ? & ? & ?)]; [by left|right..].
        -- exists s. auto.
        -- exists s'. auto.
      * intros [?|(s' & [->|?] & ? & ?)]; [by do 2 left|left; right; auto|].
        right. exists s'. auto.
Qed.

(** What [to_networkx_bipartite_graph] returns: the nodes are the declared
    vehicle and sensor models; there is an edge for every compatibility
    triple of a vehicle model whose object, as a string, is a node, on
    either side. *)
Lemma bipartite_graph_spec g :
  let G := nx_convert.to_networkx_bipartite_graph g in
  (∀ x, is_Some (nx._node G !! x) ↔
        ∃ t, (t ∈ nx_convert.vehicles_of g ∨ t ∈ nx_convert.sensors_of g) ∧ x = str t) ∧
  (∀ x y, is_Some (nx.nbrs G x !! y) ↔
          ∃ v s, v ∈ nx_convert.vehicles_of g ∧
                 (v, rdf_utils.EX "compatibleWithModel", s) ∈ triples g ∧
                 is_Some (nx._node G !! str s) ∧
                 ((x = str v ∧ y = str s) ∨ (x = str s ∧ y = str v))).
Proof.
  unfold nx_convert.to_networkx_bipartite_graph.
  set (G2 := foldl _ (foldl _ nx.empty _) _).
  assert (HG2 : edges_closed G2)
    by (do 2 apply edges_closed_add_nodes; apply edges_closed_empty).
  assert (Hn2 : ∀ x, is_Some (nx._node G2 !! x) ↔
                     ∃ t, (t ∈ nx_convert.vehicles_of g ∨ t ∈ nx_convert.sensors_of g)
                          ∧ x = str t).
  { intros x. unfold G2. rewrite !node_add_nodes. simpl. rewrite lookup_empty.
    setoid_rewrite elem_of_elements. split.
    - intros [[[]%is_Some_None|(t & ? & ->)]|(t & ? & ->)]; exists t; auto.
    - intros (t & [?|?] & ->); [left; right|right]; by exists t. }
  assert (He2 : ∀ x y, ¬ is_Some (nx.nbrs G2 x !! y)).
  { intros x y [d Hd]. unfold G2 in Hd. do 2 apply nbrs_add_nodes in Hd.
    unfold nx.nbrs in Hd. simpl in Hd. rewrite lookup_empty in Hd.
    simpl in Hd. by rewrite lookup_empty in Hd. }
  assert (Hgen : ∀ (l : list term) G,
    edges_closed G → (∀ v, v ∈ l → is_Some (nx._node G !! str v)) →
    let G' := foldl (nx_convert.add_vehicle_edges g) G l in
    edges_closed G' ∧
    (∀ x, is_Some (nx._node G' !! x) ↔ is_Some (nx._node G !! x)) ∧
    (∀ x y, is_Some (nx.nbrs G' x !! y) ↔
            is_Some (nx.nbrs G x !! y) ∨
            ∃ v s, v ∈ l ∧ (v, rdf_utils.EX "compatibleWithModel", s) ∈ triples g ∧
                   is_Some (nx._node G !! str s) ∧
                   ((x = str v ∧ y = str s) ∨ (x = str s ∧ y = str v)))).
  { clear. induction l as [|v l IH]; intros G HG Hl; simpl.
    - split; [done|]. split; [done|]. intros x y. split; [auto|].
      intros [?|(v & s & Hv & _)]; [done|]. by apply elem_of_nil in Hv.
    - destruct (add_vehicle_edges_spec v
                  (objects g v (rdf_utils.EX "compatibleWithModel")) G HG)
        as (Hc1 & Hn1 & He1); [apply Hl; left|].
      fold (nx_convert.add_vehicle_edges g G v) in Hc1, Hn1, He1.
      destruct (IH (nx_convert.add_vehicle_edges g G v) Hc1) as (Hc & Hn & He).
      { intros v' Hv'. apply Hn1, Hl. by right. }
      split; [done|]. split.
      + intros x. by rewrite Hn, Hn1.
      + intros x y. rewrite He, He1. setoid_rewrite elem_of_cons.
        setoid_rewrite Hn1. setoid_rewrite objects_elem. split.
        * intros [[?|(s & ? & ? & ?)]|(v' & s & ? & ? & ? & ?)]; [by left|right..].
          -- exists v, s. auto.
          -- exists v', s. auto.
        * intros [?|(v' & s & [->|?] & ? & ? & ?)]; [by do 2 left| |].
          -- left. right. exists s. auto.
          -- right. exists v', s. auto. }
  destruct (Hgen (elements (nx_convert.vehicles_of g)) G2 HG2) as (_ & Hn & He).
  { intros v Hv. apply Hn2. exists v. split; [|done]. left.
    by apply elem_of_elements. }
  split.
  - intros x. by rewrite Hn, Hn2.
  - intros x y. rewrite He. setoid_rewrite elem_of_elements. setoid_rewrite Hn.
    split; [|auto]. intros [?|?]; [|done]. by destruct (He2 x y).
Qed.

(** What [to_networkx_entity_graph] returns: its nodes are the collected
    identifiers, its edges the linked pairs, in both directions. *)
Lemma entity_graph_spec g G m :
  nx_convert.to_networkx_entity_graph g = Some (G, m) →
  edges_closed G ∧
  (∀ x, is_Some (nx._node G !! x) ↔
        ∃ t, is_URIRef t = true ∧ occurs_in (triples g) t ∧ x = str t) ∧
  (∀ x y, is_Some (nx.nbrs G x !! y) ↔
          ∃ s p o, (s, p, o) ∈ triples g ∧ links (s, p, o) = true ∧
                   ((x = str s ∧ y = str o) ∨ (x = str o ∧ y = str s))).
Proof.
  unfold nx_convert.to_networkx_entity_graph, nx_convert.add_entity_nodes.
  intros Hrun. apply add_entity_edges_spec in Hrun as (Hc & Hn & He);
    [|apply edges_closed_add_nodes, edges_closed_empty].
  split; [done|]. split.
  - intros x. rewrite Hn, node_add_nodes. simpl. rewrite lookup_empty.
    setoid_rewrite elem_of_elements. setoid_rewrite collect_nodes_elem.
    setoid_rewrite elem_of_iter. split.
    + intros [[[]%is_Some_None|(t & [Hu Ho] & ->)]|(s & p & o & Hin & Hl & Hx)].
      * by exists t.
      * unfold links in Hl. simpl in Hl. apply andb_true_iff in Hl as [Hs Ho].
        destruct Hx as [->| ->]; [exists s|exists o];
          (split; [done|]); (split; [|done]); exists s, p, o; auto.
    + intros (t & Hu & Ho & ->). left. right. by exists t.
  - intros x y. rewrite He. setoid_rewrite elem_of_iter. split; [|auto].
    intros [[d Hd]|?]; [|done].
    apply nbrs_add_nodes in Hd. unfold nx.nbrs in Hd. simpl in Hd.
    rewrite lookup_empty in Hd. simpl in Hd. by rewrite lookup_empty in Hd.
Qed.

(** The entity projection returns whenever [qname] does on the predicates
    of the linking triples. *)
Lemma entity_graph_returns g :
  (∀ m s p o, (s, p, o) ∈ triples g → links (s, p, o) = true → is_Some (qname m p)) →
  is_Some (nx_convert.to_networkx_entity_graph g).
Proof.
  intros Hq. apply add_entity_edges_returns.
  intros m s p o Hin. apply Hq. by apply elem_of_iter.
Qed.

Lemma export_returns g :
  (∀ m s p o, (s, p, o) ∈ triples g → links (s, p, o) = true → is_Some (qname m p)) →
  is_Some (exporters.export_to_csv g).
Proof.
  intros Hq. unfold exporters.export_to_csv.
  destruct (edge_rows_returns (iter g) (namespace_manager g) []) as [[rows m] ->];
    [|done].
  intros m s p o Hin. apply Hq. by apply elem_of_iter.
Qed.

(** What [export_to_csv] writes. *)
Lemma export_spec g nodes_data edges_data m :
  exporters.export_to_csv g = Some (nodes_data, edges_data, m) →
  nodes_data = exporters.node_record g <$> elements (nx_convert.collect_nodes g) ∧
  Forall2 edge_row_of (filter (λ tr, links tr = true) (iter g)) edges_data.
Proof.
  unfold exporters.export_to_csv. rewrite nodes_data_eq, all_uris_collect.
  destruct (exporters.edge_rows _ _ _) as [[rows m']|] eqn:E; [|done].
  intros [= <- <- <-]. split; [done|].
  apply edge_rows_spec in E as (new & -> & Hall). done.
Qed.

(** C9: on an empty triple set the entity projection, the bipartite
    projection and the export all return, with no node, no edge and no
    row. *)
Theorem empty_triple_set (m : NamespaceManager) :
  nx_convert.to_networkx_entity_graph (mkGraph _ [] m) = Some (nx.empty, m) ∧
  nx_convert.to_networkx_bipartite_graph (mkGraph _ [] m) = nx.empty ∧
  exporters.export_to_csv (mkGraph _ [] m) = Some ([], [], m) ∧
  nx.number_of_nodes nx.empty = 0 ∧ nx.number_of_edges nx.empty = 0.
Proof.
  unfold nx_convert.to_networkx_entity_graph, nx_convert.to_networkx_bipartite_graph,
    exporters.export_to_csv, nx_convert.collect_nodes, exporters.all_uris,
    nx_convert.vehicles_of, nx_convert.sensors_of, subjects, iter.
  simpl. rewrite !elements_empty. simpl. repeat split.
Qed.

(** C3: every [URIRef] in subject or object position of a triple is a node of
    the entity graph, and is listed once among its nodes; no identifier is
    listed twice. *)
Theorem entity_node_completeness g G m s p o t :
  nx_convert.to_networkx_entity_graph g = Some (G, m) →
  (s, p, o) ∈ triples g → t = s ∨ t = o → is_URIRef t = true →
  nx.has_node G (str t) = true ∧
  length (filter (λ n, n = str t) (nx.nodes G)) = 1 ∧
  NoDup (nx.nodes G).
Proof.
  intros Hrun Hin Ht Hu. apply entity_graph_spec in Hrun as (_ & Hn & _).
  assert (Hnode : is_Some (nx._node G !! str t)).
  { apply Hn. exists t. repeat split; [done|]. by exists s, p, o. }
  split; [by apply has_node_true|].
  assert (Hnd : NoDup (nx.nodes G)) by apply NoDup_fst_map_to_list.
  split; [|done]. apply filter_eq_length_NoDup; [done|].
  destruct Hnode as [a Ha]. apply list_elem_of_fmap.
  exists (str t, a). split; [done|]. by apply elem_of_map_to_list.
Qed.

(** C4: in the entity projection and in the bipartite projection, both
    endpoints of every edge are nodes. *)
Theorem projected_edges_sound g G u v :
  projected g G →
  nx.has_edge G u v = true →
  nx.has_node G u = true ∧ nx.has_node G v = true.
Proof.
  intros Hp. rewrite has_edge_true, !has_node_true.
  assert (HG : edges_closed G).
  { destruct Hp as [[m Hrun]| ->].
    - by apply entity_graph_spec in Hrun as (? & _).
    - apply edges_closed_bipartite. }
  apply HG.
Qed.

(** C10: only [URIRef]s give nodes, edges and rows.  Every node of the entity
    graph and every node row is the identifier of a [URIRef] in subject or
    object position; every edge and every edge row comes from a triple whose
    subject and object are both [URIRef]s.  A blank node gives none of
    them. *)
Theorem only_uri_refs_projected g G m nodes_data edges_data m' :
  nx_convert.to_networkx_entity_graph g = Some (G, m) →
  exporters.export_to_csv g = Some (nodes_data, edges_data, m') →
  (∀ n, nx.has_node G n = true → occurs_in (triples g) (URIRef n)) ∧
  (∀ x y, nx.has_edge G x y = true →
          ∃ p, (URIRef x, p, URIRef y) ∈ triples g ∨
               (URIRef y, p, URIRef x) ∈ triples g) ∧
  (∀ r, r ∈ nodes_data →
        ∃ u, occurs_in (triples g) (URIRef u) ∧
             r = exporters.node_record g (URIRef u)) ∧
  (∀ r, r ∈ edges_data →
        ∃ x p y, (URIRef x, p, URIRef y) ∈ triples g ∧
                 edge_row_of (URIRef x, p, URIRef y) r).
Proof.
  intros Hrun Hexp.
  apply entity_graph_spec in Hrun as (_ & Hn & He).
  apply export_spec in Hexp as [-> Hrows].
  repeat split.
  - intros n Hnode%has_node_true. apply Hn in Hnode as (t & Hu & Ho & ->).
    by destruct t.
  - intros x y Hedge%has_edge_true.
    apply He in Hedge as (s & p & o & Hin & Hl & Hxy).
    unfold links in Hl. simpl in Hl. apply andb_true_iff in Hl as [Hs Ho].
    destruct s as [s| |]; [|done|done]. destruct o as [o| |]; [|done|done].
    exists p. simpl in Hxy. destruct Hxy as [[-> ->]|[-> ->]]; auto.
  - intros r (t & -> & Ht)%list_elem_of_fmap.
    apply elem_of_elements, collect_nodes_elem in Ht as [Hu Ho].
    destruct t as [u| |]; [|done|done]. by exists u.
  - intros r Hr.
    destruct (proj1 (list_elem_of_lookup _ _) Hr) as [i Hi].
    destruct (Forall2_lookup_r _ _ _ _ _ Hrows Hi) as ([[s p] o] & Htr & Hrow).
    apply list_elem_of_lookup_2, list_elem_of_filter in Htr as [Hl Hin].
    apply elem_of_iter in Hin.
    unfold links in Hl. simpl in Hl. apply andb_true_iff in Hl as [Hs Ho].
    destruct s as [s| |]; [|done|done]. destruct o as [o| |]; [|done|done].
    by exists s, p, o.
Qed.

(** C7: the node row of a resource with no [rdf:type] triple has type
    ["Resource"] when the resource is the subject of some triple, and type
    ["Concept"] exactly when the type resolution gives ["Resource"] and the
    resource is the subject of no triple. *)
Theorem untyped_node_row_type g nodes_data edges_data m r u :
  exporters.export_to_csv g = Some (nodes_data, edges_data, m) →
  r ∈ nodes_data → r !! "uri" = Some u →
  (∀ o, (URIRef u, RDF_type, o) ∉ triples g) →
  ((∃ p o, (URIRef u, p, o) ∈ triples g) → r !! "type" = Some "Resource") ∧
  (r !! "type" = Some "Concept" ↔
     rdf_utils.get_type_label g (URIRef u) = "Resource" ∧
     ¬ ∃ p o, (URIRef u, p, o) ∈ triples g).
Proof.
  intros Hexp Hr Huri Hno.
  apply export_spec in Hexp as [-> _].
  apply list_elem_of_fmap in Hr as (t & -> & Ht).
  apply elem_of_elements, collect_nodes_elem in Ht as [Hu _].
  destruct (node_record_lookups g t) as (Hk & _ & Hty).
  rewrite Hk in Huri. destruct t as [u'| |]; [|done|done].
  injection Huri as ->.
  assert (Hres : rdf_utils.get_type_label g (URIRef u) = "Resource").
  { unfold rdf_utils.get_type_label. by rewrite value_None. }
  rewrite Hty. unfold exporters.node_type_of. rewrite Hres. simpl.
  destruct (has_subject g (URIRef u)) eqn:Hs; simpl.
  - apply has_subject_true in Hs. split; [done|].
    split; [done|]. intros [_ Hn]. done.
  - assert (Hn : ¬ ∃ p o, (URIRef u, p, o) ∈ triples g).
    { intros Hx. apply has_subject_true in Hx. congruence. }
    split; [done|]. done.
Qed.

(** C8: the [i]-th edge row is the row of the [i]-th triple, in enumeration
    order, that links two [URIRef]s.  Its relation tag is the qualified name
    of that triple's predicate with [':'] replaced by ['_'] and put in upper
    case, where the qualified name is the one [qname] gives under the
    graph's own namespace manager, as the calls for the rows before have
    left it; and the row carries the predicate's identifier as it is. *)
Theorem edge_row_relation_tag g nodes_data edges_data m i r :
  exporters.export_to_csv g = Some (nodes_data, edges_data, m) →
  edges_data !! i = Some r →
  ∃ ts1 s p o ts2 m0 lbl m1,
    iter g = ts1 ++ (s, p, o) :: ts2 ∧ (s, p, o) ∈ triples g ∧
    links (s, p, o) = true ∧
    length (filter (λ tr, links tr = true) ts1) = i ∧
    bindings_after ts1 (namespace_manager g) = Some m0 ∧
    qname m0 p = Some (lbl, m1) ∧
    r !! "type" = Some (pystr.upper (pystr.replace ":" "_" lbl)) ∧
    r !! "uri" = Some (str p) ∧
    r !! "start_uri" = Some (str s) ∧ r !! "end_uri" = Some (str o).
Proof.
  intros Hexp Hr. pose proof Hexp as [_ Hrows]%export_spec.
  destruct (Forall2_lookup_r _ _ _ _ _ Hrows Hr) as ([[s p] o] & Htr & _).
  apply filter_lookup_split in Htr as (ts1 & ts2 & Hiter & Hl & Hlen).
  revert Hexp. unfold exporters.export_to_csv. rewrite Hiter.
  destruct (exporters.edge_rows _ _ _) as [[rows m']|] eqn:E; [|done].
  intros [= _ <- _].
  apply edge_rows_at in E as (m0 & lbl & m1 & Hb & Hq & Hrow); [|done].
  simpl in Hrow. rewrite Hlen, Hr in Hrow. injection Hrow as ->.
  exists ts1, s, p, o, ts2, m0, lbl, m1.
  destruct (edge_record_lookups lbl s p o) as (? & ? & ? & ?).
  split_and!; try done.
  apply elem_of_iter. rewrite Hiter. apply elem_of_app. right. left.
Qed.

(** C6, as the code has it: for a [URIRef] with no [rdfs:label] triple and
    for which [n3] finds no prefix (it gives ["<identifier>"]), the
    exporter's resolver [rdf_utils.get_node_label] returns the part after
    the last ['/'], and the projectors' resolver [nx_convert.get_label]
    returns ["<identifier>"]. *)
Theorem label_fallback g u :
  (∀ o, (URIRef u, RDFS_label, o) ∉ triples g) →
  n3 (URIRef u) (namespace_manager g) = Some ("<" +:+ u +:+ ">") →
  last_part_of u (rdf_utils.get_node_label g (URIRef u)) ∧
  nx_convert.get_label g (URIRef u) = "<" +:+ u +:+ ">".
Proof.
  intros Hno Hn3.
  unfold rdf_utils.get_node_label, nx_convert.get_label,
    rdf_utils.qname_or_last_part, nx_convert.n3_or_str.
  rewrite value_None by done. rewrite Hn3. simpl.
  split; [apply last_item_split|done].
Qed.


Lemma iter_two (m : NamespaceManager) (t1 t2 : triple) :
  t1 ≠ t2 → iter (mkGraph _ [t1; t2] m) = [t1; t2].
Proof.
  intros Hne. unfold iter. simpl.
  destruct (decide_rel elem_of t2 [t1]) as [Hin|_]; [|done].
  apply list_elem_of_singleton in Hin. congruence.
Qed.

(** [add_edge] between the only two nodes of a graph. *)
Lemma add_edge_pair G a b na nb (e : option (gmap string nx.attr)) d :
  nx._node G !! a = Some na → nx._node G !! b = Some nb →
  nx._adj G = pair_adj a b e →
  nx._node (nx.add_edge a b d G) = nx._node G ∧
  nx._adj (nx.add_edge a b d G) = pair_adj a b (Some (d ∪ default ∅ e)).
Proof.
  intros Ha Hb Hadj.
  unfold nx.add_edge, nx.ensure_node, nx.nbrs. simpl.
  repeat (rewrite ?Ha, ?Hb; simpl). split; [done|].
  rewrite Hadj. unfold pair_adj. apply map_eq. intros x.
  destruct (decide (a = b)) as [->|Hab].
  - destruct e as [d0|]; simpl;
      destruct (decide (x = b)) as [->|Hx]; simplify_map_eq;
      by rewrite ?insert_insert_eq, ?insert_singleton_eq, ?insert_empty.
  - destruct e as [d0|]; simpl;
      (destruct (decide (x = a)) as [->|Hxa];
       [|destruct (decide (x = b)) as [->|Hxb]]); simplify_map_eq;
      by rewrite ?insert_insert_eq, ?insert_singleton_eq, ?insert_empty.
Qed.

(** One edge, possibly a self-loop, counts as one. *)
Lemma number_of_edges_pair G a b d :
  nx._adj G = pair_adj a b (Some d) → nx.number_of_edges G = 1.
Proof.
  intros Hadj. unfold nx.number_of_edges. rewrite Hadj. unfold pair_adj. simpl.
  destruct (decide (a = b)) as [->|Hab].
  - rewrite insert_insert_eq, insert_empty, map_fold_singleton.
    unfold nx.degree_of. rewrite map_size_singleton, lookup_singleton_eq.
    by rewrite bool_decide_eq_true_2.
  - rewrite map_fold_insert_L.
    + rewrite insert_empty, map_fold_singleton. unfold nx.degree_of.
      rewrite !map_size_singleton, !lookup_singleton_ne by done.
      by rewrite !bool_decide_eq_false_2 by (by intros [? ?]).
    + intros. lia.
    + by rewrite lookup_insert_ne, lookup_empty.
Qed.


End claims.

(** ** The claims on concrete graphs *)
Section concrete.
Import bindings examples rdf_utils.

(** C1: in the bipartite projection of two vehicle models, one declared
    compatible with the other, there is an edge between the two, and both
    carry the side tag [0]: the test [str(s) in nx_graph] accepts a target on
    either side. *)
Theorem bipartite_same_side_edge :
  let G := nx_convert.to_networkx_bipartite_graph two_vehicles in
  nx.has_edge G (str (VEH "v1")) (str (VEH "v2")) = true ∧
  nx.node_attr G (str (VEH "v1")) "bipartite" = Some (nx.AInt 0) ∧
  nx.node_attr G (str (VEH "v2")) "bipartite" = Some (nx.AInt 0).
Proof. vm_compute. done. Qed.

(** C2: in the same graph the target of the compatibility triple is not in
    the set of sensor models, and the triple still gives an edge. *)
Theorem bipartite_edge_to_non_sensor :
  (VEH "v1", EX "compatibleWithModel", VEH "v2") ∈ triples two_vehicles ∧
  bool_decide (VEH "v2" ∈ nx_convert.sensors_of two_vehicles) = false ∧
  nx.has_edge (nx_convert.to_networkx_bipartite_graph two_vehicles)
    (str (VEH "v1")) (str (VEH "v2")) = true.
Proof. split; [|by vm_compute]. do 2 right. left. Qed.

(** C6 as stated fails for the projectors' resolver: with no label and no
    matching prefix, [nx_convert.get_label] gives ["<identifier>"], which is
    not the part after the last ['/']. *)
Lemma get_label_not_last_part :
  (∀ o, (URIRef garage, RDFS_label, o) ∉ triples unlabelled) ∧
  lookup_ns (namespace_manager unlabelled) garage = None ∧
  nx_convert.get_label unlabelled (URIRef garage) = "<" +:+ garage +:+ ">" ∧
  ¬ last_part_of garage (nx_convert.get_label unlabelled (URIRef garage)).
Proof.
  split; [|split; [done|split; [done|]]].
  - intros o Hin. apply list_elem_of_singleton in Hin. done.
  - intros [Hc _]. vm_compute in Hc. done.
Qed.

(** The general theorems, applied to the example graphs. *)

Lemma entity_node_completeness_witness :
  ∃ G m,
    nx_convert.to_networkx_entity_graph scenario_a = Some (G, m) ∧
    nx.has_node G (str (VEH "v1")) = true ∧
    length (filter (λ n, n = str (VEH "v1")) (nx.nodes G)) = 1 ∧
    NoDup (nx.nodes G).
Proof.
  eexists _, _. split; [vm_compute; reflexivity|].
  eapply (entity_node_completeness scenario_a _ _
           (VEH "v1") RDF_type (EX "VehicleModel") (VEH "v1")).
  - vm_compute; reflexivity.
  - left.
  - by left.
  - reflexivity.
Defined.

Lemma projected_edges_sound_witness :
  nx.has_node (nx_convert.to_networkx_bipartite_graph scenario_a)
    (str (VEH "v1")) = true ∧
  nx.has_node (nx_convert.to_networkx_bipartite_graph scenario_a)
    (str (SEN "s1")) = true.
Proof.
  apply (projected_edges_sound scenario_a).
  - right. reflexivity.
  - vm_compute; reflexivity.
Defined.


Lemma label_fallback_witness :
  last_part_of garage (rdf_utils.get_node_label unlabelled (URIRef garage)) ∧
  nx_convert.get_label unlabelled (URIRef garage) = "<" +:+ garage +:+ ">".
Proof.
  apply (label_fallback unlabelled garage).
  - intros o Hin. apply list_elem_of_singleton in Hin. discriminate.
  - vm_compute; reflexivity.
Defined.

Lemma untyped_node_row_type_witness :
  ((∃ p o, (EX "EngineBay", p, o) ∈ triples located) →
   exporters.node_record located (EX "EngineBay") !! "type" = Some "Resource") ∧
  (exporters.node_record located (EX "EngineBay") !! "type" = Some "Concept" ↔
     rdf_utils.get_type_label located (EX "EngineBay") = "Resource" ∧
     ¬ ∃ p o, (EX "EngineBay", p, o) ∈ triples located).
Proof.
  eapply (untyped_node_row_type located _ _ _
            (exporters.node_record located (EX "EngineBay"))).
  - vm_compute; reflexivity.
  - left.
  - vm_compute; reflexivity.
  - intros o Hin. apply list_elem_of_singleton in Hin. discriminate.
Defined.

Lemma edge_row_relation_tag_witness :
  (∃ ts1 s p o ts2 m0 lbl m1,
     iter measured = ts1 ++ (s, p, o) :: ts2 ∧ (s, p, o) ∈ triples measured ∧
     links (s, p, o) = true ∧
     length (filter (λ tr, links tr = true) ts1) = 1 ∧
     bindings_after ts1 (namespace_manager measured) = Some m0 ∧
     qname m0 p = Some (lbl, m1) ∧
     exporters.edge_record "ns7:größe" (SEN "i1") size (EX "Large")
       !! "type" = Some (pystr.upper (pystr.replace ":" "_" lbl)) ∧
     exporters.edge_record "ns7:größe" (SEN "i1") size (EX "Large")
       !! "uri" = Some (str p) ∧
     exporters.edge_record "ns7:größe" (SEN "i1") size (EX "Large")
       !! "start_uri" = Some (str s) ∧
     exporters.edge_record "ns7:größe" (SEN "i1") size (EX "Large")
       !! "end_uri" = Some (str o)) ∧
  exporters.edge_record "ns7:größe" (SEN "i1") size (EX "Large") !! "type"
  = Some "NS7_GRÖSSE".
Proof.
  split; [|vm_compute; reflexivity].
  eapply (edge_row_relation_tag measured _ _ _ 1).
  - vm_compute; reflexivity.
  - vm_compute; reflexivity.
Defined.

Lemma only_uri_refs_projected_witness :
  ∃ (G : nx.Graph) (nodes_data edges_data : list (gmap string string)),
    (∀ n, nx.has_node G n = true → occurs_in (triples with_blank) (URIRef n)) ∧
    (∀ x y, nx.has_edge G x y = true →
            ∃ p, (URIRef x, p, URIRef y) ∈ triples with_blank ∨
                 (URIRef y, p, URIRef x) ∈ triples with_blank) ∧
    (∀ r, r ∈ nodes_data →
          ∃ u, occurs_in (triples with_blank) (URIRef u) ∧
               r = exporters.node_record with_blank (URIRef u)) ∧
    (∀ r, r ∈ edges_data →
          ∃ x p y, (URIRef x, p, URIRef y) ∈ triples with_blank ∧
                   edge_row_of (URIRef x, p, URIRef y) r).
Proof.
  eexists _, _, _.
  eapply (only_uri_refs_projected with_blank).
  - vm_compute; reflexivity.
  - vm_compute; reflexivity.
Defined.

End concrete.

(** ** More facts about the networkx operations *)
Section nx_more.
Implicit Types (G : nx.Graph) (n u v x y : string) (a d : gmap string nx.attr).

Lemma nbrs_add_node_eq G n a u v :
  edges_closed G → nx.nbrs (nx.add_node n a G) u !! v = nx.nbrs G u !! v.
Proof.
  intros HG. unfold nx.add_node. destruct (nx._node G !! n) eqn:E; [done|].
  unfold nx.nbrs at 1. simpl. destruct (decide (n = u)) as [->|Hne].
  - rewrite lookup_insert_eq. simpl. rewrite lookup_empty.
    destruct (nx.nbrs G u !! v) eqn:Hd; [|done].
    destruct (HG u v) as [[? Hu] _]; [by eexists|]. congruence.
  - by rewrite lookup_insert_ne.
Qed.

Lemma undirected_empty : undirected nx.empty.
Proof. intros x y. unfold nx.nbrs. simpl. by rewrite !lookup_empty. Qed.

Lemma undirected_add_node G n a :
  edges_closed G → undirected G → undirected (nx.add_node n a G).
Proof. intros HG Hs x y. by rewrite !nbrs_add_node_eq. Qed.

Lemma undirected_add_edge G u v a :
  edges_closed G → undirected G → undirected (nx.add_edge u v a G).
Proof.
  intros HG Hs x y. rewrite !nbrs_add_edge by done.
  destruct (decide ((x = u ∧ y = v) ∨ (x = v ∧ y = u))) as [Hc|Hc].
  - rewrite decide_True by tauto. done.
  - rewrite decide_False by tauto. apply Hs.
Qed.

(** A node that is there keeps its attributes through [add_edge]. *)
Lemma node_lookup_ensure_node G n x a :
  nx._node G !! x = Some a → nx._node (nx.ensure_node n G) !! x = Some a.
Proof.
  intros Hx. unfold nx.ensure_node. destruct (nx._node G !! n) eqn:E; [done|].
  simpl. rewrite lookup_insert_ne; [done|]. intros ->. congruence.
Qed.

Lemma node_lookup_add_edge G u v d x a :
  nx._node G !! x = Some a → nx._node (nx.add_edge u v d G) !! x = Some a.
Proof.
  intros Hx. unfold nx.add_edge. simpl. by do 2 apply node_lookup_ensure_node.
Qed.

Lemma edge_keys_ok_add_edge G u v a :
  edges_closed G → edge_keys_ok G →
  (∀ k, is_Some (a !! k) → k = "label" ∨ k = "uri") →
  edge_keys_ok (nx.add_edge u v a G).
Proof.
  intros HG Hk Ha x y d k. rewrite nbrs_add_edge by done.
  case_decide as Hc; [|apply Hk].
  intros [= <-]. rewrite lookup_union_is_Some. intros [?|Hold]; [by apply Ha|].
  destruct (nx.nbrs G u !! v) as [d0|] eqn:Hd; simpl in Hold.
  - by eapply Hk.
  - rewrite lookup_empty in Hold. by destruct Hold.
Qed.

End nx_more.

(** ** More facts about the projection loops *)
Section loops_more.
Context `{Lib}.
Implicit Types (g : Graph) (G : nx.Graph) (t s p o : term) (ts : list triple).

Lemma undirected_add_nodes (f : term → gmap string nx.attr) (l : list term) G :
  edges_closed G → undirected G →
  undirected (foldl (λ G t, nx.add_node (str t) (f t) G) G l).
Proof.
  revert G. induction l as [|t l IH]; intros G HG Hs; simpl; [done|].
  apply IH; [by apply edges_closed_add_node|by apply undirected_add_node].
Qed.

Lemma no_edge_add_nodes (f : term → gmap string nx.attr) (l : list term) x y :
  nx.nbrs (foldl (λ G t, nx.add_node (str t) (f t) G) nx.empty l) x !! y = None.
Proof.
  destruct (nx.nbrs _ x !! y) as [d|] eqn:Hd; [|done].
  apply nbrs_add_nodes in Hd. unfold nx.nbrs in Hd. simpl in Hd.
  rewrite lookup_empty in Hd. simpl in Hd. by rewrite lookup_empty in Hd.
Qed.

(** A loop of [add_node] calls on identifiers that are new and pairwise
    different: each node gets the attributes computed for it, and the others
    are untouched. *)
Lemma node_lookup_add_nodes (f : term → gmap string nx.attr) (l : list term) G :
  NoDup (str <$> l) → (∀ t, t ∈ l → nx._node G !! str t = None) →
  let G' := foldl (λ G t, nx.add_node (str t) (f t) G) G l in
  (∀ t, t ∈ l → nx._node G' !! str t = Some (f t)) ∧
  (∀ x, x ∉ str <$> l → nx._node G' !! x = nx._node G !! x).
Proof.
  revert G. induction l as [|t l IH]; intros G Hnd Hnew; simpl.
  - split; [|done]. intros t Ht. by apply elem_of_nil in Ht.
  - apply NoDup_cons in Hnd as [Ht Hnd].
    assert (Hnode : nx._node (nx.add_node (str t) (f t) G)
                    = <[str t := f t]> (nx._node G)).
    { unfold nx.add_node. rewrite Hnew by left. done. }
    destruct (IH (nx.add_node (str t) (f t) G) Hnd) as [IHa IHb].
    { intros t' Ht'. rewrite Hnode, lookup_insert_ne; [apply Hnew; by right|].
      intros Heq. apply Ht. rewrite Heq. apply list_elem_of_fmap. by exists t'. }
    split.
    + intros t' [->|Ht']%elem_of_cons; [|by apply IHa].
      rewrite IHb by done. rewrite Hnode. apply lookup_insert_eq.
    + intros x Hx. apply not_elem_of_cons in Hx as [Hxt Hx].
      rewrite IHb by done. rewrite Hnode. by rewrite lookup_insert_ne.
Qed.

Lemma add_entity_edges_app ts1 ts2 m G :
  nx_convert.add_entity_edges (ts1 ++ ts2) m G
  = match nx_convert.add_entity_edges ts1 m G with
    | Some (G1, m1) => nx_convert.add_entity_edges ts2 m1 G1
    | None => None
    end.
Proof.
  revert m G. induction ts1 as [|[[s p] o] ts1 IH]; intros m G; simpl; [done|].
  destruct (is_URIRef s && is_URIRef o); [|apply IH].
  destruct (qname m p) as [[lbl m1]|]; [apply IH|done].
Qed.

(** The second pass hands the manager on as [bindings_after] says. *)
Lemma add_entity_edges_bindings ts m G G' m' :
  nx_convert.add_entity_edges ts m G = Some (G', m') → bindings_after ts m = Some m'.
Proof.
  revert m G. induction ts as [|[[s p] o] ts IH]; intros m G; simpl.
  - by intros [= _ <-].
  - unfold links. simpl. destruct (is_URIRef s && is_URIRef o); [|apply IH].
    destruct (qname m p) as [[lbl m1]|]; [apply IH|done].
Qed.

(** What the second pass keeps: symmetry, the shape of the edge
    dictionaries, and the attributes of the nodes that are already there. *)
Lemma add_entity_edges_keeps ts m G G' m' :
  edges_closed G → undirected G → edge_keys_ok G →
  nx_convert.add_entity_edges ts m G = Some (G', m') →
  undirected G' ∧ edge_keys_ok G' ∧
  (∀ x a, nx._node G !! x = Some a → nx._node G' !! x = Some a).
Proof.
  revert m G. induction ts as [|[[s p] o] ts IH]; intros m G HG Hs Hk; simpl.
  - by intros [= <- <-].
  - destruct (is_URIRef s && is_URIRef o); [|by apply IH].
    destruct (qname m p) as [[lbl m1]|]; [|done]. intros Hrun.
    apply IH in Hrun as (Hs' & Hk' & Hn').
    + repeat split; [done..|]. intros x a Hx. by apply Hn', node_lookup_add_edge.
    + by apply edges_closed_add_edge.
    + by apply undirected_add_edge.
    + apply edge_keys_ok_add_edge; [done..|]. intros k [v Hv].
      destruct (decide (k = "label")); [by left|].
      destruct (decide (k = "uri")); [by right|].
      by rewrite lookup_insert_ne, lookup_singleton_ne in Hv.
Qed.

(** Triples that do not join [x] and [y] leave the edge between them as it
    is. *)
Lemma add_entity_edges_other ts m G G' m' x y :
  edges_closed G →
  nx_convert.add_entity_edges ts m G = Some (G', m') →
  (∀ tr : triple, tr ∈ ts → links tr = true → ¬ joins tr x y) →
  nx.nbrs G' x !! y = nx.nbrs G x !! y.
Proof.
  revert m G. induction ts as [|[[s p] o] ts IH]; intros m G HG; simpl.
  - by intros [= <- <-].
  - intros Hrun Hno.
    assert (Hno' : ∀ tr : triple, tr ∈ ts → links tr = true → ¬ joins tr x y).
    { intros tr Ht. apply Hno. by right. }
    destruct (is_URIRef s && is_URIRef o) eqn:Hl; [|by eapply IH].
    destruct (qname m p) as [[lbl m1]|]; [|done].
    erewrite IH; [|by apply edges_closed_add_edge|done|done].
    rewrite nbrs_add_edge by done. rewrite decide_False; [done|].
    intros Hc. apply (Hno (s, p, o)); [by left|done|].
    unfold joins. simpl. destruct Hc as [[-> ->]|[-> ->]]; auto.
Qed.

End loops_more.

(** ** Further properties of the projections and of the export *)
Section extras.
Context `{Lib}.
Implicit Types (g : Graph) (G : nx.Graph) (t s p o : term).

Lemma edge_keys_ok_no_edges G :
  (∀ x y, nx.nbrs G x !! y = None) → edge_keys_ok G.
Proof. intros Hno x y d k Hd. by rewrite Hno in Hd. Qed.

(** The graph before the second pass, and what the whole run keeps. *)
Lemma entity_graph_keeps g G m :
  nx_convert.to_networkx_entity_graph g = Some (G, m) →
  undirected G ∧ edge_keys_ok G ∧
  ∀ t, t ∈ nx_convert.collect_nodes g →
       nx._node G !! str t = Some (nx_convert.entity_attrs g t).
Proof.
  unfold nx_convert.to_networkx_entity_graph, nx_convert.add_entity_nodes.
  intros Hrun.
  apply add_entity_edges_keeps in Hrun as (Hs & Hk & Hn).
  - split; [done|]. split; [done|]. intros t Ht. apply Hn.
    apply node_lookup_add_nodes; [|done|by apply elem_of_elements].
    apply NoDup_fmap_2_strong; [|apply NoDup_elements].
    intros t1 t2 Ht1 Ht2 Heq.
    apply elem_of_elements, collect_nodes_elem in Ht1 as [Hu1 _].
    apply elem_of_elements, collect_nodes_elem in Ht2 as [Hu2 _].
    destruct t1, t2; simplify_eq/=; done.
  - apply edges_closed_add_nodes, edges_closed_empty.
  - apply undirected_add_nodes; [apply edges_closed_empty|apply undirected_empty].
  - apply edge_keys_ok_no_edges. intros x y. apply no_edge_add_nodes.
Qed.

Lemma undirected_bipartite g :
  undirected (nx_convert.to_networkx_bipartite_graph g).
Proof.
  unfold nx_convert.to_networkx_bipartite_graph.
  set (G2 := foldl _ (foldl _ nx.empty _) _).
  assert (HG2 : edges_closed G2 ∧ undirected G2).
  { split.
    - do 2 apply edges_closed_add_nodes. apply edges_closed_empty.
    - apply undirected_add_nodes; [apply edges_closed_add_nodes, edges_closed_empty|].
      apply undirected_add_nodes; [apply edges_closed_empty|apply undirected_empty]. }
  clearbody G2. revert G2 HG2.
  assert (Hin : ∀ v (l : list term) G, edges_closed G ∧ undirected G →
            edges_closed (foldl (nx_convert.add_compatible v) G l) ∧
            undirected (foldl (nx_convert.add_compatible v) G l)).
  { intros v l. induction l as [|s l IH]; intros G [HG Hs]; [done|].
    simpl. apply IH. unfold nx_convert.add_compatible.
    destruct (nx.has_node G (str s)); [|done].
    split; [by apply edges_closed_add_edge|by apply undirected_add_edge]. }
  induction (elements (nx_convert.vehicles_of g)) as [|v l IH]; intros G HG.
  - apply HG.
  - simpl. apply IH. apply Hin, HG.
Qed.

(** X1: every triple between two [URIRef]s gives an edge of the entity
    graph, readable from both ends; a triple from a resource to itself gives
    a self-loop. *)
Theorem entity_edges_complete g G m x p y :
  nx_convert.to_networkx_entity_graph g = Some (G, m) →
  (URIRef x, p, URIRef y) ∈ triples g →
  nx.has_edge G x y = true ∧ nx.has_edge G y x = true.
Proof.
  intros Hrun Hin. apply entity_graph_spec in Hrun as (_ & _ & He).
  rewrite !has_edge_true. split; apply He; exists (URIRef x), p, (URIRef y); auto.
Qed.

(** X2: the projected graphs are undirected: an edge carries the same
    attribute dictionary whichever end it is read from. *)
Theorem projected_edges_undirected g G x y :
  projected g G → nx.get_edge_data G x y = nx.get_edge_data G y x.
Proof.
  intros [[m Hrun]| ->]; unfold nx.get_edge_data.
  - by apply entity_graph_keeps in Hrun as (Hs & _).
  - apply undirected_bipartite.
Qed.

(** X3: a node of the entity graph carries exactly the four attributes
    computed for its identifier: the resolved label, the resolved type
    label, the identifier itself under ["uri"], and the kind ["Entity"];
    adding the edges changes none of them. *)
Theorem entity_node_attributes g G m u :
  nx_convert.to_networkx_entity_graph g = Some (G, m) →
  occurs_in (triples g) (URIRef u) →
  nx._node G !! u
  = Some {[ "label" := nx.AStr (nx_convert.get_label g (URIRef u));
            "type" := nx.AStr (nx_convert.get_type_label g (URIRef u));
            "uri" := nx.AStr u;
            "kind" := nx.AStr "Entity" ]}.
Proof.
  intros Hrun Ho. apply entity_graph_keeps in Hrun as (_ & _ & Hn).
  apply (Hn (URIRef u)). by apply collect_nodes_elem.
Qed.

(** X4: the attributes of an edge of the entity graph are those of the last
    triple, in enumeration order, that joins its two ends in either
    direction: the identifier of that triple's predicate, and the qualified
    name that [qname] gives for it under the graph's own namespace manager,
    as the calls for the triples before have left it. *)
Theorem entity_edge_last_wins g G m ts1 s p o ts2 :
  nx_convert.to_networkx_entity_graph g = Some (G, m) →
  iter g = ts1 ++ (s, p, o) :: ts2 →
  links (s, p, o) = true →
  (∀ tr : triple, tr ∈ ts2 → links tr = true → ¬ joins tr (str s) (str o)) →
  ∃ m0 lbl m1,
    bindings_after ts1 (namespace_manager g) = Some m0 ∧
    qname m0 p = Some (lbl, m1) ∧
    nx.get_edge_data G (str s) (str o)
    = Some {[ "label" := nx.AStr lbl; "uri" := nx.AStr (str p) ]} ∧
    nx.get_edge_data G (str o) (str s)
    = Some {[ "label" := nx.AStr lbl; "uri" := nx.AStr (str p) ]}.
Proof.
  intros Hrun Hiter Hl Hlast.
  pose proof (entity_graph_keeps _ _ _ Hrun) as (Hsym & _ & _).
  revert Hrun.
  unfold nx_convert.to_networkx_entity_graph, nx_convert.add_entity_nodes.
  set (G0 := foldl _ nx.empty _).
  assert (HG0 : edges_closed G0) by apply edges_closed_add_nodes, edges_closed_empty.
  assert (Hs0 : undirected G0)
    by (apply undirected_add_nodes; [apply edges_closed_empty|apply undirected_empty]).
  assert (Hk0 : edge_keys_ok G0)
    by (apply edge_keys_ok_no_edges; intros; apply no_edge_add_nodes).
  clearbody G0. rewrite Hiter, add_entity_edges_app.
  destruct (nx_convert.add_entity_edges ts1 _ G0) as [[G1 m1]|] eqn:E1; [|done].
  pose proof (add_entity_edges_spec _ _ _ _ _ HG0 E1) as (HG1 & _ & _).
  pose proof (add_entity_edges_keeps _ _ _ _ _ HG0 Hs0 Hk0 E1) as (_ & Hk1 & _).
  cbn [nx_convert.add_entity_edges]. unfold links in Hl. simpl in Hl. rewrite Hl.
  destruct (qname m1 p) as [[lbl m2]|] eqn:Hq; [|done]. intros E2.
  exists m1, lbl, m2. split; [by eapply add_entity_edges_bindings|].
  split; [done|].
  assert (Hd : nx.get_edge_data G (str s) (str o)
               = Some {[ "label" := nx.AStr lbl; "uri" := nx.AStr (str p) ]}).
  { unfold nx.get_edge_data.
    erewrite add_entity_edges_other; [|by apply edges_closed_add_edge|done|done].
    rewrite nbrs_add_edge by done. rewrite decide_True by auto. f_equal.
    apply map_eq. intros k. rewrite lookup_union.
    destruct (decide (k = "label")) as [->|Hk].
    { rewrite lookup_insert_eq. by destruct (default ∅ _ !! "label"). }
    destruct (decide (k = "uri")) as [->|Hk'].
    { rewrite lookup_insert_ne, lookup_singleton_eq by done.
      by destruct (default ∅ _ !! "uri"). }
    rewrite lookup_insert_ne, lookup_singleton_ne by done.
    destruct (nx.nbrs G1 (str s) !! str o) as [d0|] eqn:Hd0; simpl.
    - destruct (d0 !! k) eqn:Hk0'; [|done].
      destruct (Hk1 _ _ _ k Hd0); [by eexists|done|done].
    - by rewrite lookup_empty. }
  split; [done|]. rewrite <- Hd. apply Hsym.
Qed.

Lemma NoDup_str_collect g :
  NoDup (str <$> elements (nx_convert.collect_nodes g)).
Proof.
  apply NoDup_fmap_2_strong; [|apply NoDup_elements].
  intros t1 t2 Ht1 Ht2 Heq.
  apply elem_of_elements, collect_nodes_elem in Ht1 as [Hu1 _].
  apply elem_of_elements, collect_nodes_elem in Ht2 as [Hu2 _].
  destruct t1, t2; simplify_eq/=; done.
Qed.

(** X5: the [uri] column of the node rows is, up to order, the node list of
    the entity graph: every row has a [uri], no two rows share one, and
    there are as many rows as nodes. *)
Theorem export_nodes_match_entity_graph g G m nodes_data edges_data m' :
  nx_convert.to_networkx_entity_graph g = Some (G, m) →
  exporters.export_to_csv g = Some (nodes_data, edges_data, m') →
  (λ r : gmap string string, r !! "uri") <$> nodes_data ≡ₚ Some <$> nx.nodes G.
Proof.
  intros Hrun Hexp. apply export_spec in Hexp as [-> _].
  apply entity_graph_spec in Hrun as (_ & Hn & _).
  assert (Heq : (λ r : gmap string string, r !! "uri")
                  <$> (exporters.node_record g <$> elements (nx_convert.collect_nodes g))
                = Some <$> (str <$> elements (nx_convert.collect_nodes g))).
  { rewrite <- !list_fmap_compose. apply list_fmap_ext.
    intros i t _. simpl. by destruct (node_record_lookups g t) as (-> & _). }
  rewrite Heq. apply fmap_Permutation, NoDup_Permutation.
  - apply NoDup_str_collect.
  - apply NoDup_fst_map_to_list.
  - intros x. unfold nx.nodes. rewrite list_elem_of_fmap. split.
    + intros (t & -> & Ht). apply elem_of_elements, collect_nodes_elem in Ht as [Hu Ho].
      destruct (proj2 (Hn (str t))) as [a Ha]; [by exists t|].
      apply list_elem_of_fmap. exists (str t, a). split; [done|].
      by apply elem_of_map_to_list.
    + intros ([x' a] & -> & Hxa)%list_elem_of_fmap. apply elem_of_map_to_list in Hxa.
      destruct (proj1 (Hn x')) as (t & Hu & Ho & ->); [by eexists|].
      exists t. split; [done|]. by apply elem_of_elements, collect_nodes_elem.
Qed.

(** X6: every edge row refers to node rows: its [start_uri] and its
    [end_uri] are each the [uri] of a node row of the same export. *)
Theorem export_edges_reference_nodes g nodes_data edges_data m r :
  exporters.export_to_csv g = Some (nodes_data, edges_data, m) →
  r ∈ edges_data →
  ∃ x y r1 r2,
    r !! "start_uri" = Some x ∧ r !! "end_uri" = Some y ∧
    r1 ∈ nodes_data ∧ r1 !! "uri" = Some x ∧
    r2 ∈ nodes_data ∧ r2 !! "uri" = Some y.
Proof.
  intros Hexp Hr. apply export_spec in Hexp as [-> Hrows].
  destruct (proj1 (list_elem_of_lookup _ _) Hr) as [i Hi].
  destruct (Forall2_lookup_r _ _ _ _ _ Hrows Hi) as ([[s p] o] & Htr & Hrow).
  apply list_elem_of_lookup_2, list_elem_of_filter in Htr as [Hl Hin].
  apply elem_of_iter in Hin.
  unfold links in Hl. simpl in Hl. apply andb_true_iff in Hl as [Hs Ho].
  destruct Hrow as (m0 & lbl & m1 & Hq & ->). simpl.
  destruct (edge_record_lookups lbl s p o) as (Hst & Hen & _).
  exists (str s), (str o), (exporters.node_record g s), (exporters.node_record g o).
  split_and!; [done|done| | | |].
  - apply list_elem_of_fmap. exists s. split; [done|].
    apply elem_of_elements, collect_nodes_elem. split; [done|]. exists s, p, o. auto.
  - by destruct (node_record_lookups g s) as (-> & _).
  - apply list_elem_of_fmap. exists o. split; [done|].
    apply elem_of_elements, collect_nodes_elem. split; [done|]. exists s, p, o. auto.
  - by destruct (node_record_lookups g o) as (-> & _).
Qed.

(** X7: the export has one edge row per triple between two [URIRef]s,
    parallel predicates included: as many rows as such triples, and for each
    such triple a row with its subject, its object and its predicate. *)
Theorem export_edge_rows_complete g nodes_data edges_data m :
  exporters.export_to_csv g = Some (nodes_data, edges_data, m) →
  length edges_data = length (filter (λ tr, links tr = true) (iter g)) ∧
  ∀ x p y, (URIRef x, p, URIRef y) ∈ triples g →
    ∃ r, r ∈ edges_data ∧ r !! "start_uri" = Some x ∧
         r !! "end_uri" = Some y ∧ r !! "uri" = Some (str p).
Proof.
  intros Hexp. apply export_spec in Hexp as [_ Hrows]. split.
  - symmetry. by eapply Forall2_length.
  - intros x p y Hin.
    assert (Hf : (URIRef x, p, URIRef y) ∈ filter (λ tr, links tr = true) (iter g)).
    { apply list_elem_of_filter. split; [done|]. by apply elem_of_iter. }
    destruct (proj1 (list_elem_of_lookup _ _) Hf) as [i Hi].
    destruct (Forall2_lookup_l _ _ _ _ _ Hrows Hi) as (r & Hr & Hrow).
    exists r. split; [by eapply list_elem_of_lookup_2|].
    destruct Hrow as (m0 & lbl & m1 & Hq & ->). simpl.
    by destruct (edge_record_lookups lbl (URIRef x) p (URIRef y)) as (? & ? & _ & ?).
Qed.

Lemma upper_char_not_lower (c : ascii) :
  ¬ (97 ≤ Ascii.nat_of_ascii (pystr.upper_char c) ≤ 122).
Proof.
  unfold pystr.upper_char. case_bool_decide as Hc; [|done].
  rewrite Ascii.nat_ascii_embedding by lia. lia.
Qed.

Lemma upper_char_colon (c : ascii) :
  pystr.upper_char c = ":"%char → c = ":"%char.
Proof.
  unfold pystr.upper_char. case_bool_decide as Hc; [|done].
  intros Heq. apply (f_equal Ascii.nat_of_ascii) in Heq.
  rewrite Ascii.nat_ascii_embedding in Heq by lia.
  change (Ascii.nat_of_ascii ":") with 58 in Heq. lia.
Qed.

Lemma has_lower_app (a b : string) :
  pystr.has_lower (a +:+ b) = pystr.has_lower a || pystr.has_lower b.
Proof. induction a as [|c a IH]; simpl; [done|]. by rewrite IH, orb_assoc. Qed.

Lemma contains_app (c : ascii) (a b : string) :
  pystr.contains c (a +:+ b) = pystr.contains c a || pystr.contains c b.
Proof. induction a as [|x a IH]; simpl; [done|]. by rewrite IH, orb_assoc. Qed.

(** The characters of a string, put together again, are the string. *)
Lemma glue_chars (s : string) : pystr.glue (pystr.chars s) = s.
Proof.
  induction s as [|c s IH]; [done|]. cbn [pystr.chars].
  destruct (pystr.chars s) as [|h t]; cbn [pystr.glue] in *; [by rewrite <- IH|].
  destruct (pystr.starts_cont h); cbn [pystr.glue]; by rewrite <- IH.
Qed.

Lemma contains_glue (c : ascii) (l : list string) :
  pystr.contains c (pystr.glue l) = false ↔ Forall (λ w, pystr.contains c w = false) l.
Proof.
  induction l as [|w l IH]; simpl; [by split|].
  rewrite contains_app, orb_false_iff, IH, Forall_cons. done.
Qed.

Lemma upper_bytes_safe (w : string) :
  pystr.has_lower (pystr.upper_bytes w) = false ∧
  (pystr.contains ":" w = false → pystr.contains ":" (pystr.upper_bytes w) = false).
Proof.
  induction w as [|c w [IH1 IH2]]; simpl; [done|]. split.
  - rewrite IH1, orb_false_r. apply bool_decide_eq_false, upper_char_not_lower.
  - intros [Hc Hw]%orb_false_iff. rewrite IH2, orb_false_r by done.
    apply bool_decide_eq_false. intros Hu. apply upper_char_colon in Hu.
    by rewrite bool_decide_eq_true_2 in Hc.
Qed.

(** No entry of the table puts a lower-case ASCII letter or a [':']. *)
Lemma UPPER_checked :
  forallb (λ kv : string * string,
             negb (pystr.has_lower kv.2) && negb (pystr.contains ":" kv.2))
          pystr.UPPER = true.
Proof. vm_compute. reflexivity. Qed.

Lemma assoc_elem (w u : string) (l : list (string * string)) :
  pystr.assoc w l = Some u → (w, u) ∈ l.
Proof.
  induction l as [|[k v] l IH]; simpl; [done|].
  case_bool_decide as Hk; [intros [= ->]; subst; left|right; auto].
Qed.

Lemma upper_chunk_safe (w : string) :
  pystr.has_lower (pystr.upper_chunk w) = false ∧
  (pystr.contains ":" w = false → pystr.contains ":" (pystr.upper_chunk w) = false).
Proof.
  unfold pystr.upper_chunk.
  destruct (pystr.assoc w pystr.UPPER) as [u|] eqn:E; simpl; [|apply upper_bytes_safe].
  apply assoc_elem in E.
  pose proof (proj1 (forallb_forall _ _) UPPER_checked (w, u)) as Hc.
  rewrite <- list_elem_of_In in Hc. specialize (Hc E). simpl in Hc.
  apply andb_true_iff in Hc as [H1%negb_true_iff H2%negb_true_iff]. done.
Qed.

Lemma upper_has_lower (s : string) : pystr.has_lower (pystr.upper s) = false.
Proof.
  unfold pystr.upper. induction (pystr.chars s) as [|w l IH]; [done|].
  rewrite fmap_cons. cbn [pystr.glue].
  rewrite has_lower_app, IH, orb_false_r. apply upper_chunk_safe.
Qed.

Lemma upper_no_colon (s : string) :
  pystr.contains ":" s = false → pystr.contains ":" (pystr.upper s) = false.
Proof.
  intros Hs. rewrite <- (glue_chars s) in Hs. apply contains_glue in Hs.
  unfold pystr.upper. apply contains_glue.
  induction Hs as [|w l Hw _ IH]; [done|]. rewrite fmap_cons.
  constructor; [by apply upper_chunk_safe|done].
Qed.

Lemma replace_no_colon (lbl : string) :
  pystr.contains ":" (pystr.replace ":" "_" lbl) = false.
Proof.
  induction lbl as [|c lbl IH]; [done|]. simpl. rewrite IH, orb_false_r.
  apply bool_decide_eq_false. by case_bool_decide.
Qed.

Lemma tag_safe (lbl : string) :
  pystr.contains ":" (pystr.upper (pystr.replace ":" "_" lbl)) = false ∧
  pystr.has_lower (pystr.upper (pystr.replace ":" "_" lbl)) = false.
Proof. split; [apply upper_no_colon, replace_no_colon|apply upper_has_lower]. Qed.

(** X8: the relation tag of an edge row contains no [':'] and no lower-case
    ASCII letter, whatever the qualified name was. *)
Theorem edge_row_tag_is_safe g nodes_data edges_data m r :
  exporters.export_to_csv g = Some (nodes_data, edges_data, m) →
  r ∈ edges_data →
  ∃ tag, r !! "type" = Some tag ∧
         pystr.contains ":" tag = false ∧ pystr.has_lower tag = false.
Proof.
  intros Hexp Hr. apply export_spec in Hexp as [_ Hrows].
  destruct (proj1 (list_elem_of_lookup _ _) Hr) as [i Hi].
  destruct (Forall2_lookup_r _ _ _ _ _ Hrows Hi) as ([[s p] o] & Htr & Hrow).
  destruct Hrow as (m0 & lbl & m1 & Hq & ->). simpl.
  destruct (edge_record_lookups lbl s p o) as (_ & _ & Hty & _).
  eexists. split; [done|]. apply tag_safe.
Qed.

Lemma edge_loops_agree (ts : list triple) (m : NamespaceManager) G
    (acc : list (gmap string string)) :
  match nx_convert.add_entity_edges ts m G, exporters.edge_rows ts m acc with
  | Some (_, m1), Some (_, m2) => m1 = m2
  | None, None => True
  | _, _ => False
  end.
Proof.
  revert m G acc. induction ts as [|[[s p] o] ts IH]; intros m G acc; simpl; [done|].
  destruct (is_URIRef s && is_URIRef o); [|apply IH].
  destruct (qname m p) as [[lbl m1]|]; [apply IH|done].
Qed.

(** X9: the entity projection and the export fail together: on the same
    graph either both return, leaving the same namespace manager, or both
    are ended by an exception of [qname]. *)
Theorem export_and_entity_fail_together g :
  match nx_convert.to_networkx_entity_graph g, exporters.export_to_csv g with
  | Some (_, m1), Some (_, _, m2) => m1 = m2
  | None, None => True
  | _, _ => False
  end.
Proof.
  unfold nx_convert.to_networkx_entity_graph, exporters.export_to_csv.
  match goal with
  | |- context [nx_convert.add_entity_edges ?ts ?m ?G] =>
      pose proof (edge_loops_agree ts m G []) as Hag
  end.
  destruct (nx_convert.add_entity_edges _ _ _) as [[G1 m1]|];
    destruct (exporters.edge_rows _ _ _) as [[rows m2]|]; done.
Qed.

Lemma node_attr_add_node_ne G (n x k : string) (a : gmap string nx.attr) :
  x ≠ n → nx.node_attr (nx.add_node n a G) x k = nx.node_attr G x k.
Proof.
  intros Hne. unfold nx.node_attr, nx.add_node.
  destruct (nx._node G !! n); simpl; by rewrite lookup_insert_ne.
Qed.

Lemma node_attr_add_node_eq G (n k : string) (a : gmap string nx.attr) c :
  a !! k = Some c → nx.node_attr (nx.add_node n a G) n k = Some c.
Proof.
  intros Ha. unfold nx.node_attr, nx.add_node.
  destruct (nx._node G !! n); simpl; rewrite lookup_insert_eq; simpl; [|done].
  by apply lookup_union_Some_l.
Qed.

(** A loop of [add_node] calls that all set the attribute [k] to [c]: the
    nodes the loop names have [k = c] afterwards, new or not; the other
    nodes keep what they had. *)
Lemma node_attr_add_nodes (f : term → gmap string nx.attr) (l : list term) G
    (k x : string) c :
  (∀ t, f t !! k = Some c) →
  nx.node_attr (foldl (λ G t, nx.add_node (str t) (f t) G) G l) x k
  = if bool_decide (x ∈ str <$> l) then Some c else nx.node_attr G x k.
Proof.
  intros Hf. revert G. induction l as [|t l IH]; intros G; [done|].
  cbn [foldl]. rewrite IH. rewrite fmap_cons.
  destruct (decide (x ∈ str <$> l)) as [Hin|Hnin].
  - rewrite !bool_decide_eq_true_2; [done| by right | done].
  - rewrite (bool_decide_eq_false_2 (x ∈ str <$> l)) by done.
    destruct (decide (x = str t)) as [->|Hne].
    + rewrite bool_decide_eq_true_2 by left. by apply node_attr_add_node_eq.
    + rewrite bool_decide_eq_false_2.
      * by apply node_attr_add_node_ne.
      * intros [?|?]%elem_of_cons; done.
Qed.

Lemma vehicles_of_elem g t :
  t ∈ nx_convert.vehicles_of g ↔
  (t, RDF_type, rdf_utils.EX "VehicleModel") ∈ triples g.
Proof.
  unfold nx_convert.vehicles_of. by rewrite elem_of_list_to_set, subjects_elem.
Qed.

Lemma sensors_of_elem g t :
  t ∈ nx_convert.sensors_of g ↔
  (t, RDF_type, rdf_utils.EX "SensorModel") ∈ triples g.
Proof.
  unfold nx_convert.sensors_of. by rewrite elem_of_list_to_set, subjects_elem.
Qed.

(** The edge loop of the bipartite projection leaves the nodes and their
    attributes as the two node loops set them. *)
Lemma bipartite_node_lookup g x :
  nx._node (nx_convert.to_networkx_bipartite_graph g) !! x
  = nx._node
      (foldl (λ G s, nx.add_node (str s) (nx_convert.sensor_attrs g s) G)
         (foldl (λ G v, nx.add_node (str v) (nx_convert.vehicle_attrs g v) G)
            nx.empty (elements (nx_convert.vehicles_of g)))
         (elements (nx_convert.sensors_of g))) !! x.
Proof.
  pose proof (bipartite_graph_spec g) as [Hn _]. revert Hn.
  unfold nx_convert.to_networkx_bipartite_graph.
  set (G2 := foldl _ (foldl _ nx.empty _) _). intros Hn.
  assert (Hin : ∀ v (l : list term) G a,
            nx._node G !! x = Some a →
            nx._node (foldl (nx_convert.add_compatible v) G l) !! x = Some a).
  { intros v l. induction l as [|s l IH]; intros G a Ha; [done|].
    simpl. apply IH. unfold nx_convert.add_compatible.
    destruct (nx.has_node G (str s)); [by apply node_lookup_add_edge|done]. }
  assert (Hout : ∀ (l : list term) G a,
            nx._node G !! x = Some a →
            nx._node (foldl (nx_convert.add_vehicle_edges g) G l) !! x = Some a).
  { induction l as [|v l IH]; intros G a Ha; [done|].
    simpl. apply IH. by apply Hin. }
  destruct (nx._node G2 !! x) as [a|] eqn:E2; [by apply Hout|].
  destruct (nx._node (foldl _ G2 _) !! x) as [a|] eqn:E3; [|done].
  exfalso. destruct (proj1 (Hn x)) as (t & Ht & ->); [by eexists|].
  assert (is_Some (nx._node G2 !! str t)) as [? ?]; [|congruence].
  unfold G2. rewrite !node_add_nodes. setoid_rewrite elem_of_elements.
  destruct Ht as [Ht|Ht]; [left; right|right]; by exists t.
Qed.

Lemma bipartite_node_attr g x k :
  nx.node_attr (nx_convert.to_networkx_bipartite_graph g) x k
  = nx.node_attr
      (foldl (λ G s, nx.add_node (str s) (nx_convert.sensor_attrs g s) G)
         (foldl (λ G v, nx.add_node (str v) (nx_convert.vehicle_attrs g v) G)
            nx.empty (elements (nx_convert.vehicles_of g)))
         (elements (nx_convert.sensors_of g))) x k.
Proof. unfold nx.node_attr. by rewrite bipartite_node_lookup. Qed.

(** Where the nodes and the edges of the bipartite projection come from. *)
Lemma bipartite_node_origin g x :
  nx.has_node (nx_convert.to_networkx_bipartite_graph g) x = true →
  ∃ t, ((t, RDF_type, rdf_utils.EX "VehicleModel") ∈ triples g ∨
        (t, RDF_type, rdf_utils.EX "SensorModel") ∈ triples g) ∧
       x = str t.
Proof.
  intros Hx. apply has_node_true in Hx.
  destruct (bipartite_graph_spec g) as [Hn _]. apply Hn in Hx.
  destruct Hx as (t & [Ht|Ht] & ->); exists t; split; try done.
  - left. by apply vehicles_of_elem.
  - right. by apply sensors_of_elem.
Qed.

Lemma bipartite_edge_origin g x y :
  nx.has_edge (nx_convert.to_networkx_bipartite_graph g) x y = true →
  ∃ v s, (v, RDF_type, rdf_utils.EX "VehicleModel") ∈ triples g ∧
         (v, rdf_utils.EX "compatibleWithModel", s) ∈ triples g ∧
         nx.has_node (nx_convert.to_networkx_bipartite_graph g) (str s) = true ∧
         ((x = str v ∧ y = str s) ∨ (x = str s ∧ y = str v)).
Proof.
  intros Hxy. apply has_edge_true in Hxy.
  destruct (bipartite_graph_spec g) as [_ He]. apply He in Hxy.
  destruct Hxy as (v & s & Hv & Hvs & Hs & Hxy). exists v, s.
  split_and!; [by apply vehicles_of_elem|done|by apply has_node_true|done].
Qed.

(** The attributes of a declared sensor model are those of the sensor loop;
    those of a declared vehicle model that is no sensor model are those of
    the vehicle loop. *)
Lemma bipartite_attr_of_sensor g s (k : string) c :
  (s, RDF_type, rdf_utils.EX "SensorModel") ∈ triples g →
  (∀ t, nx_convert.sensor_attrs g t !! k = Some c) →
  nx.node_attr (nx_convert.to_networkx_bipartite_graph g) (str s) k = Some c.
Proof.
  intros Hs Hk. rewrite bipartite_node_attr.
  rewrite (node_attr_add_nodes _ _ _ _ _ c) by done.
  rewrite bool_decide_eq_true_2; [done|].
  apply list_elem_of_fmap. exists s. split; [done|].
  by apply elem_of_elements, sensors_of_elem.
Qed.

Lemma bipartite_attr_of_vehicle g v (k : string) c c' :
  (v, RDF_type, rdf_utils.EX "VehicleModel") ∈ triples g →
  (∀ s, (s, RDF_type, rdf_utils.EX "SensorModel") ∈ triples g → str s ≠ str v) →
  (∀ t, nx_convert.sensor_attrs g t !! k = Some c') →
  (∀ t, nx_convert.vehicle_attrs g t !! k = Some c) →
  nx.node_attr (nx_convert.to_networkx_bipartite_graph g) (str v) k = Some c.
Proof.
  intros Hv Hno Hk' Hk. rewrite bipartite_node_attr.
  rewrite (node_attr_add_nodes _ _ _ _ _ c') by done.
  rewrite bool_decide_eq_false_2.
  - rewrite (node_attr_add_nodes _ _ _ _ _ c) by done.
    rewrite bool_decide_eq_true_2; [done|].
    apply list_elem_of_fmap. exists v. split; [done|].
    by apply elem_of_elements, vehicles_of_elem.
  - intros (s & Heq & Hs)%list_elem_of_fmap.
    apply elem_of_elements, sensors_of_elem in Hs. by apply (Hno s).
Qed.

(** X10: the nodes of the bipartite projection are the subjects declared as
    vehicle models or as sensor models, blank nodes included, under their
    identifier strings; the edge loop adds no node. *)
Theorem bipartite_nodes_are_declared g x :
  nx.has_node (nx_convert.to_networkx_bipartite_graph g) x = true ↔
  ∃ t, ((t, RDF_type, rdf_utils.EX "VehicleModel") ∈ triples g ∨
        (t, RDF_type, rdf_utils.EX "SensorModel") ∈ triples g) ∧
       x = str t.
Proof.
  rewrite has_node_true. destruct (bipartite_graph_spec g) as [Hn _].
  rewrite Hn. by setoid_rewrite vehicles_of_elem; setoid_rewrite sensors_of_elem.
Qed.

(** X11: the bipartite projection has an edge between [x] and [y] exactly
    when some declared vehicle model has a compatibility triple whose
    object, read as a string, is a node of the graph, and [x], [y] are that
    vehicle and that object in either order.  The node may be on either
    side. *)
Theorem bipartite_edges_characterised g x y :
  nx.has_edge (nx_convert.to_networkx_bipartite_graph g) x y = true ↔
  ∃ v s, (v, RDF_type, rdf_utils.EX "VehicleModel") ∈ triples g ∧
         (v, rdf_utils.EX "compatibleWithModel", s) ∈ triples g ∧
         nx.has_node (nx_convert.to_networkx_bipartite_graph g) (str s) = true ∧
         ((x = str v ∧ y = str s) ∨ (x = str s ∧ y = str v)).
Proof.
  rewrite has_edge_true. destruct (bipartite_graph_spec g) as [_ He].
  rewrite He. setoid_rewrite vehicles_of_elem. by setoid_rewrite has_node_true.
Qed.

(** X12: a compatibility triple whose object is not the identifier of any
    declared vehicle or sensor model is dropped: its object does not become
    a node, and no edge joins the subject and the object. *)
Theorem bipartite_dangling_dropped g v s :
  (v, rdf_utils.EX "compatibleWithModel", s) ∈ triples g →
  (∀ t, (t, RDF_type, rdf_utils.EX "VehicleModel") ∈ triples g ∨
        (t, RDF_type, rdf_utils.EX "SensorModel") ∈ triples g → str t ≠ str s) →
  nx.has_node (nx_convert.to_networkx_bipartite_graph g) (str s) = false ∧
  nx.has_edge (nx_convert.to_networkx_bipartite_graph g) (str v) (str s) = false.
Proof.
  intros Hin Hno.
  assert (Hnode : nx.has_node (nx_convert.to_networkx_bipartite_graph g) (str s)
                  = false).
  { apply not_true_is_false.
    intros (t & Ht & Heq)%bipartite_node_origin. by apply (Hno t). }
  split; [done|]. apply not_true_is_false.
  intros (v' & s' & Hv' & _ & Hs' & [[_ Heq]|[_ Heq]])%bipartite_edge_origin.
  - rewrite <- Heq in Hs'. congruence.
  - apply (Hno v'); auto.
Qed.

(** X13: every declared sensor model is tagged side 1 with type
    ["SensorModel"], also when it is declared a vehicle model as well: the
    sensor loop runs second and overwrites the tag. *)
Theorem bipartite_sensor_side g s :
  (s, RDF_type, rdf_utils.EX "SensorModel") ∈ triples g →
  nx.node_attr (nx_convert.to_networkx_bipartite_graph g) (str s) "bipartite"
  = Some (nx.AInt 1) ∧
  nx.node_attr (nx_convert.to_networkx_bipartite_graph g) (str s) "type"
  = Some (nx.AStr "SensorModel").
Proof.
  intros Hs. split; by apply bipartite_attr_of_sensor.
Qed.

(** X14: a declared vehicle model whose identifier is not that of a declared
    sensor model is tagged side 0 with type ["VehicleModel"]. *)
Theorem bipartite_vehicle_side g v :
  (v, RDF_type, rdf_utils.EX "VehicleModel") ∈ triples g →
  (∀ s, (s, RDF_type, rdf_utils.EX "SensorModel") ∈ triples g → str s ≠ str v) →
  nx.node_attr (nx_convert.to_networkx_bipartite_graph g) (str v) "bipartite"
  = Some (nx.AInt 0) ∧
  nx.node_attr (nx_convert.to_networkx_bipartite_graph g) (str v) "type"
  = Some (nx.AStr "VehicleModel").
Proof.
  intros Hv Hno. split.
  - by apply (bipartite_attr_of_vehicle g v "bipartite" _ (nx.AInt 1)).
  - by apply (bipartite_attr_of_vehicle g v "type" _ (nx.AStr "SensorModel")).
Qed.

(** X15: when no identifier is declared both a vehicle model and a sensor
    model, and no compatibility triple of a vehicle model has a vehicle
    model's identifier as its object, the projection is bipartite: every
    edge joins a node tagged side 0 and a node tagged side 1. *)
Theorem bipartite_pure_when_disjoint g x y :
  (∀ v s, (v, RDF_type, rdf_utils.EX "VehicleModel") ∈ triples g →
          (s, RDF_type, rdf_utils.EX "SensorModel") ∈ triples g → str s ≠ str v) →
  (∀ v o v', (v, RDF_type, rdf_utils.EX "VehicleModel") ∈ triples g →
             (v, rdf_utils.EX "compatibleWithModel", o) ∈ triples g →
             (v', RDF_type, rdf_utils.EX "VehicleModel") ∈ triples g →
             str v' ≠ str o) →
  nx.has_edge (nx_convert.to_networkx_bipartite_graph g) x y = true →
  (nx.node_attr (nx_convert.to_networkx_bipartite_graph g) x "bipartite"
   = Some (nx.AInt 0) ∧
   nx.node_attr (nx_convert.to_networkx_bipartite_graph g) y "bipartite"
   = Some (nx.AInt 1)) ∨
  (nx.node_attr (nx_convert.to_networkx_bipartite_graph g) x "bipartite"
   = Some (nx.AInt 1) ∧
   nx.node_attr (nx_convert.to_networkx_bipartite_graph g) y "bipartite"
   = Some (nx.AInt 0)).
Proof.
  intros Hdis Hnov Hedge.
  apply bipartite_edge_origin in Hedge as (v & o & Hv & Hvo & Ho & Hxy).
  apply bipartite_node_origin in Ho as (t & Ht & Heq).
  destruct Ht as [Ht|Ht].
  { exfalso. by apply (Hnov v o t). }
  assert (Ht1 : nx.node_attr (nx_convert.to_networkx_bipartite_graph g) (str o)
                  "bipartite" = Some (nx.AInt 1)).
  { rewrite Heq. by apply bipartite_attr_of_sensor. }
  assert (Hv0 : nx.node_attr (nx_convert.to_networkx_bipartite_graph g) (str v)
                  "bipartite" = Some (nx.AInt 0)).
  { apply (bipartite_attr_of_vehicle g v "bipartite" _ (nx.AInt 1)); [done| |done..].
    intros s Hs. by apply Hdis. }
  destruct Hxy as [[-> ->]|[-> ->]]; auto.
Qed.

(** X16: for a [URIRef] whose first [rdfs:label] is true as a Python value
    ([truthy]: for a literal, what [Literal.__bool__] gives, so a label that
    is not empty can be false), or for which [n3] gives a name that does not
    start with ["<"], the projectors' resolver and the exporter's resolver
    return the same label. *)
Theorem resolvers_agree g u :
  (∃ l, value g (URIRef u) RDFS_label = Some l ∧ truthy l = true) ∨
  (∃ qn, n3 (URIRef u) (namespace_manager g) = Some qn ∧
         pystr.startswith "<" qn = false) →
  nx_convert.get_label g (URIRef u) = rdf_utils.get_node_label g (URIRef u).
Proof.
  unfold nx_convert.get_label, rdf_utils.get_node_label,
    nx_convert.n3_or_str, rdf_utils.qname_or_last_part. simpl.
  intros [(l & -> & ->)|(qn & -> & ->)]; [done|]. simpl.
  by destruct (value g (URIRef u) RDFS_label) as [l|]; [destruct (truthy l)|].
Qed.

Lemma last_item_trailing_slash (u : string) :
  pystr.last_item (pystr.split "/" (u +:+ "/")) = EmptyString.
Proof.
  unfold pystr.last_item. induction u as [|a u IH]; [done|].
  change (String a u +:+ "/") with (String a (u +:+ "/")).
  cbn [pystr.split].
  pose proof (split_nonempty "/" (u +:+ "/")) as Hne.
  destruct (pystr.split "/" (u +:+ "/")) as [|h t] eqn:E; [done|].
  destruct t as [|h' t'].
  { apply split_singleton in E. exfalso. clear -E.
    induction u as [|b u IH]; simpl in E; [done|].
    apply orb_false_iff in E as [_ E]. auto. }
  destruct (bool_decide (a = "/"%char)); exact IH.
Qed.

(** X17: a [URIRef] that ends in ['/'], has no [rdfs:label] and no matching
    prefix gets the empty string as its label in the node rows. *)
Theorem trailing_slash_gives_empty_label g u :
  (∀ o, (URIRef (u +:+ "/"), RDFS_label, o) ∉ triples g) →
  (∀ qn, n3 (URIRef (u +:+ "/")) (namespace_manager g) = Some qn →
         pystr.startswith "<" qn = true) →
  rdf_utils.get_node_label g (URIRef (u +:+ "/")) = EmptyString.
Proof.
  intros Hno Hn3. unfold rdf_utils.get_node_label, rdf_utils.qname_or_last_part.
  simpl. rewrite value_None by done.
  destruct (n3 _ _) as [qn|] eqn:E; [rewrite (Hn3 qn) by done; simpl|];
    apply last_item_trailing_slash.
Qed.

End extras.

(** ** The query results and the answers built from them *)
Section answers.
Context `{Engine}.
Implicit Types (g : Graph) (q question : string).

Lemma foldl_insert_lookup {V} (f : string → V) (l : list string)
    (d : gmap string V) (k : string) :
  foldl (λ d v, <[v := f v]> d) d l !! k
  = if bool_decide (k ∈ l) then Some (f k) else d !! k.
Proof.
  revert d. induction l as [|v l IH]; intros d; [done|].
  cbn [foldl]. rewrite IH.
  destruct (decide (k ∈ l)) as [Hin|Hnin].
  - rewrite !bool_decide_eq_true_2; [done|by right|done].
  - rewrite (bool_decide_eq_false_2 (k ∈ l)) by done.
    destruct (decide (k = v)) as [->|Hne].
    + rewrite bool_decide_eq_true_2 by left. apply lookup_insert_eq.
    + rewrite bool_decide_eq_false_2.
      * by rewrite lookup_insert_ne.
      * intros [?|?]%elem_of_cons; done.
Qed.

(** X18: [run_sparql_query] gives one dictionary per solution, and every
    dictionary has exactly the variables of the result as its keys: a
    variable that is unbound in a solution is present, with value [None]. *)
Theorem run_sparql_query_rows g q i sol :
  solutions (query g q) !! i = Some sol →
  ∃ row, rdf_utils.run_sparql_query g q !! i = Some row ∧
         length (rdf_utils.run_sparql_query g q) = length (solutions (query g q)) ∧
         ∀ var, row !! var
                = if bool_decide (var ∈ vars (query g q))
                  then Some (rdf_utils.convert g (sol !! var)) else None.
Proof.
  intros Hsol. unfold rdf_utils.run_sparql_query.
  eexists. rewrite list_lookup_fmap, Hsol. split; [done|].
  split; [by rewrite length_fmap|].
  intros var. by rewrite (foldl_insert_lookup (λ v, rdf_utils.convert g (sol !! v))).
Qed.

Lemma prefix_app (a b s : string) :
  String.prefix (a +:+ b) s = true → String.prefix a s = true.
Proof.
  revert s. induction a as [|c a IH]; intros s.
  - by destruct s.
  - change (String c a +:+ b) with (String c (a +:+ b)).
    destruct s as [|c' s]; [done|]. simpl.
    destruct (Ascii.ascii_dec c c'); [apply IH|done].
Qed.

Lemma is_in_app (a b s : string) :
  pystr.is_in (a +:+ b) s = true → pystr.is_in a s = true.
Proof.
  induction s as [|c s IH]; cbn [pystr.is_in].
  - rewrite !orb_false_r. apply prefix_app.
  - intros [Hp|Hs]%orb_true_iff; apply orb_true_iff.
    + left. by eapply prefix_app.
    + right. by apply IH.
Qed.

(** X19: the answer depends on the question through three tests on its
    lower-cased text, in this order of precedence: ["temp"] occurs, then
    ["can bus"] occurs, then ["wheel"] occurs; when none does the answer is
    the fixed apology and no query is run.  The tests for ["temperature"]
    and ["wheels"] never decide. *)
Theorem answer_by_keyword question g :
  rag_demo.answer_question_with_kg question g
  = if pystr.is_in "temp" (pystr.lower question)
    then rag_demo.respond rag_demo.find_temp_sensors question g
    else if pystr.is_in "can bus" (pystr.lower question)
    then rag_demo.respond rag_demo.what_is_can_bus question g
    else if pystr.is_in "wheel" (pystr.lower question)
    then rag_demo.respond rag_demo.sensors_on_wheels question g
    else rag_demo.sorry.
Proof.
  unfold rag_demo.answer_question_with_kg, rag_demo.detect.
  assert (Ht : pystr.is_in "temperature" (pystr.lower question)
               || pystr.is_in "temp" (pystr.lower question)
               = pystr.is_in "temp" (pystr.lower question)).
  { destruct (pystr.is_in "temp" _) eqn:E; [apply orb_true_r|].
    rewrite orb_false_r. apply not_true_is_false. intros Hc.
    apply (is_in_app "temp" "erature") in Hc. congruence. }
  assert (Hw : pystr.is_in "wheel" (pystr.lower question)
               || pystr.is_in "wheels" (pystr.lower question)
               = pystr.is_in "wheel" (pystr.lower question)).
  { destruct (pystr.is_in "wheel" _) eqn:E; [done|].
    apply not_true_is_false. intros Hc.
    apply (is_in_app "wheel" "s") in Hc. congruence. }
  rewrite Ht, Hw.
  destruct (pystr.is_in "temp" _); [done|].
  destruct (pystr.is_in "can bus" _); [done|].
  by destruct (pystr.is_in "wheel" _).
Qed.

Lemma append_assoc (a b c : string) : (a +:+ b) +:+ c = a +:+ (b +:+ c).
Proof. induction a as [|x a IH]; [done|]. exact (f_equal (String x) IH). Qed.

Lemma append_empty_r (a : string) : a +:+ EmptyString = a.
Proof. induction a as [|x a IH]; [done|]. exact (f_equal (String x) IH). Qed.

Lemma body_extends (i : rag_demo.intent) (results : list (gmap string rdf_utils.pyval))
    (answer : string) :
  ∃ b, rag_demo.body i results answer = answer +:+ b.
Proof.
  assert (Hfold : ∀ (f : gmap string rdf_utils.pyval → string)
                    (l : list (gmap string rdf_utils.pyval)) (a : string),
            ∃ b, foldl (λ a res, a +:+ f res) a l = a +:+ b).
  { intros f l. induction l as [|r l IH]; intros a; simpl.
    - exists EmptyString. by rewrite append_empty_r.
    - destruct (IH (a +:+ f r)) as [b ->]. exists (f r +:+ b).
      apply append_assoc. }
  destruct i; simpl.
  - destruct (Hfold (λ res, "- " +:+ rag_demo.fmt (rag_demo.get res "label" (rdf_utils.PyStr "N/A"))
                       +:+ " (" +:+ rag_demo.fmt (rag_demo.get res "sensor_model" (rdf_utils.PyStr EmptyString))
                       +:+ ")" +:+ pystr.nl)
               results
               (answer +:+ "The following sensor models measure temperature:" +:+ pystr.nl))
      as [b Hb].
    cbv beta in Hb. eexists. rewrite Hb. apply append_assoc.
  - destruct results as [|res ?].
    + exists EmptyString. by rewrite append_empty_r.
    + by eexists.
  - destruct (Hfold (λ res, "- The '" +:+ rag_demo.fmt (rag_demo.get res "instance_label" rdf_utils.PyNone)
                       +:+ "' (model: " +:+ rag_demo.fmt (rag_demo.get res "model_label" rdf_utils.PyNone)
                       +:+ ") is installed on the "
                       +:+ rag_demo.fmt (rag_demo.get res "vehicle_label" rdf_utils.PyNone)
                       +:+ "." +:+ pystr.nl)
               results
               (answer +:+ "I found these sensors located at the wheels:" +:+ pystr.nl))
      as [b Hb].
    cbv beta in Hb. eexists. rewrite Hb. apply append_assoc.
Qed.

(** X20: an answer is the apology, or the no-information message, or a text
    that opens with the header quoting the question as it was typed and
    closes with the source line. *)
Theorem answer_shape question g :
  rag_demo.answer_question_with_kg question g = rag_demo.sorry ∨
  rag_demo.answer_question_with_kg question g = rag_demo.nothing_found ∨
  ∃ b, rag_demo.answer_question_with_kg question g
       = "Based on the knowledge graph, here's what I found about '"
           +:+ question +:+ "':" +:+ pystr.nl +:+ pystr.nl +:+ b
           +:+ pystr.nl +:+ pystr.nl +:+ "Source: KG query results.".
Proof.
  unfold rag_demo.answer_question_with_kg.
  destruct (rag_demo.detect question) as [i|]; [|by left]. right.
  unfold rag_demo.respond.
  destruct (rdf_utils.run_sparql_query g (rag_demo.INTENT_TO_SPARQL i))
    as [|res results]; [by left|right].
  destruct (body_extends i (res :: results)
              ("Based on the knowledge graph, here's what I found about '"
                 +:+ question +:+ "':" +:+ pystr.nl +:+ pystr.nl)) as [b Hb].
  exists b. cbv zeta. rewrite Hb. by rewrite !append_assoc.
Qed.

End answers.

(** ** The markers of the plot *)
Section markers.
Context `{Lib}.
Implicit Types (g : Graph) (G : nx.Graph).

Lemma palette_lookup (ty c : string) :
  viz_plotly.COLOR_PALETTE !! ty = Some c →
  (ty, c) ∈ [ ("SensorModel", "#1f77b4"); ("SensorInstance", "#aec7e8");
              ("VehicleModel", "#ff7f0e"); ("ECU", "#ffbb78");
              ("SensorType", "#2ca02c"); ("Subsystem", "#98df8a");
              ("Protocol", "#d62728"); ("Location", "#ff9896");
              ("DTC", "#9467bd"); ("Manufacturer", "#8c564b");
              ("Default", "#7f7f7f") ].
Proof. unfold viz_plotly.COLOR_PALETTE. apply elem_of_list_to_map_2. Qed.

(** X21: in the plot of the bipartite projection every node has one of two
    colours: the sensor-model blue when its identifier is that of a declared
    sensor model, the vehicle-model orange otherwise; none is drawn in the
    default grey. *)
Theorem bipartite_view_colours g x :
  nx.has_node (nx_convert.to_networkx_bipartite_graph g) x = true →
  ((∃ s, (s, RDF_type, rdf_utils.EX "SensorModel") ∈ triples g ∧ x = str s) ∧
   viz_plotly.node_color (nx_convert.to_networkx_bipartite_graph g) x = "#1f77b4") ∨
  ((∀ s, (s, RDF_type, rdf_utils.EX "SensorModel") ∈ triples g → str s ≠ x) ∧
   viz_plotly.node_color (nx_convert.to_networkx_bipartite_graph g) x = "#ff7f0e").
Proof.
  intros Hx. apply bipartite_node_origin in Hx as (t & Ht & ->).
  unfold viz_plotly.node_color, viz_plotly.node_type.
  destruct (decide (str t ∈ str <$> elements (nx_convert.sensors_of g))) as [Hin|Hnin].
  - left. apply list_elem_of_fmap in Hin as (s & Heq & Hs).
    apply elem_of_elements, sensors_of_elem in Hs.
    split; [by exists s|]. rewrite Heq.
    by rewrite (bipartite_attr_of_sensor g s "type" (nx.AStr "SensorModel")).
  - right.
    assert (Hno : ∀ s, (s, RDF_type, rdf_utils.EX "SensorModel") ∈ triples g →
                       str s ≠ str t).
    { intros s Hs Heq. apply Hnin, list_elem_of_fmap. exists s. split; [done|].
      by apply elem_of_elements, sensors_of_elem. }
    split; [done|]. destruct Ht as [Ht|Ht].
    + by rewrite (bipartite_attr_of_vehicle g t "type" (nx.AStr "VehicleModel")
                    (nx.AStr "SensorModel")).
    + by destruct (Hno t Ht).
Qed.

(** X22: in the plot of the entity graph a node is drawn in the default grey
    whenever its type label is a prefixed name (it contains [':']) or the
    placeholder ["Resource"]: the palette is keyed by bare class names. *)
Theorem entity_view_default_colour g G m u :
  nx_convert.to_networkx_entity_graph g = Some (G, m) →
  occurs_in (triples g) (URIRef u) →
  pystr.contains ":" (nx_convert.get_type_label g (URIRef u)) = true ∨
  nx_convert.get_type_label g (URIRef u) = "Resource" →
  viz_plotly.node_color G u = "#7f7f7f".
Proof.
  intros Hrun Ho Hty.
  apply entity_graph_keeps in Hrun as (_ & _ & Hn).
  pose proof (Hn (URIRef u)) as Hattr. cbn [str] in Hattr.
  unfold viz_plotly.node_color, viz_plotly.node_type, nx.node_attr.
  rewrite Hattr by (by apply collect_nodes_elem). unfold nx_convert.entity_attrs. simpl. rewrite lookup_insert_ne, lookup_insert_eq by done. simpl.
  destruct (viz_plotly.COLOR_PALETTE !! nx_convert.get_type_label g (URIRef u))
    as [c|] eqn:E; [|done].
  exfalso. apply palette_lookup in E. revert E Hty.
  generalize (nx_convert.get_type_label g (URIRef u)). intros ty E Hty.
  repeat (apply elem_of_cons in E as [[= -> ->]|E];
          [by destruct Hty as [Hty|Hty]; vm_compute in Hty|]).
  by apply elem_of_nil in E.
Qed.

End markers.

(** ** Splitting scripts and query files *)

Lemma split_pieces_no_sep (c : ascii) (s p : string) :
  p ∈ pystr.split c s → pystr.contains c p = false.
Proof.
  revert p. induction s as [|a s IH]; intros p; simpl.
  - by intros ->%list_elem_of_singleton.
  - pose proof (split_nonempty c s) as Hne.
    destruct (bool_decide (a = c)) eqn:Ha.
    + intros [->|Hp]%elem_of_cons; [done|by apply IH].
    + destruct (pystr.split c s) as [|h t]; [done|].
      intros [->|Hp]%elem_of_cons.
      * simpl. rewrite Ha. apply IH. by left.
      * apply IH. by right.
Qed.

Lemma chars_chars_ok (s : string) : chars_ok (pystr.chars s).
Proof.
  induction s as [|c s [IH1 IH2]]; [by split|]. cbn [pystr.chars].
  destruct (pystr.chars s) as [|h t]; [by split; repeat constructor|].
  apply Forall_cons in IH1 as [Hh Ht]. simpl in IH2.
  destruct (pystr.starts_cont h) eqn:E.
  - split; [|done]. constructor; [|done].
    destruct h as [|a h]; [done|]. simpl in *. by rewrite E, Hh.
  - split; [by repeat constructor|]. simpl. by constructor.
Qed.

Lemma starts_cont_chars (s : string) :
  pystr.starts_cont (default EmptyString (head (pystr.chars s))) = pystr.starts_cont s.
Proof.
  destruct s as [|c s]; [done|]. cbn [pystr.chars].
  destruct (pystr.chars s) as [|h t]; [done|]. by destruct (pystr.starts_cont h).
Qed.

Lemma chars_cons_rest (c : ascii) (r : string) :
  pystr.starts_cont r = false →
  pystr.chars (String c r) = String c EmptyString :: pystr.chars r.
Proof.
  intros Hr. cbn [pystr.chars]. pose proof (starts_cont_chars r) as Hh.
  destruct (pystr.chars r) as [|h t]; [done|]. simpl in Hh. by rewrite Hh, Hr.
Qed.

Lemma chars_conts (t r : string) :
  all_cont t = true → t ≠ EmptyString → pystr.starts_cont r = false →
  pystr.chars (t +:+ r) = t :: pystr.chars r.
Proof.
  induction t as [|a t IH]; [done|]. intros [Ha Ht]%andb_true_iff _ Hr.
  destruct t as [|b t].
  - simpl. apply chars_cons_rest, Hr.
  - change (String a (String b t) +:+ r) with (String a (String b t +:+ r)).
    cbn [pystr.chars]. rewrite IH by done.
    simpl in Ht. apply andb_true_iff in Ht as [Hb _]. simpl. by rewrite Hb.
Qed.

Lemma chars_char (w r : string) :
  is_char w = true → pystr.starts_cont r = false →
  pystr.chars (w +:+ r) = w :: pystr.chars r.
Proof.
  destruct w as [|c t]; [done|]. simpl. intros Ht Hr.
  destruct t as [|b t]; [by apply chars_cons_rest|].
  change (String c (String b t +:+ r)) with (String c ((String b t) +:+ r)).
  cbn [pystr.chars]. rewrite chars_conts by done.
  simpl in Ht. apply andb_true_iff in Ht as [Hb _]. simpl. by rewrite Hb.
Qed.

Lemma starts_cont_glue (l : list string) :
  Forall (λ w, is_char w = true) l →
  pystr.starts_cont (pystr.glue l) = pystr.starts_cont (default EmptyString (head l)).
Proof. intros Hl. destruct Hl as [|w l Hw _]; [done|]. by destruct w. Qed.

(** Characters put together and taken apart again are the same. *)
Lemma chars_glue (l : list string) : chars_ok l → pystr.chars (pystr.glue l) = l.
Proof.
  intros [H1 H2]. induction H1 as [|w l Hw Hl IH]; [done|].
  cbn [pystr.glue]. simpl in H2. rewrite chars_char; [| done |].
  - f_equal. apply IH. destruct H2; [done|]. by destruct l.
  - rewrite starts_cont_glue by done. destruct H2; [done|]. done.
Qed.

Lemma chars_ok_tail (w : string) (l : list string) : chars_ok (w :: l) → chars_ok l.
Proof.
  intros [[_ H1]%Forall_cons H2]. split; [done|]. simpl in H2.
  destruct H2; [done|]. done.
Qed.

Lemma lstrip_sublist (l : list string) : pystr.lstrip l `sublist_of` l.
Proof.
  induction l as [|w l IH]; [done|]. simpl.
  destruct (pystr.is_space w); [by apply sublist_cons|done].
Qed.

Lemma rstrip_cons (w : string) (l : list string) :
  pystr.rstrip (w :: l)
  = match pystr.rstrip l with
    | [] => if pystr.is_space w then [] else [w]
    | r => w :: r
    end.
Proof. done. Qed.

Lemma rstrip_sublist (l : list string) : pystr.rstrip l `sublist_of` l.
Proof.
  induction l as [|w l IH]; [done|]. rewrite rstrip_cons.
  destruct (pystr.rstrip l) as [|b r].
  - destruct (pystr.is_space w); [by apply sublist_cons|].
    apply sublist_skip, sublist_nil_l.
  - by apply sublist_skip.
Qed.

Lemma lstrip_ok (l : list string) : chars_ok l → chars_ok (pystr.lstrip l).
Proof.
  induction l as [|w l IH]; [done|]. intros Hl. simpl.
  destruct (pystr.is_space w); [|done]. by eapply IH, chars_ok_tail.
Qed.

Lemma rstrip_ok (l : list string) : chars_ok l → chars_ok (pystr.rstrip l).
Proof.
  induction l as [|w l IH]; [done|]. intros Hl. rewrite rstrip_cons.
  pose proof (IH (chars_ok_tail _ _ Hl)) as [Hr1 Hr2].
  destruct Hl as [[Hw Hl1]%Forall_cons Hl2]. simpl in Hl2.
  destruct (pystr.rstrip l) as [|b r] eqn:E.
  - destruct (pystr.is_space w); [done|]. by split; repeat constructor.
  - split; [by constructor|]. simpl. constructor; [|done].
    assert (Hb : b ∈ l).
    { eapply elem_of_sublist; [|apply rstrip_sublist]. rewrite E. left. }
    by eapply Forall_forall in Hl2.
Qed.

Lemma lstrip_idem (l : list string) : pystr.lstrip (pystr.lstrip l) = pystr.lstrip l.
Proof.
  induction l as [|w l IH]; [done|]. simpl.
  destruct (pystr.is_space w) eqn:Hw; [done|]. simpl. by rewrite Hw.
Qed.

Lemma rstrip_idem (l : list string) : pystr.rstrip (pystr.rstrip l) = pystr.rstrip l.
Proof.
  induction l as [|w l IH]; [done|]. rewrite rstrip_cons.
  destruct (pystr.rstrip l) as [|b r] eqn:E.
  - destruct (pystr.is_space w) eqn:Hw; [done|]. simpl. by rewrite Hw.
  - rewrite rstrip_cons, IH. done.
Qed.

(** Dropping at the back leaves the first character in place. *)
Lemma lstrip_rstrip (l : list string) :
  pystr.lstrip l = l → pystr.lstrip (pystr.rstrip l) = pystr.rstrip l.
Proof.
  destruct l as [|w l]; [done|]. cbn [pystr.lstrip]. rewrite rstrip_cons.
  destruct (pystr.is_space w) eqn:Hw.
  - intros Heq. exfalso.
    assert (Hlen : ∀ t, length (pystr.lstrip t) ≤ length t).
    { induction t as [|b t IHt]; simpl; [lia|].
      destruct (pystr.is_space b); simpl; lia. }
    specialize (Hlen l). rewrite Heq in Hlen. simpl in Hlen. lia.
  - intros _. destruct (pystr.rstrip l); cbn [pystr.lstrip]; by rewrite Hw.
Qed.

Lemma strip_idem (s : string) : pystr.strip (pystr.strip s) = pystr.strip s.
Proof.
  unfold pystr.strip. rewrite chars_glue.
  - rewrite (lstrip_rstrip (pystr.lstrip _)) by apply lstrip_idem.
    by rewrite rstrip_idem.
  - apply rstrip_ok, lstrip_ok, chars_chars_ok.
Qed.

Lemma contains_strip (c : ascii) (s : string) :
  pystr.contains c s = false → pystr.contains c (pystr.strip s) = false.
Proof.
  intros Hs. rewrite <- (glue_chars s) in Hs. apply contains_glue in Hs.
  unfold pystr.strip. apply contains_glue.
  rewrite Forall_forall in Hs. apply Forall_forall. intros w Hw. apply Hs.
  eapply elem_of_sublist; [|apply lstrip_sublist].
  eapply elem_of_sublist; [exact Hw|apply rstrip_sublist].
Qed.

(** X23: the statements that [import_with_csv] runs are never empty, contain
    no [';'], and have no white space at either end. *)
Theorem cypher_statements_clean (script q : string) :
  q ∈ neo4j_loader.queries script →
  q ≠ EmptyString ∧ pystr.contains ";" q = false ∧ pystr.strip q = q.
Proof.
  unfold neo4j_loader.queries. intros (p & Hp & Hq)%list_elem_of_omap.
  case_bool_decide as Hne; [done|]. injection Hq as <-.
  split; [done|]. split; [|apply strip_idem].
  apply contains_strip. by eapply split_pieces_no_sep.
Qed.

Lemma sparql_runs_from (l : list string) (k : nat) :
  (omap (λ '(i, query_string),
           let query_string := pystr.strip query_string in
           if bool_decide (query_string = EmptyString)
              || pystr.startswith "#" query_string
           then None
           else Some (i + 1, query_string))
        (imap (λ i x, (k + i, x)) l)).*2
  = omap (λ q, if negb (bool_decide (pystr.strip q = EmptyString))
                  && negb (pystr.startswith "#" (pystr.strip q))
               then Some (pystr.strip q) else None) l.
Proof.
  revert k. induction l as [|x l IH]; intros k; [done|].
  cbn [imap omap].
  assert (Himap : imap ((λ i x, (k + i, x)) ∘ S) l = imap (λ i x, (S k + i, x)) l).
  { apply imap_ext. intros i y _. simpl. f_equal. lia. }
  rewrite Himap. cbn -[Nat.add imap].
  destruct (bool_decide (pystr.strip x = EmptyString));
    destruct (pystr.startswith "#" (pystr.strip x));
    cbn -[Nat.add imap]; try apply IH.
  f_equal. apply IH.
Qed.


(** A text in which [sep] does not occur is one piece. *)
Lemma is_in_false_split_from (sep s : string) :
  sep ≠ EmptyString → pystr.is_in sep s = false → pystr.split_from sep 0 s = [s].
Proof.
  intros Hsep. induction s as [|c s IH]; cbn [pystr.is_in pystr.split_from].
  - done.
  - intros [Hp Hs]%orb_false_iff. rewrite Hp, IH by done. done.
Qed.

(** X25: the label given to a sensor type is its name unchanged, whenever
    the name does not contain the text ["(?=[A-Z])"]: [split] takes its
    argument as plain text, so no space is ever added. *)
Theorem sensor_type_label_is_the_name (name : string) :
  pystr.is_in "(?=[A-Z])" name = false →
  data_generator.sensor_type_label name = name.
Proof.
  intros Hno. unfold data_generator.sensor_type_label, pystr.split_str.
  by rewrite is_in_false_split_from.
Qed.

(** ** The further properties on the example graphs *)
Import bindings examples rdf_utils.

Lemma entity_edges_complete_witness :
  ∃ G m,
    nx_convert.to_networkx_entity_graph one_pair = Some (G, m) ∧
    nx.has_edge G (str (VEH "v1")) (str (SEN "s1")) = true ∧
    nx.has_edge G (str (SEN "s1")) (str (VEH "v1")) = true.
Proof.
  eexists _, _. split; [vm_compute; reflexivity|].
  eapply (entity_edges_complete one_pair _ _ _ (EX "compatibleWithModel")).
  - vm_compute; reflexivity.
  - do 2 right. left.
Defined.

Lemma projected_edges_undirected_witness :
  nx.get_edge_data (nx_convert.to_networkx_bipartite_graph one_pair)
    (str (VEH "v1")) (str (SEN "s1"))
  = nx.get_edge_data (nx_convert.to_networkx_bipartite_graph one_pair)
      (str (SEN "s1")) (str (VEH "v1")).
Proof.
  apply (projected_edges_undirected one_pair). right. reflexivity.
Defined.

Lemma entity_node_attributes_witness :
  ∃ G m,
    nx_convert.to_networkx_entity_graph located = Some (G, m) ∧
    nx._node G !! str (EX "EngineBay")
    = Some {[ "label" := nx.AStr (nx_convert.get_label located (EX "EngineBay"));
              "type" := nx.AStr (nx_convert.get_type_label located (EX "EngineBay"));
              "uri" := nx.AStr (str (EX "EngineBay"));
              "kind" := nx.AStr "Entity" ]}.
Proof.
  eexists _, _. split; [vm_compute; reflexivity|].
  eapply (entity_node_attributes located).
  - vm_compute; reflexivity.
  - exists (SEN "i1"), (EX "locatedAt"), (EX "EngineBay"). split; [left|by right].
Defined.

Lemma entity_edge_last_wins_witness :
  ∃ G m m0 m1,
    nx_convert.to_networkx_entity_graph parallel = Some (G, m) ∧
    bindings_after [(VEH "v1", EX "compatibleWithModel", SEN "s1")]
      (namespace_manager parallel) = Some m0 ∧
    qname m0 near = Some ("ns6:near", m1) ∧
    nx.get_edge_data G (str (VEH "v1")) (str (SEN "s1"))
    = Some {[ "label" := nx.AStr "ns6:near"; "uri" := nx.AStr (str near) ]} ∧
    nx.get_edge_data G (str (SEN "s1")) (str (VEH "v1"))
    = Some {[ "label" := nx.AStr "ns6:near"; "uri" := nx.AStr (str near) ]}.
Proof.
  destruct (nx_convert.to_networkx_entity_graph parallel) as [[G m]|] eqn:Hrun;
    [|vm_compute in Hrun; discriminate].
  destruct (entity_edge_last_wins parallel G m
              [(VEH "v1", EX "compatibleWithModel", SEN "s1")]
              (VEH "v1") near (SEN "s1") [])
    as (m0 & lbl & m1 & Hb & Hq & Hd1 & Hd2).
  - exact Hrun.
  - vm_compute; reflexivity.
  - reflexivity.
  - intros tr Htr. by apply elem_of_nil in Htr.
  - vm_compute in Hb. injection Hb as <-.
    vm_compute in Hq. injection Hq as <- <-.
    by eexists G, m, _, _.
Defined.

Lemma export_nodes_match_entity_graph_witness :
  ∃ G (nodes_data : list (gmap string string)),
    (λ r : gmap string string, r !! "uri") <$> nodes_data ≡ₚ Some <$> nx.nodes G.
Proof.
  eexists _, _. eapply (export_nodes_match_entity_graph located).
  - vm_compute; reflexivity.
  - vm_compute; reflexivity.
Defined.

Lemma export_edges_reference_nodes_witness :
  ∃ (nodes_data : list (gmap string string)) x y r1 r2,
    exporters.edge_record "ex:locatedAt" (SEN "i1") (EX "locatedAt") (EX "EngineBay")
      !! "start_uri" = Some x ∧
    exporters.edge_record "ex:locatedAt" (SEN "i1") (EX "locatedAt") (EX "EngineBay")
      !! "end_uri" = Some y ∧
    r1 ∈ nodes_data ∧ r1 !! "uri" = Some x ∧
    r2 ∈ nodes_data ∧ r2 !! "uri" = Some y.
Proof.
  eexists. eapply (export_edges_reference_nodes located).
  - vm_compute; reflexivity.
  - left.
Defined.

Lemma export_edge_rows_complete_witness :
  ∃ edges_data : list (gmap string string),
    length edges_data = length (filter (λ tr, links tr = true) (iter located)) ∧
    ∀ x p y, (URIRef x, p, URIRef y) ∈ triples located →
      ∃ r, r ∈ edges_data ∧ r !! "start_uri" = Some x ∧
           r !! "end_uri" = Some y ∧ r !! "uri" = Some (str p).
Proof.
  eexists. eapply (export_edge_rows_complete located).
  vm_compute; reflexivity.
Defined.

Lemma edge_row_tag_is_safe_witness :
  ∃ tag,
    exporters.edge_record "ex:locatedAt" (SEN "i1") (EX "locatedAt") (EX "EngineBay")
      !! "type" = Some tag ∧
    pystr.contains ":" tag = false ∧ pystr.has_lower tag = false.
Proof.
  eapply (edge_row_tag_is_safe located).
  - vm_compute; reflexivity.
  - left.
Defined.

Lemma bipartite_dangling_dropped_witness :
  nx.has_node (nx_convert.to_networkx_bipartite_graph dangling) (str (SEN "s9"))
  = false ∧
  nx.has_edge (nx_convert.to_networkx_bipartite_graph dangling)
    (str (VEH "v1")) (str (SEN "s9")) = false.
Proof.
  apply (bipartite_dangling_dropped dangling (VEH "v1") (SEN "s9")).
  - right. left.
  - intros t [Ht|Ht]; repeat (apply elem_of_cons in Ht as [Ht|Ht]; [by simplify_eq|]);
      by apply elem_of_nil in Ht.
Defined.

Lemma bipartite_sensor_side_witness :
  nx.node_attr (nx_convert.to_networkx_bipartite_graph one_pair) (str (SEN "s1"))
    "bipartite" = Some (nx.AInt 1) ∧
  nx.node_attr (nx_convert.to_networkx_bipartite_graph one_pair) (str (SEN "s1"))
    "type" = Some (nx.AStr "SensorModel").
Proof. apply (bipartite_sensor_side one_pair (SEN "s1")). right. left. Defined.

Lemma bipartite_vehicle_side_witness :
  nx.node_attr (nx_convert.to_networkx_bipartite_graph one_pair) (str (VEH "v1"))
    "bipartite" = Some (nx.AInt 0) ∧
  nx.node_attr (nx_convert.to_networkx_bipartite_graph one_pair) (str (VEH "v1"))
    "type" = Some (nx.AStr "VehicleModel").
Proof.
  apply (bipartite_vehicle_side one_pair (VEH "v1")).
  - left.
  - intros s Hs; repeat (apply elem_of_cons in Hs as [Hs|Hs]; [by simplify_eq|]);
      by apply elem_of_nil in Hs.
Defined.

Lemma bipartite_pure_when_disjoint_witness :
  (nx.node_attr (nx_convert.to_networkx_bipartite_graph one_pair) (str (VEH "v1"))
     "bipartite" = Some (nx.AInt 0) ∧
   nx.node_attr (nx_convert.to_networkx_bipartite_graph one_pair) (str (SEN "s1"))
     "bipartite" = Some (nx.AInt 1)) ∨
  (nx.node_attr (nx_convert.to_networkx_bipartite_graph one_pair) (str (VEH "v1"))
     "bipartite" = Some (nx.AInt 1) ∧
   nx.node_attr (nx_convert.to_networkx_bipartite_graph one_pair) (str (SEN "s1"))
     "bipartite" = Some (nx.AInt 0)).
Proof.
  apply (bipartite_pure_when_disjoint one_pair).
  - intros v s Hv Hs.
    repeat (apply elem_of_cons in Hv as [Hv|Hv]; [simplify_eq|]);
      [|by apply elem_of_nil in Hv].
    repeat (apply elem_of_cons in Hs as [Hs|Hs]; [by simplify_eq|]);
      by apply elem_of_nil in Hs.
  - intros v o v' Hv Hvo Hv'.
    repeat (apply elem_of_cons in Hv as [Hv|Hv]; [simplify_eq|]);
      [|by apply elem_of_nil in Hv].
    repeat (apply elem_of_cons in Hvo as [Hvo|Hvo]; [simplify_eq|]);
      [|by apply elem_of_nil in Hvo].
    repeat (apply elem_of_cons in Hv' as [Hv'|Hv']; [by simplify_eq|]);
      by apply elem_of_nil in Hv'.
  - vm_compute; reflexivity.
Defined.

Lemma resolvers_agree_witness :
  nx_convert.get_label scenario_a (VEH "v1")
  = rdf_utils.get_node_label scenario_a (VEH "v1").
Proof.
  apply (resolvers_agree scenario_a (str (VEH "v1"))). left.
  eexists. split; vm_compute; reflexivity.
Defined.

Lemma trailing_slash_gives_empty_label_witness :
  rdf_utils.get_node_label slashed (URIRef (places +:+ "/")) = EmptyString.
Proof.
  apply (trailing_slash_gives_empty_label slashed places).
  - intros o Ho. apply list_elem_of_singleton in Ho. discriminate.
  - intros qn Hq. vm_compute in Hq. by injection Hq as <-.
Defined.

Lemma run_sparql_query_rows_witness :
  ∃ row, rdf_utils.run_sparql_query located "SELECT" !! 0 = Some row ∧
         length (rdf_utils.run_sparql_query located "SELECT")
         = length (solutions (query located "SELECT")) ∧
         ∀ var, row !! var
                = if bool_decide (var ∈ vars (query located "SELECT"))
                  then Some (rdf_utils.convert located
                               (({[ "label" := Literal "CAN Bus" None None ]}
                                 : gmap string term) !! var))
                  else None.
Proof. apply (run_sparql_query_rows located "SELECT" 0). reflexivity. Defined.

Lemma bipartite_view_colours_witness :
  ((∃ s, (s, RDF_type, EX "SensorModel") ∈ triples one_pair ∧ str (VEH "v1") = str s) ∧
   viz_plotly.node_color (nx_convert.to_networkx_bipartite_graph one_pair)
     (str (VEH "v1")) = "#1f77b4") ∨
  ((∀ s, (s, RDF_type, EX "SensorModel") ∈ triples one_pair → str s ≠ str (VEH "v1")) ∧
   viz_plotly.node_color (nx_convert.to_networkx_bipartite_graph one_pair)
     (str (VEH "v1")) = "#ff7f0e").
Proof.
  apply (bipartite_view_colours one_pair). vm_compute; reflexivity.
Defined.

Lemma entity_view_default_colour_witness :
  ∃ G, viz_plotly.node_color G (str (VEH "v1")) = "#7f7f7f".
Proof.
  eexists. eapply (entity_view_default_colour one_pair).
  - vm_compute; reflexivity.
  - exists (VEH "v1"), RDF_type, (EX "VehicleModel"). split; [left|by left].
  - left. vm_compute; reflexivity.
Defined.

Lemma cypher_statements_clean_witness :
  "CREATE (a)" ≠ EmptyString ∧ pystr.contains ";" "CREATE (a)" = false ∧
  pystr.strip "CREATE (a)" = "CREATE (a)".
Proof.
  apply (cypher_statements_clean script).
  assert (neo4j_loader.queries script = ["MATCH (n) RETURN n"; "CREATE (a)"])
    as -> by (vm_compute; reflexivity).
  right. left.
Defined.

Lemma sensor_type_label_is_the_name_witness :
  data_generator.sensor_type_label "TemperatureSensor" = "TemperatureSensor".
Proof.
  apply sensor_type_label_is_the_name. vm_compute; reflexivity.
Defined.

